(** * Budzee backend: ledger, matchmaking and Memory-game session machine

    A shallow embedding of the money-moving core of the backend:

    - [WalletService]   (services/walletService.js): [getWallet],
      [getWalletBalance], [deductGameEntry], [creditWallet],
      [createTransaction], [processDeposit], [createWithdrawalRequest],
      [updateWithdrawalStatus], [getTransactionHistory];
    - [BotService]      (bot-system/services/BotService.js):
      [createBotUser], [getBotForMatchmaking];
    - [MatchmakingService] (services/matchmakingService.js): [joinQueue],
      [leaveQueue], [createGame], [deployBotIfNeeded], [getQueueStatus];
    - [GameService]     (services/gameService.js): [getGameById],
      [updateGameState], [initializeMemoryGameBoard],
      [processGameWinnings];
    - [MemoryGameService] (services/MemoryGame.js): [createGameBoard],
      [startGame], [selectCard], [processMatch], [nextTurn],
      [handleTurnTimeout], [endGame], [handlePlayerExit],
      [safeProcessWinnings], [joinRoom], [handlePlayerLeave];
    - [SocketManager]   (services/socketManager.js): the registries of
      sockets, users and game rooms;
    - [Server]          (server.js): [checkRateLimit] and its clean-up.

    Conventions of the embedding.

    - The Prisma store is an explicit record [Store] of tables that every
      operation threads through.  Each service keeps its process-local
      fields (the [ongoingDeductions] set, the [processedWinnings] set, the
      [games] registry) in a record of its own.
    - Every [async] method is modelled as one atomic step: handlers are
      run one after the other, and the store never fails.
    - Money.  The money columns of the store are [DECIMAL(10,2)]
      (prisma/migrations); an amount in the store is an exact rational [Q]
      and the increments and decrements that the store performs are exact,
      the column absorbing the representation error of the number it is
      handed.  JavaScript sees a column through [parseFloat], that is
      rounded to the nearest binary64 number ([binary64]), and what it
      computes itself with [+] and [*] is rounded to binary64 again: these
      are the numbers that its comparisons of two amounts see.  The test
      of one amount against zero is written on the rational, whose sign
      rounding keeps.  The prize pool, a product that JavaScript computes,
      is kept by its column to two decimals ([toCents]).  [NaN] and
      overflow do not occur.
    - A JavaScript [throw] is the [Throw] constructor of [outcome].
    - Socket emissions, log lines, the countdown interval and the move
      selection of bots are left out; identifiers the store or the clock
      supply ([newGameId], [newBotId], [now]) are arguments. *)

From Stdlib Require Import QArith Qpower Qround Qabs Lqa Ascii String.
From stdpp Require Import gmap strings list fin_maps pretty sorting.

Open Scope string_scope.
Open Scope list_scope.

(** ** JavaScript preliminaries *)

Inductive outcome (A : Type) : Type :=
  | Return (a : A)
  | Throw (message : string).
Arguments Return {A} a.
Arguments Throw {A} message.

(** [x < y] on numbers, as a boolean. *)
Definition Qltb (x y : Q) : bool := negb (Qle_bool y x).

(** *** Numbers

    A JavaScript number is a binary64 number, written here as the rational
    it denotes.  [binary64 x] is the binary64 number nearest to [x], ties
    to even: 53 significant bits, and multiples of [2 ^ -1074] below
    [2 ^ -1022]. *)

Definition pow2 (e : Z) : Q := Qpower 2 e.

(** The exponent of the leading bit of a positive number. *)
Definition ilog2 (a : Q) : Z :=
  let e := (Z.log2 (Qnum a) - Z.log2 (Z.pos (Qden a)))%Z in
  if Qle_bool (pow2 e) a then e else (e - 1)%Z.

(** The nearest integer, ties to even. *)
Definition roundEven (x : Q) : Z :=
  let f := Qfloor x in
  let r := (x - inject_Z f)%Q in
  if Qltb r (1 # 2) then f
  else if Qltb (1 # 2) r then (f + 1)%Z
  else if Z.even f then f else (f + 1)%Z.

Definition binary64 (x : Q) : Q :=
  if Qeq_bool x 0 then 0%Q
  else
    let e := ilog2 (Qabs x) in
    let quantum := pow2 (Z.max (e - 52) (-1074)) in
    Qred (inject_Z (roundEven (x / quantum)) * quantum).

(** [parseFloat] of a decimal, and [+] and [*] on two numbers. *)
Definition parseFloat (x : Q) : Q := binary64 x.
Definition jsAdd (x y : Q) : Q := binary64 (x + y).
Definition jsMul (x y : Q) : Q := binary64 (x * y).

(** What a [DECIMAL(10,2)] column keeps of a number: the nearest multiple
    of 1/100, ties away from zero. *)
Definition toCents (x : Q) : Q :=
  let y := (x * 100)%Q in
  Qred (inject_Z (if Qle_bool 0 y then Qfloor (y + (1 # 2)) else Qceiling (y - (1 # 2)))
        / 100).

(** A string is truthy unless it is empty. *)
Definition truthy (s : string) : bool :=
  match s with EmptyString => false | String _ _ => true end.

(** [s.trim() === ''] : only (ASCII) white space. *)
Definition is_space (c : ascii) : bool :=
  let n := nat_of_ascii c in
  (n =? 32)%nat || ((9 <=? n)%nat && (n <=? 13)%nat).

Fixpoint trim_is_empty (s : string) : bool :=
  match s with
  | EmptyString => true
  | String c r => is_space c && trim_is_empty r
  end.

(** [a.startsWith(p)] *)
Definition startsWith (a p : string) : bool := String.prefix p a.

Definition string_eqb (a b : string) : bool := bool_decide (a = b).

Definition Qsum (l : list Q) : Q := foldr Qplus 0%Q l.

(** ** The store (Prisma tables) *)

Record Wallet : Type := mkWallet {
  balance : Q;
  gameBalance : Q;
  withdrawableBalance : Q
}.

Record Transaction : Type := mkTransaction {
  txId : nat;
  txUserId : string;
  txType : string;
  txAmount : Q;
  txStatus : string;
  txGameId : option string
}.

Record User : Type := mkUser {
  userId : string;
  userName : string;
  isBot : bool
}.

Record QueueEntry : Type := mkQueueEntry {
  qId : nat;
  qUserId : string;
  qGameType : string;
  qMaxPlayers : nat;
  qEntryFee : Q
}.

Record Participation : Type := mkParticipation {
  partUserId : string;
  partGameId : string;
  partPosition : nat;
  partColor : string;
  partScore : Z
}.

(** One card of the Memory board. *)
Record Card : Type := mkCard {
  cardId : nat;
  position : nat;
  symbol : string;
  isFlipped : bool;
  isMatched : bool
}.

Record Game : Type := mkGame {
  gameType : string;
  maxPlayers : nat;
  entryFee : Q;
  prizePool : Q;
  gameStatus : string;
  gameData : list Card;
  currentTurn : nat;
  winner : option string
}.

(** Rows are kept in insertion order ([createdAt] ascending); [nextId] is
    the generator of row identifiers. *)
Record Store : Type := mkStore {
  wallets : gmap string Wallet;
  transactions : list Transaction;
  users : list User;
  matchmakingQueue : list QueueEntry;
  gameTable : gmap string Game;
  gameParticipations : list Participation;
  nextId : nat
}.

Definition set_wallets (f : gmap string Wallet → gmap string Wallet) (db : Store) : Store :=
  mkStore (f (wallets db)) (transactions db) (users db) (matchmakingQueue db)
          (gameTable db) (gameParticipations db) (nextId db).
Definition set_transactions (f : list Transaction → list Transaction) (db : Store) : Store :=
  mkStore (wallets db) (f (transactions db)) (users db) (matchmakingQueue db)
          (gameTable db) (gameParticipations db) (nextId db).
Definition set_users (f : list User → list User) (db : Store) : Store :=
  mkStore (wallets db) (transactions db) (f (users db)) (matchmakingQueue db)
          (gameTable db) (gameParticipations db) (nextId db).
Definition set_matchmakingQueue (f : list QueueEntry → list QueueEntry) (db : Store) : Store :=
  mkStore (wallets db) (transactions db) (users db) (f (matchmakingQueue db))
          (gameTable db) (gameParticipations db) (nextId db).
Definition set_games (f : gmap string Game → gmap string Game) (db : Store) : Store :=
  mkStore (wallets db) (transactions db) (users db) (matchmakingQueue db)
          (f (gameTable db)) (gameParticipations db) (nextId db).
Definition set_gameParticipations (f : list Participation → list Participation) (db : Store) : Store :=
  mkStore (wallets db) (transactions db) (users db) (matchmakingQueue db)
          (gameTable db) (f (gameParticipations db)) (nextId db).
Definition bump_nextId (db : Store) : Store :=
  mkStore (wallets db) (transactions db) (users db) (matchmakingQueue db)
          (gameTable db) (gameParticipations db) (S (nextId db)).

(** [tx.transaction.create]: a new row, with a generated id. *)
Definition transaction_create (db : Store) (u type : string) (amount : Q)
    (status : string) (g : option string) : Store * Transaction :=
  let t := mkTransaction (nextId db) u type amount status g in
  (bump_nextId (set_transactions (λ l, l ++ [t]) db), t).

(** A row of the withdrawal requests. *)
Record WithdrawalRequest : Type := mkWithdrawalRequest {
  wrId : nat;
  wrUserId : string;
  wrAmount : Q;
  wrMethod : string;
  wrStatus : string;
  bankAccountNumber : option string;
  bankIfscCode : option string;
  bankAccountHolder : option string;
  bankFullName : option string;
  upiId : option string;
  upiFullName : option string;
  wrTransactionId : option string;
  wrAdminNotes : option string
}.

(** The store together with the payment tables: the withdrawal requests
    and, for the transaction rows that carry them, the [razorpayOrderId]
    column and the [withdrawalRequestId] of the [metadata] column, by row
    id. Row ids are primary keys. *)
Record PaymentStore : Type := mkPaymentStore {
  store : Store;
  razorpayOrderIdOf : gmap nat string;
  withdrawalRequestIdOf : gmap nat nat;
  withdrawalRequests : list WithdrawalRequest
}.

Definition set_store (f : Store → Store) (ps : PaymentStore) : PaymentStore :=
  mkPaymentStore (f (store ps)) (razorpayOrderIdOf ps) (withdrawalRequestIdOf ps)
    (withdrawalRequests ps).

(** [tx.transaction.update({ where: { id }, data: { status } })] *)
Definition set_txStatus (id : nat) (status : string) (l : list Transaction)
    : list Transaction :=
  map (λ t, if (txId t =? id)%nat
            then mkTransaction (txId t) (txUserId t) (txType t) (txAmount t) status (txGameId t)
            else t) l.

(** [s.toUpperCase()] on ASCII text. *)
Definition upperChar (c : ascii) : ascii :=
  let n := nat_of_ascii c in
  if (97 <=? n)%nat && (n <=? 122)%nat then ascii_of_nat (n - 32) else c.

Definition toUpperCase (s : string) : string :=
  string_of_list_ascii (map upperChar (list_ascii_of_string s)).

(** ** WalletService *)

Module WalletService.

Record t : Type := mk { ongoingDeductions : gset string }.

Definition getWallet (db : Store) (u : string) : Store * Wallet :=
  match wallets db !! u with
  | Some w => (db, w)
  | None =>
      let w := mkWallet 0 0 0 in
      (set_wallets (λ m, <[u := w]> m) db, w)
  end.

Definition getWalletBalance (db : Store) (u : string) : Store * Wallet :=
  getWallet db u.

(** The [where] clause of the duplicate checks of [deductGameEntry]. *)
Definition is_game_entry (u g : string) (t : Transaction) : bool :=
  string_eqb (txUserId t) u
  && bool_decide (txGameId t = Some g)
  && string_eqb (txType t) "GAME_ENTRY"
  && (string_eqb (txStatus t) "COMPLETED" || string_eqb (txStatus t) "PENDING").

Inductive DeductResult : Type :=
  | DeductOk (bal gameBal withdrawableBal : Q) (transactionId : nat)
  | DeductFail (message : string) (transactionId : option nat)
      (duplicateCount : option nat).

Definition deductionKey (u g : string) : string := (u ++ "_" ++ g)%string.

(** The body of the serializable transaction of [deductGameEntry]; [Throw]
    rolls the store back.  The balance is tested on the numbers that
    [parseFloat] reads and on their binary64 sum. *)
Definition deductGameEntry_tx (db : Store) (u : string) (numericAmount : Q)
    (g : string) : outcome (Store * Transaction * Wallet) :=
  let existingTxInTransaction := filter (λ t, is_game_entry u g t = true) (transactions db) in
  match existingTxInTransaction with
  | _ :: _ => Throw "Entry fee already deducted for game"
  | [] =>
    let '(db1, transaction) :=
      transaction_create db u "GAME_ENTRY" numericAmount "COMPLETED" (Some g) in
    match wallets db1 !! u with
    | None => Throw "Wallet not found"
    | Some currentWallet =>
        let gameBalanceAvailable := parseFloat (gameBalance currentWallet) in
        let withdrawableBalanceAvailable := parseFloat (withdrawableBalance currentWallet) in
        let currentTotalAvailable :=
          jsAdd gameBalanceAvailable withdrawableBalanceAvailable in
        if Qltb currentTotalAvailable (parseFloat numericAmount) then
          Throw "Insufficient balance in transaction"
        else
          (* the deductions, as the columns keep them *)
          let '(gameBalanceDeduction, withdrawableBalanceDeduction) :=
            if Qle_bool (parseFloat numericAmount) gameBalanceAvailable
            then (numericAmount, 0%Q)
            else (gameBalance currentWallet,
                  (numericAmount - gameBalance currentWallet)%Q) in
          let updatedWallet :=
            mkWallet (balance currentWallet - numericAmount)
                     (gameBalance currentWallet - gameBalanceDeduction)
                     (withdrawableBalance currentWallet - withdrawableBalanceDeduction) in
          Return (set_wallets (λ m, <[u := updatedWallet]> m) db1,
                  transaction, updatedWallet)
    end
  end.

Definition deductGameEntry (svc : t) (db : Store) (u : string) (amount : Q)
    (g : string) : t * Store * outcome DeductResult :=
  let numericAmount := amount in
  let key := deductionKey u g in
  if Qle_bool numericAmount 0 then
    (* thrown before the key is added; the outer catch still deletes it *)
    (mk (ongoingDeductions svc ∖ {[key]}), db, Throw "Invalid amount for game entry")
  else if bool_decide (key ∈ ongoingDeductions svc) then
    (svc, db,
     Return (DeductFail "Entry fee deduction already in progress for this game" None None))
  else
    (* add the key, run the inner block, and delete the key in [finally] *)
    let svc' := mk ((ongoingDeductions svc ∪ {[key]}) ∖ {[key]}) in
    let existingTransactions :=
      reverse (filter (λ t, is_game_entry u g t = true) (transactions db)) in
    match existingTransactions with
    | latestTransaction :: _ =>
        (svc', db,
         Return (DeductFail "Entry fee already deducted for this game"
                   (Some (txId latestTransaction))
                   (Some (length existingTransactions))))
    | [] =>
        let '(db1, wallet) := getWallet db u in
        let totalAvailable :=
          jsAdd (parseFloat (gameBalance wallet)) (parseFloat (withdrawableBalance wallet)) in
        if Qltb totalAvailable (parseFloat numericAmount) then
          (svc', db1, Return (DeductFail "Insufficient balance" None None))
        else
          match deductGameEntry_tx db1 u numericAmount g with
          | Return (db2, transaction, w) =>
              (svc', db2,
               Return (DeductOk (balance w) (gameBalance w) (withdrawableBalance w)
                         (txId transaction)))
          | Throw msg =>
              (* rolled back; the outer catch maps the message *)
              if string_eqb msg "Entry fee already deducted for game" then
                (svc', db1,
                 Return (DeductFail "Entry fee already deducted for this game" None None))
              else if string_eqb msg "Insufficient balance in transaction" then
                (svc', db1, Return (DeductFail "Insufficient balance" None None))
              else (svc', db1, Throw msg)
          end
    end.

Inductive CreditResult : Type :=
  | CreditOk (bal gameBal withdrawableBal : Q) (transactionId : nat).

(** [walletUpdate]: which columns a credit of [type] increments. *)
Definition creditUpdate (type : string) (numericAmount : Q) (w : Wallet) : Wallet :=
  let bal := (balance w + numericAmount)%Q in
  if string_eqb type "GAME_WINNING" then
    mkWallet bal (gameBalance w) (withdrawableBalance w + numericAmount)
  else if string_eqb type "REFERRAL_BONUS" || string_eqb type "REFERRAL_SIGNUP_BONUS" then
    mkWallet bal (gameBalance w + numericAmount) (withdrawableBalance w)
  else if string_eqb type "DEPOSIT" then
    mkWallet bal (gameBalance w + numericAmount) (withdrawableBalance w)
  else if string_eqb type "REFUND" then
    mkWallet bal (gameBalance w + numericAmount) (withdrawableBalance w)
  else
    mkWallet bal (gameBalance w) (withdrawableBalance w).

Definition creditWallet (db : Store) (u : string) (amount : Q) (type : string)
    (g : option string) : Store * outcome CreditResult :=
  let numericAmount := amount in
  if Qle_bool numericAmount 0 then (db, Throw "Invalid amount for credit")
  else
    let '(db1, wallet) := getWallet db u in
    let '(db2, transaction) :=
      transaction_create db1 u type numericAmount "COMPLETED" g in
    let updatedWallet := creditUpdate type numericAmount wallet in
    (set_wallets (λ m, <[u := updatedWallet]> m) db2,
     Return (CreditOk (balance updatedWallet) (gameBalance updatedWallet)
               (withdrawableBalance updatedWallet) (txId transaction))).

(** *** Deposits and withdrawals *)

Inductive DepositResult : Type :=
  | DepositOk (bal gameBal withdrawableBal : Q) (transactionId : nat)
  | DepositFail (message : string).

(** The [details] of a withdrawal. *)
Record WithdrawalDetails : Type := mkWithdrawalDetails {
  accountNumber : option string;
  ifscCode : option string;
  accountHolder : option string;
  fullName : option string;
  detailsUpiId : option string
}.

Inductive WithdrawalResult : Type :=
  | WithdrawalOk (withdrawalRequestId transactionId : nat)
  | WithdrawalFail (message : string).

(** Truthiness of an optional text field. *)
Definition present (s : option string) : bool :=
  match s with Some x => truthy x | None => false end.

(** A page of rows with its [pagination] record; [pages] is [None] when
    [Math.ceil(total / limit)] is not a number of pages ([limit] is 0). *)
Record Page (A : Type) : Type := mkPage {
  rows : list A;
  page : nat;
  limit : nat;
  total : nat;
  pages : option nat
}.
Arguments mkPage {A} rows page limit total pages.
Arguments rows {A} _.
Arguments pages {A} _.
Arguments total {A} _.

(** [findMany({ orderBy: { createdAt: 'desc' }, skip: (page - 1) * limit,
    take: limit })] with the count; a negative [skip] is refused by the
    store. *)
Definition paginate {A} (matching : list A) (page limit : nat) : option (Page A) :=
  if (page =? 0)%nat && (0 <? limit)%nat then None
  else
    Some (mkPage (take limit (drop ((page - 1) * limit) (reverse matching)))
            page limit (length matching)
            (if (limit =? 0)%nat then None
             else Some ((length matching + limit - 1) / limit)%nat)).

Definition getTransactionHistory (db : Store) (u : string) (page limit : nat)
    (type : option string) : outcome (Page Transaction) :=
  let whereClause (t : Transaction) : Prop :=
    txUserId t = u ∧ (present type = true → Some (txType t) = type) in
  match paginate (filter whereClause (transactions db)) page limit with
  | Some p => Return p
  | None => Throw "Failed to get transaction history"
  end.

Section Payments.
(** [crypto.createHmac('sha256', RAZORPAY_KEY_SECRET).update(text).digest('hex')] *)
Variable hmacSha256 : string → string.
(** How a template literal renders an amount. *)
Variable numberToString : Q → string.

(** [createTransaction]: [razorpayOrderId] is kept beside the row. *)
Definition createTransaction (ps : PaymentStore) (u type : string) (amount : Q)
    (status : string) (razorpayOrderId : option string) (g : option string)
    : PaymentStore * Transaction :=
  let '(db1, transaction) := transaction_create (store ps) u type amount status g in
  (mkPaymentStore db1
     (match razorpayOrderId with
      | Some o => <[txId transaction := o]> (razorpayOrderIdOf ps)
      | None => razorpayOrderIdOf ps
      end)
     (withdrawalRequestIdOf ps) (withdrawalRequests ps), transaction).

(** The [where] clause of the search for the pending deposit. *)
Definition is_pending_deposit (ps : PaymentStore) (u razorpayOrderId : string)
    (t : Transaction) : bool :=
  string_eqb (txUserId t) u
  && bool_decide (razorpayOrderIdOf ps !! txId t = Some razorpayOrderId)
  && string_eqb (txStatus t) "PENDING"
  && string_eqb (txType t) "DEPOSIT".

(** [razorpay] tells whether the gateway is configured ([this.razorpay]). *)
Definition processDeposit (razorpay : bool) (ps : PaymentStore) (u : string) (amount : Q)
    (razorpayOrderId razorpayPaymentId razorpaySignature : string)
    : PaymentStore * DepositResult :=
  match List.find (is_pending_deposit ps u razorpayOrderId) (transactions (store ps)) with
  | None => (ps, DepositFail "Transaction not found or already processed")
  | Some transaction =>
      let generatedSignature :=
        hmacSha256 (razorpayOrderId ++ "|" ++ razorpayPaymentId)%string in
      if razorpay && negb (string_eqb generatedSignature razorpaySignature) then
        (set_store (set_transactions (set_txStatus (txId transaction) "FAILED")) ps,
         DepositFail "Payment verification failed")
      else
        let db1 := set_transactions (set_txStatus (txId transaction) "COMPLETED") (store ps) in
        (* [tx.wallet.upsert] *)
        let '(db2, wallet) := getWallet db1 u in
        let updatedWallet :=
          mkWallet (balance wallet + amount) (gameBalance wallet + amount)
                   (withdrawableBalance wallet) in
        (set_store (λ _, set_wallets (λ m, <[u := updatedWallet]> m) db2) ps,
         DepositOk (balance updatedWallet) (gameBalance updatedWallet)
           (withdrawableBalance updatedWallet) (txId transaction))
  end.

Definition createWithdrawalRequest (ps : PaymentStore) (u : string) (amount : Q)
    (method : string) (details : WithdrawalDetails) : PaymentStore * WithdrawalResult :=
  let numericAmount := amount in
  if Qle_bool numericAmount 0 then (ps, WithdrawalFail "Invalid withdrawal amount")
  else if Qltb numericAmount 100 then
    (ps, WithdrawalFail "Minimum withdrawal amount is ₹100")
  else
    let '(db1, wallet) := getWallet (store ps) u in
    let ps1 := set_store (λ _, db1) ps in
    if Qltb (withdrawableBalance wallet) numericAmount then
      (ps1,
       WithdrawalFail
         ("Insufficient withdrawable balance. You can only withdraw winnings (₹"
          ++ numberToString (withdrawableBalance wallet)
          ++ " available). Referral bonuses and deposits can only be used for playing games.")%string)
    else
      let methodUpper := toUpperCase method in
      if negb (string_eqb methodUpper "BANK" || string_eqb methodUpper "UPI") then
        (ps1, WithdrawalFail "Invalid withdrawal method. Supported: BANK, UPI")
      else if string_eqb methodUpper "BANK"
              && negb (present (accountNumber details) && present (ifscCode details)
                       && present (accountHolder details) && present (fullName details)) then
        (ps1,
         WithdrawalFail
           "Complete bank details are required: Account Number, IFSC Code, Account Holder Name, Full Name")
      else if string_eqb methodUpper "UPI"
              && negb (present (detailsUpiId details) && present (fullName details)) then
        (ps1, WithdrawalFail "UPI ID and Full Name are required")
      else
        let bank := string_eqb methodUpper "BANK" in
        let withdrawalRequest :=
          mkWithdrawalRequest (nextId db1) u numericAmount methodUpper "PENDING"
            (if bank then accountNumber details else None)
            (if bank then ifscCode details else None)
            (if bank then accountHolder details else None)
            (if bank then fullName details else None)
            (if bank then None else detailsUpiId details)
            (if bank then None else fullName details)
            None None in
        let '(db2, transaction) :=
          transaction_create (bump_nextId db1) u "WITHDRAWAL" numericAmount "PENDING" None in
        match wallets db2 !! u with
        | None => (ps1, WithdrawalFail "Record to update not found")
        | Some w =>
            let updatedWallet :=
              mkWallet (balance w - numericAmount) (gameBalance w)
                       (withdrawableBalance w - numericAmount) in
            (mkPaymentStore (set_wallets (λ m, <[u := updatedWallet]> m) db2)
               (razorpayOrderIdOf ps)
               (<[txId transaction := wrId withdrawalRequest]> (withdrawalRequestIdOf ps))
               (withdrawalRequests ps ++ [withdrawalRequest]),
             WithdrawalOk (wrId withdrawalRequest) (txId transaction))
        end.

(** The [updateData] of [updateWithdrawalStatus] applied to a row. *)
Definition withdrawalUpdate (statusUpper : string) (adminNotes transactionId : option string)
    (r : WithdrawalRequest) : WithdrawalRequest :=
  mkWithdrawalRequest (wrId r) (wrUserId r) (wrAmount r) (wrMethod r) statusUpper
    (bankAccountNumber r) (bankIfscCode r) (bankAccountHolder r) (bankFullName r)
    (upiId r) (upiFullName r)
    (if string_eqb statusUpper "COMPLETED" then transactionId else wrTransactionId r)
    (if present adminNotes then adminNotes else wrAdminNotes r).

Definition updateWithdrawalStatus (ps : PaymentStore) (withdrawalRequestId : nat)
    (status : string) (adminNotes transactionId : option string) : outcome PaymentStore :=
  match List.find (λ r, (wrId r =? withdrawalRequestId)%nat) (withdrawalRequests ps) with
  | None => Throw "Withdrawal request not found"
  | Some withdrawalRequest =>
      let statusUpper := toUpperCase status in
      let requests :=
        map (λ r, if (wrId r =? withdrawalRequestId)%nat
                  then withdrawalUpdate statusUpper adminNotes transactionId r else r)
          (withdrawalRequests ps) in
      let db1 :=
        set_transactions
          (map (λ t,
             if string_eqb (txUserId t) (wrUserId withdrawalRequest)
                && string_eqb (txType t) "WITHDRAWAL"
                && bool_decide (withdrawalRequestIdOf ps !! txId t = Some withdrawalRequestId)
             then mkTransaction (txId t) (txUserId t) (txType t) (txAmount t) statusUpper
                    (txGameId t)
             else t))
          (store ps) in
      if string_eqb statusUpper "REJECTED" || string_eqb statusUpper "CANCELLED" then
        match wallets db1 !! wrUserId withdrawalRequest with
        | None => Throw "Record to update not found"
        | Some w =>
            let refunded :=
              mkWallet (balance w + wrAmount withdrawalRequest) (gameBalance w)
                       (withdrawableBalance w + wrAmount withdrawalRequest) in
            Return (mkPaymentStore
                      (set_wallets (λ m, <[wrUserId withdrawalRequest := refunded]> m) db1)
                      (razorpayOrderIdOf ps) (withdrawalRequestIdOf ps) requests)
        end
      else
        Return (mkPaymentStore db1 (razorpayOrderIdOf ps) (withdrawalRequestIdOf ps) requests)
  end.

End Payments.

End WalletService.

(** ** GameService *)

Module GameService.

(** A game row with its participants ([include: participants, user];
    [orderBy: position asc]). *)
Record GameWithParticipants : Type := mkGWP {
  game : Game;
  participants : list (Participation * option User)
}.

Definition position_le (p q : Participation) : Prop :=
  (partPosition p <= partPosition q)%nat.
#[global] Instance position_le_dec : RelDecision position_le.
Proof. intros p q. unfold position_le. apply _. Defined.

Definition findUser (db : Store) (u : string) : option User :=
  List.find (λ x, string_eqb (userId x) u) (users db).

Definition participantsOf (db : Store) (g : string) : list Participation :=
  merge_sort position_le
    (filter (λ p, partGameId p = g) (gameParticipations db)).

Definition getGameById (db : Store) (g : string) : option GameWithParticipants :=
  if negb (truthy g) || trim_is_empty g then None
  else
    match gameTable db !! g with
    | None => None
    | Some row =>
        Some (mkGWP row (map (λ p, (p, findUser db (partUserId p))) (participantsOf db g)))
    end.

(** [prisma.game.update]: throws when the row does not exist. *)
Definition updateGameState (db : Store) (g : string) (newGameData : list Card)
    (newCurrentTurn : nat) (newGameStatus : string) (winnerId : option string)
    : outcome Store :=
  match gameTable db !! g with
  | None => Throw "Record to update not found"
  | Some row =>
      let row' := mkGame (gameType row) (maxPlayers row) (entryFee row) (prizePool row)
                    newGameStatus newGameData newCurrentTurn winnerId in
      Return (set_games (λ m, <[g := row']> m) db)
  end.

(** *** initializeMemoryGameBoard *)

Definition CARD_SYMBOLS : list string :=
  ["🎮"; "🎯"; "🎲"; "🃏"; "🎪"; "🎨"; "🎭"; "💡"; "⚽"; "🏀"; "🏈"; "🏸"; "🏎️"; "🏓"; "🎾"].

(** [[cards[i], cards[j]] = [cards[j], cards[i]]]; both indices are inside
    the array, [Math.random] drawing from [0, 1). *)
Definition swapAt {A} (cards : list A) (i j : nat) : list A :=
  match cards !! i, cards !! j with
  | Some ci, Some cj => <[j := ci]> (<[i := cj]> cards)
  | _, _ => cards
  end.

(** The Fisher-Yates loop [for (let i = start; i > 0; i--)]; [random k] is
    the number [Math.random()] returns at its [k]-th call. *)
Fixpoint shuffleFrom (random : nat → Q) (i k : nat) (cards : list string) : list string :=
  match i with
  | O => cards
  | S i' =>
      let j := Z.to_nat (Qfloor (random k * inject_Z (Z.of_nat i + 1))) in
      shuffleFrom random i' (S k) (swapAt cards i j)
  end.

(** The cards of this board carry no [position]; the field is set to the
    index. *)
Definition initializeMemoryGameBoard (random : nat → Q) : list Card :=
  let selectedSymbols := take 15 CARD_SYMBOLS in
  let cards := selectedSymbols ++ selectedSymbols in
  let shuffled := shuffleFrom random (length cards - 1) 0 cards in
  imap (λ index symbol, mkCard index index symbol false false) shuffled.

(** *** processGameWinnings *)

(** The [where] clause of the duplicate check. *)
Definition is_winning_of (w gameId : string) (t : Transaction) : bool :=
  string_eqb (txUserId t) w
  && string_eqb (txType t) "GAME_WINNING"
  && bool_decide (txGameId t = Some gameId).

Definition processGameWinnings (db : Store) (gameId : string) : Store :=
  match getGameById db gameId with
  | None => db
  | Some game =>
      let row := GameService.game game in
      match winner row with
      | None => db
      | Some w =>
          if negb (string_eqb (gameStatus row) "FINISHED") || negb (truthy w) then db
          else
            match List.find (is_winning_of w gameId) (transactions db) with
            | Some existingTransaction => db
            | None =>
                let winnerAmount := prizePool row in
                (WalletService.creditWallet db w winnerAmount "GAME_WINNING" (Some gameId)).1
            end
      end
  end.

End GameService.

(** ** BotService *)

Module BotService.

Definition botNames : list string :=
  ["GameMaster"; "ProPlayer"; "MemoryKing"; "CardShark"; "BrainBox";
   "QuickThink"; "MindReader"; "FlashCard"; "MemoryAce"; "ThinkFast"].

(** [createBotUser]: [newId] is the id the store gives the new user and
    [pick] the index drawn by [Math.random] for the name. *)
Definition createBotUser (db : Store) (newId : string) (pick : nat) : Store * User :=
  let bot := mkUser newId (nth pick botNames "GameMaster") true in
  (set_wallets (λ m, <[newId := mkWallet 1000 1000 0]> m)
     (set_users (λ l, l ++ [bot]) db), bot).

Definition game_is_active (db : Store) (g : string) : bool :=
  match gameTable db !! g with
  | Some row => string_eqb (gameStatus row) "WAITING" || string_eqb (gameStatus row) "PLAYING"
  | None => false
  end.

(** The [where] clause of the search for an idle bot. *)
Definition bot_available (db : Store) (x : User) : bool :=
  isBot x
  && forallb (λ q, negb (string_eqb (qUserId q) (userId x))) (matchmakingQueue db)
  && forallb (λ p, negb (string_eqb (partUserId p) (userId x)
                          && game_is_active db (partGameId p)))
       (gameParticipations db).

Definition Qmax (a b : Q) : Q := if Qle_bool a b then b else a.

Definition getBotForMatchmaking (db : Store) (gameType : string) (entryFee : Q)
    (newId : string) (pick : nat) : Store * User :=
  let '(db1, bot) :=
    match List.find (bot_available db) (users db) with
    | Some b => (db, b)
    | None => createBotUser db newId pick
    end in
  let db2 :=
    match wallets db1 !! userId bot with
    | Some w =>
        if Qltb 0 entryFee && Qltb (gameBalance w) entryFee then
          let inc := Qmax 1000 (entryFee * 10) in
          set_wallets (λ m, <[userId bot :=
            mkWallet (balance w + inc) (gameBalance w + inc) (withdrawableBalance w)]> m) db1
        else db1
    | None => db1
    end in
  let q := mkQueueEntry (nextId db2) (userId bot) gameType 2 entryFee in
  (bump_nextId (set_matchmakingQueue (λ l, l ++ [q]) db2), bot).

End BotService.

(** ** MatchmakingService *)

Module MatchmakingService.

(** [botDeploymentTimers]: the armed [setTimeout] callbacks, by unique key,
    each with the arguments its callback passes to [deployBotIfNeeded]. *)
Record t : Type := mk {
  botDeploymentTimers : gmap string (string * nat * Q);
  isProcessingMatchmaking : bool
}.

Inductive JoinResult : Type :=
  | JoinOk (message : string) (queueId : nat).

Record CreatedGame : Type := mkCreated {
  createdId : string;
  createdGame : Game;
  createdParticipants : list Participation
}.

(** The [where] clause [{ gameType, maxPlayers, entryFee }]. *)
Definition same_config (gameType : string) (maxPlayers : nat) (entryFee : Q)
    (q : QueueEntry) : bool :=
  string_eqb (qGameType q) gameType
  && (qMaxPlayers q =? maxPlayers)%nat
  && Qeq_bool (qEntryFee q) entryFee.

Section TimerKeys.
(** How a template literal renders the entry fee. *)
Variable numberToString : Q → string.

Definition queueKey (gameType : string) (maxPlayers : nat) (entryFee : Q) : string :=
  (gameType ++ "_" ++ pretty maxPlayers ++ "_" ++ numberToString entryFee)%string.

(** [now] is [Date.now()]. *)
Definition startBotDeploymentTimer (svc : t) (gameType : string) (maxPlayers : nat)
    (entryFee : Q) (now : nat) : t :=
  let uniqueTimerKey := (queueKey gameType maxPlayers entryFee ++ "_" ++ pretty now)%string in
  mk (<[uniqueTimerKey := (gameType, maxPlayers, entryFee)]> (botDeploymentTimers svc))
     (isProcessingMatchmaking svc).

Definition clearBotDeploymentTimer (svc : t) (gameType : string) (maxPlayers : nat)
    (entryFee : Q) : t :=
  let key := queueKey gameType maxPlayers entryFee in
  mk (filter (λ kv, startsWith kv.1 key = false) (botDeploymentTimers svc))
     (isProcessingMatchmaking svc).

(** The balance check that opens [joinQueue]; free games skip it. *)
Definition sufficientBalance (db : Store) (u : string) (entryFee : Q) : Store * bool :=
  if Qltb 0 entryFee then
    let '(db1, walletBalance) := WalletService.getWalletBalance db u in
    let totalBalance :=
      jsAdd (parseFloat (gameBalance walletBalance))
        (parseFloat (withdrawableBalance walletBalance)) in
    (db1, negb (Qltb totalBalance (parseFloat entryFee)))
  else (db, true).

Definition joinQueue (svc : t) (db : Store) (u gameType : string) (maxPlayers : nat)
    (entryFee : Q) (now : nat) : t * Store * outcome JoinResult :=
  let '(db1, sufficient) := sufficientBalance db u entryFee in
  if negb sufficient then (svc, db1, Throw "Insufficient balance")
  else
    match List.find (λ q, string_eqb (qUserId q) u && same_config gameType maxPlayers entryFee q)
            (matchmakingQueue db1) with
    | Some existingQueue =>
        (svc, db1,
         Return (JoinOk "Already in matchmaking queue for this game" (qId existingQueue)))
    | None =>
        let otherQueues := filter (λ q, qUserId q = u) (matchmakingQueue db1) in
        let db2 :=
          match otherQueues with
          | [] => db1
          | _ :: _ => set_matchmakingQueue (filter (λ q, qUserId q ≠ u)) db1
          end in
        let queueEntry := mkQueueEntry (nextId db2) u gameType maxPlayers entryFee in
        let db3 := bump_nextId (set_matchmakingQueue (λ l, l ++ [queueEntry]) db2) in
        (startBotDeploymentTimer svc gameType maxPlayers entryFee now, db3,
         Return (JoinOk "Joined matchmaking queue" (qId queueEntry)))
    end.


(** [distinct: ['userId']]: the first row of every user. *)
Fixpoint distinctByUser (seen : list string) (l : list QueueEntry) : list QueueEntry :=
  match l with
  | [] => []
  | q :: r =>
      if bool_decide (qUserId q ∈ seen) then distinctByUser seen r
      else q :: distinctByUser (qUserId q :: seen) r
  end.

Definition colors : list string := ["red"; "blue"; "green"; "yellow"].

(** The loop of [createGame] over the chosen queue entries: entry-fee
    deduction and participation row of each. *)
Fixpoint processEntries (wsvc : WalletService.t) (db : Store) (g : string)
    (entryFee : Q) (i : nat) (processedUsers : list string) (l : list QueueEntry)
    : WalletService.t * Store * outcome unit :=
  match l with
  | [] => (wsvc, db, Return ())
  | queueEntry :: rest =>
      if bool_decide (qUserId queueEntry ∈ processedUsers) then
        processEntries wsvc db g entryFee (S i) processedUsers rest
      else
        let '(wsvc1, db1, deducted) :=
          if Qltb 0 entryFee then
            match WalletService.deductGameEntry wsvc db (qUserId queueEntry) entryFee g with
            | (w, d, Return (WalletService.DeductOk _ _ _ _)) => (w, d, true)
            | (w, d, _) => (w, d, false)
            end
          else (wsvc, db, true) in
        if negb deducted then (wsvc1, db1, Throw "Wallet deduction failed")
        else
          let participation :=
            mkParticipation (qUserId queueEntry) g i (nth (i mod 4) colors "red") 0 in
          processEntries wsvc1 (set_gameParticipations (λ l, l ++ [participation]) db1)
            g entryFee (S i) (qUserId queueEntry :: processedUsers) rest
  end.

(** [newGameId] is the id the store gives the new game row and
    [initialBoard] the board [initializeMemoryGameBoard] draws. A failed
    deduction aborts the outer transaction: its own tables are rolled back,
    while [deductGameEntry] has already committed through the global
    client. *)
Definition createGame (svc : t) (wsvc : WalletService.t) (db : Store)
    (gameType : string) (playersToMatch : nat) (entryFee : Q)
    (newGameId : string) (initialBoard : list Card)
    : t * WalletService.t * Store * outcome (option CreatedGame) :=
  let queueEntries :=
    take playersToMatch
      (distinctByUser []
         (filter (λ q, same_config gameType playersToMatch entryFee q = true)
            (matchmakingQueue db))) in
  if (length queueEntries <? playersToMatch)%nat then (svc, wsvc, db, Return None)
  else
    let totalEntryFees :=
      jsMul (parseFloat entryFee) (inject_Z (Z.of_nat playersToMatch)) in
    let prizePool := jsMul totalEntryFees (parseFloat (8 # 10)) in
    let initialGameData := if string_eqb gameType "MEMORY" then initialBoard else [] in
    let game := mkGame gameType playersToMatch entryFee (toCents prizePool) "WAITING"
                  initialGameData 0 None in
    let db1 := set_games (λ m, <[newGameId := game]> m) db in
    let queueIds := map qId queueEntries in
    let db2 := set_matchmakingQueue (filter (λ q, qId q ∉ queueIds)) db1 in
    match processEntries wsvc db2 newGameId entryFee 0 [] queueEntries with
    | (wsvc', db3, Return _) =>
        (clearBotDeploymentTimer svc gameType playersToMatch entryFee, wsvc', db3,
         Return (Some (mkCreated newGameId game
                         (filter (λ p, partGameId p = newGameId) (gameParticipations db3)))))
    | (wsvc', db3, Throw msg) =>
        (svc, wsvc',
         mkStore (wallets db3) (transactions db3) (users db) (matchmakingQueue db)
                 (gameTable db) (gameParticipations db) (nextId db3),
         Throw msg)
    end.

(** [deployBotIfNeeded]: the store after the check, and whether a matching
    pass was scheduled. *)
Definition deployBotIfNeeded (db : Store) (gameType : string) (maxPlayers : nat)
    (entryFee : Q) (newBotId : string) (pick : nat) : Store * bool :=
  let queueCount :=
    length (filter (λ q, same_config gameType maxPlayers entryFee q = true)
              (matchmakingQueue db)) in
  if (0 <? queueCount)%nat && (queueCount <? maxPlayers)%nat then
    let humanPlayersCount :=
      length (filter (λ q, same_config gameType maxPlayers entryFee q = true
                           ∧ (isBot <$> GameService.findUser db (qUserId q)) = Some false)
                (matchmakingQueue db)) in
    if (0 <? humanPlayersCount)%nat then
      let '(db1, botUser) :=
        BotService.getBotForMatchmaking db gameType entryFee newBotId pick in
      (db1, true)
    else (db, false)
  else (db, false).

(** The callback of an armed timer. A cleared timer has no callback. *)
Definition fireBotDeploymentTimer (svc : t) (db : Store) (uniqueTimerKey : string)
    (newBotId : string) (pick : nat) : t * Store * bool :=
  match botDeploymentTimers svc !! uniqueTimerKey with
  | None => (svc, db, false)
  | Some (gameType, maxPlayers, entryFee) =>
      let '(db1, scheduled) :=
        deployBotIfNeeded db gameType maxPlayers entryFee newBotId pick in
      (mk (delete uniqueTimerKey (botDeploymentTimers svc)) (isProcessingMatchmaking svc),
       db1, scheduled)
  end.

End TimerKeys.

(** *** getQueueStatus *)



End MatchmakingService.

(** ** MemoryGameService *)

Module MemoryGameService.

Record Player : Type := mkPlayer {
  playerId : string;
  playerName : string;
  playerPosition : nat;
  playerScore : Z
}.

(** An entry of [selectedCards]. *)
Record Selected : Type := mkSelected {
  selPosition : nat;
  selSymbol : string;
  selCardId : nat
}.

Record GameState : Type := mkGameState {
  board : list Card;
  players : list Player;
  currentTurnIndex : nat;
  currentTurnPlayerId : string;
  selectedCards : list Selected;
  scores : gmap string Z;
  lifelines : gmap string nat;
  missedTurns : gmap string nat;
  matchedPairs : nat;
  totalPairs : nat;
  status : string;
  processingCards : bool
}.

(** The service: the registry of live games, the games with an armed turn
    timer, and the games whose winnings were processed. *)
Record t : Type := mk {
  games : gmap string GameState;
  turnTimers : gset string;
  processedWinnings : gset string
}.

Definition set_game (svc : t) (g : string) (gs : GameState) : t :=
  mk (<[g := gs]> (games svc)) (turnTimers svc) (processedWinnings svc).
Definition delete_game (svc : t) (g : string) : t :=
  mk (delete g (games svc)) (turnTimers svc) (processedWinnings svc).
Definition startTurnTimer (svc : t) (g : string) : t :=
  match games svc !! g with
  | None => mk (games svc) (turnTimers svc ∖ {[g]}) (processedWinnings svc)
  | Some _ => mk (games svc) ((turnTimers svc ∖ {[g]}) ∪ {[g]}) (processedWinnings svc)
  end.
Definition clearTurnTimer (svc : t) (g : string) : t :=
  mk (games svc) (turnTimers svc ∖ {[g]}) (processedWinnings svc).
Definition set_processedWinnings (svc : t) (s : gset string) : t :=
  mk (games svc) (turnTimers svc) s.

(** *** createGameBoard *)

Definition symbols : list string :=
  ["🎮"; "🎯"; "🎲"; "🃏"; "🎪"; "🎨"; "🎭"; "💡"; "🏸"; "🏎️"; "🏀"; "⚽";
   "🏈"; "🏓"; "🎾"].

(** The pairs, before the shuffle. *)
Definition initialCards : list Card :=
  concat (imap (λ index symbol,
            [mkCard (index * 2) (index * 2) symbol false false;
             mkCard (index * 2 + 1) (index * 2 + 1) symbol false false]) symbols).

(** [b.charCodeAt(0)]; room ids are ASCII, one character per byte. *)
Definition charCodeAt0 (c : ascii) : Z := Z.of_nat (nat_of_ascii c).

(** [roomId ? roomId.split('').reduce((a, b) => a + b.charCodeAt(0), 0) : Date.now()] *)
Definition seedOf (roomId : string) (now : Z) : Z :=
  if truthy roomId
  then foldl (λ a b, (a + charCodeAt0 b)%Z) 0%Z (list_ascii_of_string roomId)
  else now.

(** One call of [seededRandom]: the new [seedValue] and the number returned. *)
Definition seededRandom (seedValue : Z) : Z * Q :=
  let seedValue' := Z.rem (seedValue * 16807) 2147483647 in
  (seedValue', (inject_Z seedValue' / inject_Z 2147483647)%Q).

(** [[cards[i], cards[j]] = [cards[j], cards[i]]]; both indices are inside
    the array whenever the shuffle calls it. *)
Definition swap (cards : list Card) (i j : nat) : list Card :=
  match cards !! i, cards !! j with
  | Some ci, Some cj => <[j := ci]> (<[i := cj]> cards)
  | _, _ => cards
  end.

(** [for (let i = start; i > 0; i--)] of one Fisher-Yates pass. *)
Fixpoint shufflePass (i : nat) (seedValue : Z) (cards : list Card) : Z * list Card :=
  match i with
  | O => (seedValue, cards)
  | S i' =>
      let '(seedValue', r) := seededRandom seedValue in
      let j := Z.to_nat (Qfloor (r * inject_Z (Z.of_nat i + 1))) in
      shufflePass i' seedValue' (swap cards i j)
  end.

Fixpoint shufflePasses (pass : nat) (seedValue : Z) (cards : list Card) : Z * list Card :=
  match pass with
  | O => (seedValue, cards)
  | S pass' =>
      let '(seedValue', cards') := shufflePass (length cards - 1) seedValue cards in
      shufflePasses pass' seedValue' cards'
  end.

Definition setPosition (index : nat) (card : Card) : Card :=
  mkCard (cardId card) index (symbol card) (isFlipped card) (isMatched card).

Definition symbolCount (sym : string) (cards : list Card) : nat :=
  length (filter (λ c, symbol c = sym) cards).

(** [now] is [Date.now()], which seeds the shuffle when [roomId] is falsy. *)
Definition createGameBoard (roomId : string) (now : Z) : outcome (list Card) :=
  let seed := seedOf roomId now in
  let '(_, shuffled) := shufflePasses 3 seed initialCards in
  let cards := imap setPosition shuffled in
  if forallb (λ c, (symbolCount (symbol c) cards =? 2)%nat) cards
  then Return cards
  else Throw "MemoryGame: Invalid card distribution! Each symbol must appear exactly twice.".

(** *** Field updates of a game state *)

Definition set_board (b : list Card) (gs : GameState) : GameState :=
  mkGameState b (players gs) (currentTurnIndex gs) (currentTurnPlayerId gs)
    (selectedCards gs) (scores gs) (lifelines gs) (missedTurns gs) (matchedPairs gs)
    (totalPairs gs) (status gs) (processingCards gs).
Definition set_players (ps : list Player) (gs : GameState) : GameState :=
  mkGameState (board gs) ps (currentTurnIndex gs) (currentTurnPlayerId gs)
    (selectedCards gs) (scores gs) (lifelines gs) (missedTurns gs) (matchedPairs gs)
    (totalPairs gs) (status gs) (processingCards gs).
Definition set_currentTurnIndex (i : nat) (gs : GameState) : GameState :=
  mkGameState (board gs) (players gs) i (currentTurnPlayerId gs)
    (selectedCards gs) (scores gs) (lifelines gs) (missedTurns gs) (matchedPairs gs)
    (totalPairs gs) (status gs) (processingCards gs).
Definition set_currentTurnPlayerId (u : string) (gs : GameState) : GameState :=
  mkGameState (board gs) (players gs) (currentTurnIndex gs) u
    (selectedCards gs) (scores gs) (lifelines gs) (missedTurns gs) (matchedPairs gs)
    (totalPairs gs) (status gs) (processingCards gs).
Definition set_selectedCards (l : list Selected) (gs : GameState) : GameState :=
  mkGameState (board gs) (players gs) (currentTurnIndex gs) (currentTurnPlayerId gs)
    l (scores gs) (lifelines gs) (missedTurns gs) (matchedPairs gs)
    (totalPairs gs) (status gs) (processingCards gs).
Definition set_tables (sc : gmap string Z) (lf mt : gmap string nat) (gs : GameState)
    : GameState :=
  mkGameState (board gs) (players gs) (currentTurnIndex gs) (currentTurnPlayerId gs)
    (selectedCards gs) sc lf mt (matchedPairs gs)
    (totalPairs gs) (status gs) (processingCards gs).
Definition set_matchedPairs (n : nat) (gs : GameState) : GameState :=
  mkGameState (board gs) (players gs) (currentTurnIndex gs) (currentTurnPlayerId gs)
    (selectedCards gs) (scores gs) (lifelines gs) (missedTurns gs) n
    (totalPairs gs) (status gs) (processingCards gs).
Definition set_processingCards (b : bool) (gs : GameState) : GameState :=
  mkGameState (board gs) (players gs) (currentTurnIndex gs) (currentTurnPlayerId gs)
    (selectedCards gs) (scores gs) (lifelines gs) (missedTurns gs) (matchedPairs gs)
    (totalPairs gs) (status gs) b.

Definition setFlipped (b : bool) (c : Card) : Card :=
  mkCard (cardId c) (position c) (symbol c) b (isMatched c).
Definition setMatched (b : bool) (c : Card) : Card :=
  mkCard (cardId c) (position c) (symbol c) (isFlipped c) b.

(** [players.find(p => p.id === u)] *)
Definition findPlayer (u : string) (ps : list Player) : option Player :=
  List.find (λ p, string_eqb (playerId p) u) ps.

(** [players.filter(p => p.id !== u)] together with the three [delete]s. *)
Definition removePlayer (u : string) (gs : GameState) : GameState :=
  set_tables (delete u (scores gs)) (delete u (lifelines gs)) (delete u (missedTurns gs))
    (set_players (filter (λ p, playerId p ≠ u) (players gs)) gs).

(** *** safeProcessWinnings *)

Record WinningsResult : Type := mkWinnings {
  success : bool;
  resultReason : string;
  amount : option Q
}.

(** The refund loop; a throwing credit leaves the earlier ones committed. *)
Fixpoint refundAll (db : Store) (fee : Q) (g : string)
    (ps : list (Participation * option User)) : Store * outcome unit :=
  match ps with
  | [] => (db, Return ())
  | participant :: rest =>
      match WalletService.creditWallet db (partUserId participant.1) fee "REFUND" (Some g) with
      | (db1, Return _) => refundAll db1 fee g rest
      | (db1, Throw msg) => (db1, Throw msg)
      end
  end.

Definition is_completed_winning (g : string) (t : Transaction) : bool :=
  bool_decide (txGameId t = Some g)
  && string_eqb (txType t) "GAME_WINNING"
  && string_eqb (txStatus t) "COMPLETED".

Definition winner_reason (reason : string) : bool :=
  string_eqb reason "game_completed" || string_eqb reason "opponent_quit"
  || string_eqb reason "opponent_eliminated".

Definition safeProcessWinnings (svc : t) (db : Store) (gameId : string)
    (winnerId : option string) (reason : string) : t * Store * WinningsResult :=
  if bool_decide (gameId ∈ processedWinnings svc) then
    (svc, db, mkWinnings false "already_processed" None)
  else
    let svc1 := set_processedWinnings svc (processedWinnings svc ∪ {[gameId]}) in
    let unmark := set_processedWinnings svc1 (processedWinnings svc1 ∖ {[gameId]}) in
    match GameService.getGameById db gameId with
    | None => (unmark, db, mkWinnings false "game_not_found" None)
    | Some game =>
        match List.find (is_completed_winning gameId) (transactions db) with
        | Some existingWinningTransaction =>
            (svc1, db, mkWinnings false "already_processed_in_db" None)
        | None =>
            let row := GameService.game game in
            if string_eqb reason "network_issue" || string_eqb reason "server_error" then
              match refundAll db (entryFee row) gameId (GameService.participants game) with
              | (db1, Return _) => (svc1, db1, mkWinnings true "refunded_all_players" None)
              | (db1, Throw _) => (unmark, db1, mkWinnings false "processing_error" None)
              end
            else
              match winnerId with
              | Some w =>
                  if truthy w && winner_reason reason then
                    match WalletService.creditWallet db w (prizePool row) "GAME_WINNING"
                            (Some gameId) with
                    | (db1, Return _) =>
                        (svc1, db1, mkWinnings true "winner_credited" (Some (prizePool row)))
                    | (db1, Throw _) =>
                        (unmark, db1, mkWinnings false "processing_error" None)
                    end
                  else (unmark, db, mkWinnings false "invalid_winner_or_reason" None)
              | None => (unmark, db, mkWinnings false "invalid_winner_or_reason" None)
              end
        end
    end.

(** *** endGame *)

Record LeaderboardRow : Type := mkRow {
  rowId : string;
  rowName : string;
  rowScore : Z;
  rowLifelines : nat
}.

(** [sort((a, b) => b.score - a.score)], which is stable. *)
Fixpoint insertByScore (x : LeaderboardRow) (l : list LeaderboardRow) : list LeaderboardRow :=
  match l with
  | [] => [x]
  | y :: r => if (rowScore y <=? rowScore x)%Z then x :: l else y :: insertByScore x r
  end.

Definition leaderboardOf (gs : GameState) : list LeaderboardRow :=
  foldr insertByScore []
    (map (λ player, mkRow (playerId player) (playerName player)
                      (default 0%Z (scores gs !! playerId player))
                      (default 0%nat (lifelines gs !! playerId player)))
       (players gs)).

Definition winnerOf (gs : GameState) (endReason : string) : option string :=
  if string_eqb endReason "opponent_eliminated" || string_eqb endReason "opponent_quit" then
    playerId <$> head (players gs)
  else if string_eqb endReason "game_completed" then
    rowId <$> head (leaderboardOf gs)
  else None.

Definition endGame (svc : t) (db : Store) (gameId endReason : string) : t * Store :=
  match games svc !! gameId with
  | None => (svc, db)
  | Some gameState =>
      let svc1 := clearTurnTimer svc gameId in
      let winnerId := winnerOf gameState endReason in
      match GameService.updateGameState db gameId (board gameState)
              (currentTurnIndex gameState) "FINISHED" winnerId with
      | Throw _ => (svc1, db)
      | Return db1 =>
          let '(svc2, db2) :=
            if string_eqb endReason "network_issue" then
              let '(s, d, _) := safeProcessWinnings svc1 db1 gameId None "network_issue" in
              (s, d)
            else
              match winnerId with
              | Some w =>
                  if truthy w then
                    let '(s, d, _) := safeProcessWinnings svc1 db1 gameId (Some w) endReason in
                    (s, d)
                  else (svc1, db1)
              | None => (svc1, db1)
              end in
          (delete_game svc2 gameId, db2)
      end
  end.

(** *** startGame *)

Definition playerOfParticipant (index : nat) (p : Participation * option User) : Player :=
  let name :=
    match p.2 with
    | Some user => if truthy (userName user) then userName user
                   else ("Player " ++ pretty (index + 1)%nat)%string
    | None => ("Player " ++ pretty (index + 1)%nat)%string
    end in
  mkPlayer (partUserId p.1) name index 0.

(** The turn timer is armed by a later timeout callback ([startTurnTimer]). *)
Definition startGame (svc : t) (db : Store) (roomId : string) (now : Z) : t * Store :=
  match GameService.getGameById db roomId with
  | None => (svc, db)
  | Some game =>
      if (length (GameService.participants game) <? 2)%nat then (svc, db)
      else
        match createGameBoard roomId now with
        | Throw _ => (svc, db)
        | Return initialBoard =>
            let players := imap playerOfParticipant (GameService.participants game) in
            match players with
            | [] => (svc, db)
            | first :: _ =>
                let gameState :=
                  mkGameState initialBoard players 0 (playerId first) []
                    (foldl (λ m player, <[playerId player := 0%Z]> m) ∅ players)
                    (foldl (λ m player, <[playerId player := 3%nat]> m) ∅ players)
                    (foldl (λ m player, <[playerId player := 0%nat]> m) ∅ players)
                    0 15 "playing" false in
                let svc1 := set_game svc roomId gameState in
                match GameService.updateGameState db roomId initialBoard 0 "PLAYING" None with
                | Return db1 => (svc1, db1)
                | Throw _ => (svc1, db)
                end
            end
        end
  end.

(** *** selectCard *)

(** The payload of a [SELECT_MEMORY_CARD] event; [dataPosition] is
    [parseInt(data.position)], [None] standing for [NaN]. *)
Record CardData : Type := mkCardData {
  dataGameId : option string;
  dataRoomId : option string;
  dataPlayerId : option string;
  dataPosition : option Z
}.

(** [a || b] on optional strings; [None] when the result is falsy. *)
Definition jsOr (a b : option string) : option string :=
  match a with
  | Some s => if truthy s then Some s else
      match b with Some s' => if truthy s' then Some s' else None | None => None end
  | None => match b with Some s' => if truthy s' then Some s' else None | None => None end
  end.

Inductive SelectResult : Type :=
  | SelectError (message : string)
  | CardOpened (pos : nat) (sym : string) (selectedCount : nat)
      (processMatchScheduled : bool).

Definition selectCard (svc : t) (socketUser : option string) (data : CardData)
    : t * SelectResult :=
  match jsOr (dataGameId data) (dataRoomId data) with
  | None => (svc, SelectError "Valid game ID required.")
  | Some gameId =>
  match jsOr (dataPlayerId data) socketUser with
  | None => (svc, SelectError "Valid player ID required.")
  | Some actingPlayerId =>
  match dataPosition data with
  | None => (svc, SelectError "Valid card position required.")
  | Some z =>
  if (z <? 0)%Z then (svc, SelectError "Valid card position required.")
  else
    let pos := Z.to_nat z in
    match games svc !! gameId with
    | None => (svc, SelectError "Game not found.")
    | Some gameState =>
        if negb (string_eqb (status gameState) "playing") then
          (svc, SelectError "Game is not active.")
        else if negb (string_eqb (currentTurnPlayerId gameState) actingPlayerId) then
          (svc, SelectError "Not your turn.")
        else if processingCards gameState then
          (svc, SelectError "Please wait, cards are being processed.")
        else
          match board gameState !! pos with
          | None => (svc, SelectError "Invalid card position.")
          | Some card =>
              if isFlipped card || isMatched card then
                (svc, SelectError "Card already revealed or matched.")
              else if (2 <=? length (selectedCards gameState))%nat then
                (svc, SelectError "Maximum 2 cards per turn.")
              else if existsb (λ selected, (selPosition selected =? pos)%nat)
                        (selectedCards gameState) then
                (svc, SelectError "Card already selected this turn.")
              else
                let gs1 := set_processingCards true gameState in
                let gs2 := set_board (<[pos := setFlipped true card]> (board gs1)) gs1 in
                let gs3 :=
                  set_selectedCards
                    (selectedCards gs2 ++ [mkSelected pos (symbol card) (cardId card)]) gs2 in
                if (length (selectedCards gs3) =? 2)%nat then
                  (clearTurnTimer (set_game svc gameId gs3) gameId,
                   CardOpened pos (symbol card) (length (selectedCards gs3)) true)
                else
                  (set_game svc gameId (set_processingCards false gs3),
                   CardOpened pos (symbol card) (length (selectedCards gs3)) false)
          end
    end
  end end end.

(** *** nextTurn *)

(** [players[i].id] throws a [TypeError] when the list is empty. *)
Definition nextTurnState (gs : GameState) : outcome GameState :=
  let i := ((currentTurnIndex gs + 1) mod length (players gs))%nat in
  match players gs !! i with
  | None => Throw "TypeError"
  | Some currentPlayer =>
      Return (set_processingCards false
                (set_selectedCards []
                   (set_currentTurnPlayerId (playerId currentPlayer)
                      (set_currentTurnIndex i gs))))
  end.

Definition nextTurn (svc : t) (gameId : string) : t * outcome unit :=
  match games svc !! gameId with
  | None => (svc, Return ())
  | Some gameState =>
      match nextTurnState gameState with
      | Throw msg => (svc, Throw msg)
      | Return gs' => (startTurnTimer (set_game svc gameId gs') gameId, Return ())
      end
  end.

(** *** processMatch *)

(** The [catch] block of [processMatch]. *)
Definition processMatchCaught (gs : GameState) : GameState :=
  set_processingCards false (set_selectedCards [] gs).

(** [currentPlayer.score += 10] on the player object found by id. *)
Fixpoint bumpScore (u : string) (ps : list Player) : list Player :=
  match ps with
  | [] => []
  | p :: r =>
      if string_eqb (playerId p) u
      then mkPlayer (playerId p) (playerName p) (playerPosition p) (playerScore p + 10) :: r
      else p :: bumpScore u r
  end.

(** [gameService.updatePlayerScore] *)
Definition updatePlayerScore (db : Store) (g u : string) (newScore : Z) : Store :=
  set_gameParticipations
    (map (λ p, if string_eqb (partGameId p) g && string_eqb (partUserId p) u
               then mkParticipation (partUserId p) (partGameId p) (partPosition p)
                      (partColor p) newScore
               else p)) db.

(** The non-blocking [updateGameState(..., 'PLAYING', null)]; a failure is
    logged and dropped. *)
Definition persistPlaying (db : Store) (g : string) (gs : GameState) : Store :=
  match GameService.updateGameState db g (board gs) (currentTurnIndex gs) "PLAYING" None with
  | Return db1 => db1
  | Throw _ => db
  end.

(** [scores[u] += 10]; the table has an entry for every seated player. *)
Definition addScore (u : string) (sc : gmap string Z) : gmap string Z :=
  alter (Z.add 10) u sc.

Definition processMatch (svc : t) (db : Store) (gameId : string) : t * Store :=
  match games svc !! gameId with
  | None => (svc, db)
  | Some gameState =>
      match selectedCards gameState with
      | [card1; card2] =>
          let currentPlayer := findPlayer (currentTurnPlayerId gameState) (players gameState) in
          if string_eqb (selSymbol card1) (selSymbol card2) then
            match board gameState !! selPosition card1 with
            | None => (set_game svc gameId (processMatchCaught gameState), db)
            | Some c1 =>
                let gs1 := set_board (<[selPosition card1 := setMatched true c1]>
                                        (board gameState)) gameState in
                match board gs1 !! selPosition card2 with
                | None => (set_game svc gameId (processMatchCaught gs1), db)
                | Some c2 =>
                    let gs2 := set_board (<[selPosition card2 := setMatched true c2]>
                                            (board gs1)) gs1 in
                    let gs3 := set_matchedPairs (S (matchedPairs gs2)) gs2 in
                    let gs4 := set_tables (addScore (currentTurnPlayerId gs3) (scores gs3))
                                 (lifelines gs3) (missedTurns gs3) gs3 in
                    match currentPlayer with
                    | None => (set_game svc gameId (processMatchCaught gs4), db)
                    | Some cp =>
                        let gs5 := set_players
                                     (bumpScore (currentTurnPlayerId gs4) (players gs4)) gs4 in
                        let db1 := updatePlayerScore db gameId (currentTurnPlayerId gs5)
                                     (playerScore cp + 10) in
                        if (totalPairs gs5 <=? matchedPairs gs5)%nat then
                          endGame (set_game svc gameId gs5) db1 gameId "game_completed"
                        else
                          let gs6 := processMatchCaught gs5 in
                          (startTurnTimer (set_game svc gameId gs6) gameId,
                           persistPlaying db1 gameId gs6)
                    end
                end
            end
          else
            match board gameState !! selPosition card1 with
            | None => (set_game svc gameId (processMatchCaught gameState), db)
            | Some c1 =>
                let gs1 := set_board (<[selPosition card1 := setFlipped false c1]>
                                        (board gameState)) gameState in
                match board gs1 !! selPosition card2 with
                | None => (set_game svc gameId (processMatchCaught gs1), db)
                | Some c2 =>
                    let gs2 := set_board (<[selPosition card2 := setFlipped false c2]>
                                            (board gs1)) gs1 in
                    match nextTurnState gs2 with
                    | Throw _ => (set_game svc gameId (processMatchCaught gs2), db)
                    | Return gs3 =>
                        (startTurnTimer (set_game svc gameId gs3) gameId,
                         persistPlaying db gameId gs3)
                    end
                end
            end
      | _ => (svc, db)
      end
  end.

(** *** handleTurnTimeout *)

(** The [forEach] that flips the selected cards back; [false] when a
    position is outside the board (a [TypeError]). *)
Fixpoint flipBack (sel : list Selected) (b : list Card) : list Card * bool :=
  match sel with
  | [] => (b, true)
  | selected :: rest =>
      match b !! selPosition selected with
      | None => (b, false)
      | Some c => flipBack rest (<[selPosition selected := setFlipped false c]> b)
      end
  end.

Inductive LifelineStep : Type :=
  | LastStanding (gs : GameState)
  | Continue (gs : GameState).

(** The lifeline block of [handleTurnTimeout]. *)
Definition deductLifeline (gameState : GameState) (currentPlayer : option Player)
    : LifelineStep :=
  match currentPlayer with
  | None => Continue gameState
  | Some cp =>
      match lifelines gameState !! playerId cp with
      | Some (S remaining) =>
          let gs1 :=
            set_tables (scores gameState)
              (<[playerId cp := remaining]> (lifelines gameState))
              (<[playerId cp := (default 0 (missedTurns gameState !! playerId cp) + 1)%nat]>
                 (missedTurns gameState)) gameState in
          if (remaining =? 0)%nat then
            let gs2 := removePlayer (playerId cp) gs1 in
            if (length (players gs2) =? 1)%nat then LastStanding gs2
            else if (length (players gs2) <=? currentTurnIndex gs2)%nat
                 then Continue (set_currentTurnIndex 0 gs2)
                 else Continue gs2
          else Continue gs1
      | _ => Continue gameState
      end
  end.

(** The rest of [handleTurnTimeout] when the game goes on: the selected
    cards are flipped back and the turn moves. *)
Definition resumeAfterTimeout (svc : t) (db : Store) (gameId : string)
    (gs1 : GameState) (currentPlayer : option Player) : t * Store * outcome unit :=
  match flipBack (selectedCards gs1) (board gs1) with
  | (b, false) => (set_game svc gameId (set_board b gs1), db, Throw "TypeError")
  | (b, true) =>
      let gs2 := set_board b gs1 in
      let stillSeated :=
        match currentPlayer with
        | Some cp => findPlayer (playerId cp) (players gs2)
        | None => None
        end in
      match stillSeated with
      | Some _ =>
          match nextTurn (set_game svc gameId gs2) gameId with
          | (svc1, r) => (svc1, db, r)
          end
      | None =>
          match players gs2 !! currentTurnIndex gs2 with
          | None => (set_game svc gameId gs2, db, Throw "TypeError")
          | Some p =>
              (startTurnTimer
                 (set_game svc gameId (set_currentTurnPlayerId (playerId p) gs2))
                 gameId, db, Return ())
          end
      end
  end.

Definition handleTurnTimeout (svc : t) (db : Store) (gameId : string)
    : t * Store * outcome unit :=
  match games svc !! gameId with
  | None => (svc, db, Return ())
  | Some gameState =>
      let currentPlayer := findPlayer (currentTurnPlayerId gameState) (players gameState) in
      match deductLifeline gameState currentPlayer with
      | LastStanding gs =>
          let '(svc1, db1) := endGame (set_game svc gameId gs) db gameId "opponent_eliminated" in
          (svc1, db1, Return ())
      | Continue gs1 => resumeAfterTimeout svc db gameId gs1 currentPlayer
      end
  end.

(** *** handlePlayerExit *)

Definition handlePlayerExit (svc : t) (db : Store) (roomId leaving reason : string)
    : t * Store :=
  match games svc !! roomId with
  | None => (svc, db)
  | Some gameState =>
      if negb (string_eqb (status gameState) "playing") then (svc, db)
      else
        match findPlayer leaving (players gameState) with
        | None => (svc, db)
        | Some leavingPlayer =>
            let svc1 := clearTurnTimer svc roomId in
            let cleanup (r : t * Store) (gs : GameState) : t * Store :=
              match players gs with
              | [] => (delete_game r.1 roomId, r.2)
              | _ :: _ => r
              end in
            if (length (players gameState) =? 2)%nat then
              if string_eqb reason "disconnected" || string_eqb reason "network_issue" then
                cleanup (endGame svc1 db roomId "network_issue") gameState
              else
                let gs1 := removePlayer leaving gameState in
                cleanup (endGame (set_game svc1 roomId gs1) db roomId "opponent_quit") gs1
            else
              let gs1 := removePlayer leaving gameState in
              let svc2 := set_game svc1 roomId gs1 in
              let turnMoved : option (t * GameState) :=
                if string_eqb (currentTurnPlayerId gs1) leaving then
                  (* [findIndex] runs on the list the player was just removed from *)
                  let gs2 :=
                    match list_find (λ p, playerId p = leaving) (players gs1) with
                    | Some (leavingPlayerIndex, _) =>
                        if (leavingPlayerIndex <=? currentTurnIndex gs1)%nat
                        then set_currentTurnIndex (currentTurnIndex gs1 - 1) gs1
                        else gs1
                    | None => gs1
                    end in
                  match nextTurnState gs2 with
                  | Throw _ => None
                  | Return gs3 =>
                      Some (startTurnTimer (set_game svc2 roomId gs3) roomId, gs3)
                  end
                else Some (svc2, gs1) in
              match turnMoved with
              | None => (svc2, db)
              | Some (svc3, gs3) =>
                  if (length (players gs3) =? 1)%nat then
                    cleanup (endGame svc3 db roomId "opponent_quit") gs3
                  else cleanup (svc3, db) gs3
              end
        end
  end.

(** *** joinRoom *)

(** A card as [MEMORY_CURRENT_STATE] shows it. *)
Record CardView : Type := mkCardView {
  viewId : nat;
  viewFlipped : bool;
  viewMatched : bool;
  viewSymbol : option string
}.

Record CurrentState : Type := mkCurrentState {
  stateBoard : list CardView;
  statePlayers : list Player;
  stateCurrentPlayerId : option string;
  stateScores : gmap string Z;
  stateLifelines : gmap string nat;
  stateMatchedPairs : nat;
  stateStatus : string
}.

Inductive JoinRoomResult : Type :=
  | JoinRoomError (message : string)
  | JoinRoomState (state : CurrentState).

Definition cardView (card : Card) : CardView :=
  mkCardView (cardId card) (isFlipped card) (isMatched card)
    (if isFlipped card || isMatched card then Some (symbol card) else None).

(** [players[gameFromDb.currentTurn || 0]?.id]: undefined when the turn
    pointer is outside the list. *)
Definition turnPlayerOf (gameFromDb : GameService.GameWithParticipants) : option string :=
  playerId <$>
    imap playerOfParticipant (GameService.participants gameFromDb)
      !! currentTurn (GameService.game gameFromDb).

(** The state [joinRoom] rebuilds from the store when the registry has none.
    The registry keeps an undefined [currentTurnPlayerId] as the empty
    string; [joinRoom] itself reads the id through [turnPlayerOf]. *)
Definition stateFromDb (gameFromDb : GameService.GameWithParticipants) : GameState :=
  let players := imap playerOfParticipant (GameService.participants gameFromDb) in
  let row := GameService.game gameFromDb in
  mkGameState (gameData row) players (currentTurn row)
    (default EmptyString (turnPlayerOf gameFromDb)) []
    (foldl (λ m player, <[playerId player := 0%Z]> m) ∅ players)
    (foldl (λ m player, <[playerId player := 3%nat]> m) ∅ players)
    (foldl (λ m player, <[playerId player := 0%nat]> m) ∅ players)
    0 15 (gameStatus row) false.

(** [joiningPlayerId] is the [playerId] of the payload, [None] when the
    payload has none. *)
Definition joinRoom (svc : t) (db : Store) (roomId : string)
    (joiningPlayerId : option string) : t * JoinRoomResult :=
  let found : option (t * GameState * option string) :=
    match games svc !! roomId with
    | Some gameState => Some (svc, gameState, Some (currentTurnPlayerId gameState))
    | None =>
        match GameService.getGameById db roomId with
        | None => None
        | Some gameFromDb =>
            let gameState := stateFromDb gameFromDb in
            Some (set_game svc roomId gameState, gameState, turnPlayerOf gameFromDb)
        end
    end in
  match found with
  | None => (svc, JoinRoomError "Game not found.")
  | Some (svc1, gameState, turnPlayerId) =>
      let state :=
        mkCurrentState (map cardView (board gameState)) (players gameState)
          turnPlayerId (scores gameState) (lifelines gameState)
          (matchedPairs gameState) (status gameState) in
      let svc2 :=
        if bool_decide (turnPlayerId = joiningPlayerId)
           && string_eqb (status gameState) "playing"
        then
          if (length (selectedCards gameState) =? 0)%nat && negb (processingCards gameState)
          then startTurnTimer svc1 roomId
          else svc1
        else svc1 in
      (svc2, JoinRoomState state)
  end.

(** *** handlePlayerLeave *)


End MemoryGameService.

(** ** SocketManager *)

Module SocketManager.

(** The four registries: the sockets of a user, the user of a socket, the
    users of a game room and the game rooms of a user. *)
Record t : Type := mk {
  userSockets : gmap string (gset string);
  socketUsers : gmap string string;
  gameRooms : gmap string (gset string);
  userGames : gmap string (gset string)
}.

(** [if (!m.has(k)) m.set(k, new Set()); m.get(k).add(x)] *)
Definition addMember (k x : string) (m : gmap string (gset string))
    : gmap string (gset string) :=
  <[k := default ∅ (m !! k) ∪ {[x]}]> m.

(** [if (m.has(k)) { m.get(k).delete(x); if (m.get(k).size === 0) m.delete(k) }] *)
Definition dropMember (k x : string) (m : gmap string (gset string))
    : gmap string (gset string) :=
  match m !! k with
  | None => m
  | Some s =>
      if (size (s ∖ {[x]}) =? 0)%nat then delete k m else <[k := s ∖ {[x]}]> m
  end.

Definition addConnection (sm : t) (socketId userId : string) : t * bool :=
  (mk (addMember userId socketId (userSockets sm))
      (<[socketId := userId]> (socketUsers sm))
      (gameRooms sm) (userGames sm), true).

Definition addUserToGame (sm : t) (userId gameId : string) : t * bool :=
  (mk (userSockets sm) (socketUsers sm)
      (addMember gameId userId (gameRooms sm))
      (addMember userId gameId (userGames sm)), true).

Definition removeUserFromGame (sm : t) (userId gameId : string) : t * bool :=
  (mk (userSockets sm) (socketUsers sm)
      (dropMember gameId userId (gameRooms sm))
      (dropMember userId gameId (userGames sm)), true).

(** The loop visits every game of the user's set; each step only touches
    the room of the game it visits and that game in the user's set. *)
Definition removeUserFromAllGames (sm : t) (userId : string) : t * bool :=
  match userGames sm !! userId with
  | None => (sm, true)
  | Some userGameIds =>
      (foldl (λ s gameId, (removeUserFromGame s userId gameId).1) sm
         (elements userGameIds), true)
  end.

Definition removeConnection (sm : t) (socketId : string) : t * bool :=
  match socketUsers sm !! socketId with
  | None => (sm, false)
  | Some userId =>
      if negb (truthy userId) then (sm, false)
      else
        let sm1 := mk (userSockets sm) (delete socketId (socketUsers sm))
                      (gameRooms sm) (userGames sm) in
        match userSockets sm1 !! userId with
        | None => (sm1, true)
        | Some s =>
            if (size (s ∖ {[socketId]}) =? 0)%nat then
              ((removeUserFromAllGames
                  (mk (delete userId (userSockets sm1)) (socketUsers sm1)
                      (gameRooms sm1) (userGames sm1)) userId).1, true)
            else
              (mk (<[userId := s ∖ {[socketId]}]> (userSockets sm1)) (socketUsers sm1)
                  (gameRooms sm1) (userGames sm1), true)
        end
  end.

Definition getUserSockets (sm : t) (userId : string) : gset string :=
  default ∅ (userSockets sm !! userId).

Definition getSocketUser (sm : t) (socketId : string) : option string :=
  socketUsers sm !! socketId.

Definition isUserOnline (sm : t) (userId : string) : bool :=
  match userSockets sm !! userId with
  | Some s => (0 <? size s)%nat
  | None => false
  end.

Definition getGameUsers (sm : t) (gameId : string) : gset string :=
  default ∅ (gameRooms sm !! gameId).

Definition getUserGames (sm : t) (userId : string) : gset string :=
  default ∅ (userGames sm !! userId).

End SocketManager.

(** ** The socket server (server.js) *)

Module Server.

(** An entry of [socketRateLimits]. *)
Record RateLimit : Type := mkRateLimit {
  count : nat;
  resetTime : nat
}.

(** [now] is [Date.now()]. *)
Definition checkRateLimit (socketRateLimits : gmap string RateLimit)
    (userId eventType : string) (maxRequests windowMs now : nat)
    : gmap string RateLimit * bool :=
  let key := (userId ++ "_" ++ eventType)%string in
  match socketRateLimits !! key with
  | None => (<[key := mkRateLimit 1 (now + windowMs)]> socketRateLimits, true)
  | Some limit =>
      if (resetTime limit <? now)%nat then
        (<[key := mkRateLimit 1 (now + windowMs)]> socketRateLimits, true)
      else if (maxRequests <=? count limit)%nat then (socketRateLimits, false)
      else
        (<[key := mkRateLimit (S (count limit)) (resetTime limit)]> socketRateLimits, true)
  end.

(** The callback of the clean-up interval: expired entries are deleted. *)
Definition cleanupRateLimits (socketRateLimits : gmap string RateLimit) (now : nat)
    : gmap string RateLimit :=
  filter (λ kv, ¬ (resetTime kv.2 < now)%nat) socketRateLimits.

End Server.

(** ** Vocabulary of the specification *)

(** The balances [getWalletBalance] reports for a user. *)
Definition walletOf (db : Store) (u : string) : Wallet :=
  (WalletService.getWallet db u).2.

(** The balance test of [deductGameEntry] and of [joinQueue]: the sum of
    the two balances, as JavaScript adds them, is not below the amount. *)
Definition coversAmount (w : Wallet) (amount : Q) : bool :=
  negb (Qltb (jsAdd (parseFloat (gameBalance w)) (parseFloat (withdrawableBalance w)))
          (parseFloat amount)).

(** The test that lets the game balance pay alone. *)
Definition gameBalanceCovers (w : Wallet) (amount : Q) : bool :=
  Qle_bool (parseFloat amount) (parseFloat (gameBalance w)).

(** An amount of whole hundredths, as a money column holds it. *)
Definition inCents (x : Q) : Prop := x * 100 == inject_Z (Qfloor (x * 100)).

(** A COMPLETED ledger entry of the key (account, session, kind). *)
Definition ledgerKey (u g type : string) (t : Transaction) : Prop :=
  txUserId t = u ∧ txGameId t = Some g ∧ txType t = type ∧ txStatus t = "COMPLETED".
#[global] Instance ledgerKey_dec u g type t : Decision (ledgerKey u g type t).
Proof. unfold ledgerKey. apply _. Defined.

Definition completedEntries (db : Store) (u g type : string) : list Transaction :=
  filter (ledgerKey u g type) (transactions db).

(** The COMPLETED entries of a session and kind, over all accounts. *)
Definition sessionKind (g type : string) (t : Transaction) : Prop :=
  txGameId t = Some g ∧ txType t = type ∧ txStatus t = "COMPLETED".
#[global] Instance sessionKind_dec g type t : Decision (sessionKind g type t).
Proof. unfold sessionKind. apply _. Defined.

Definition sessionTotal (db : Store) (g type : string) : Q :=
  Qsum (map txAmount (filter (sessionKind g type) (transactions db))).

(** No ledger entry mentions the session yet. *)
Definition freshSession (db : Store) (g : string) : Prop :=
  Forall (λ t, txGameId t ≠ Some g) (transactions db).

(** The entries the refund loop appends, one per participant. *)
Fixpoint refundEntries (n : nat) (fee : Q) (g : string)
    (ps : list (Participation * option User)) : list Transaction :=
  match ps with
  | [] => []
  | p :: rest =>
      mkTransaction n (partUserId p.1) "REFUND" fee "COMPLETED" (Some g)
      :: refundEntries (S n) fee g rest
  end.



(** The invariant of a game in play: at most two open cards, and the turn
    pointer on a seated player whose id is [currentTurnPlayerId]. *)
Definition turnInvariant (gs : MemoryGameService.GameState) : Prop :=
  (length (MemoryGameService.selectedCards gs) <= 2)%nat
  ∧ ∃ p, MemoryGameService.players gs !! MemoryGameService.currentTurnIndex gs = Some p
         ∧ MemoryGameService.currentTurnPlayerId gs = MemoryGameService.playerId p.

(** Every card of the selection lies face down on the board. *)
Definition faceDown (sel : list MemoryGameService.Selected) (b : list Card) : Prop :=
  Forall (λ s, ∃ c, b !! MemoryGameService.selPosition s = Some c ∧ isFlipped c = false) sel.

(** The waiting entries of a user. *)
Definition entriesOf (db : Store) (u : string) : list QueueEntry :=
  filter (λ q, qUserId q = u) (matchmakingQueue db).

(** The waiting entries of a pool key. *)
Definition poolOf (db : Store) (gameType : string) (maxPlayers : nat) (entryFee : Q)
    : list QueueEntry :=
  filter (λ q, MatchmakingService.same_config gameType maxPlayers entryFee q = true)
    (matchmakingQueue db).

(** The waiting entries of a pool key that belong to genuine players. *)
Definition humansOf (db : Store) (gameType : string) (maxPlayers : nat) (entryFee : Q)
    : list QueueEntry :=
  filter (λ q, MatchmakingService.same_config gameType maxPlayers entryFee q = true
               ∧ (isBot <$> GameService.findUser db (qUserId q)) = Some false)
    (matchmakingQueue db).

(** What the turn invariant looks at, for the game [g] of a service. *)
Definition turnSummary (svc : MemoryGameService.t) (g : string)
    : option (list string * nat * string * nat * string) :=
  (λ gs, (map MemoryGameService.playerId (MemoryGameService.players gs),
          MemoryGameService.currentTurnIndex gs,
          MemoryGameService.currentTurnPlayerId gs,
          length (MemoryGameService.selectedCards gs),
          MemoryGameService.status gs))
  <$> MemoryGameService.games svc !! g.

(** ** Sample stores *)

(** A free three-player Memory game that was just formed. *)
Definition threePlayerStore : Store :=
  mkStore ∅ []
    [mkUser "A" "Asha" false; mkUser "B" "Bala" false; mkUser "C" "Chitra" false]
    []
    {["room1" := mkGame "MEMORY" 3 0 0 "WAITING" [] 0 None]}
    [mkParticipation "A" "room1" 0 "red" 0; mkParticipation "B" "room1" 1 "blue" 0;
     mkParticipation "C" "room1" 2 "green" 0]
    0.

Definition freshService : MemoryGameService.t := MemoryGameService.mk ∅ ∅ ∅.

(** The game is started, the first player lets the turn time out, and the
    first player then leaves. *)
Definition afterStart : MemoryGameService.t * Store :=
  MemoryGameService.startGame freshService threePlayerStore "room1" 0.
Definition afterTimeout : MemoryGameService.t * Store * outcome unit :=
  MemoryGameService.handleTurnTimeout afterStart.1 afterStart.2 "room1".
Definition afterExit : MemoryGameService.t * Store :=
  MemoryGameService.handlePlayerExit afterTimeout.1.1 afterTimeout.1.2 "room1" "A" "left".

(** Two players with 100 each wait for a two-player game with a fee of 50. *)
Definition twoWaitingStore : Store :=
  mkStore {["A" := mkWallet 100 100 0; "B" := mkWallet 100 100 0]} []
    [mkUser "A" "Asha" false; mkUser "B" "Bala" false]
    [mkQueueEntry 0 "A" "MEMORY" 2 50; mkQueueEntry 1 "B" "MEMORY" 2 50]
    ∅ [] 2.

Definition emptyStore : Store := mkStore ∅ [] [] [] ∅ [] 0.

Definition idleWallet : WalletService.t := WalletService.mk ∅.
Definition idleMatchmaking : MatchmakingService.t := MatchmakingService.mk ∅ false.

(** The two waiting players are matched into the game [g1]. *)
Definition feeKey : Q → string := λ _, "50".
Definition formed :
    MatchmakingService.t * WalletService.t * Store
    * outcome (option MatchmakingService.CreatedGame) :=
  MatchmakingService.createGame feeKey idleMatchmaking idleWallet twoWaitingStore
    "MEMORY" 2 50 "g1" [].
Definition formedStore : Store := formed.1.2.




(** One genuine player waits alone for a two-player game. *)
Definition oneWaitingStore : Store :=
  mkStore {["A" := mkWallet 100 100 0]} [] [mkUser "A" "Asha" false]
    [mkQueueEntry 0 "A" "MEMORY" 2 50] ∅ [] 1.


(** What [createGame] returns for [g1]. *)
Definition createdG1 : MatchmakingService.CreatedGame :=
  MatchmakingService.mkCreated "g1"
    (mkGame "MEMORY" 2 50 80 "WAITING" [] 0 None)
    [mkParticipation "A" "g1" 0 "red" 0; mkParticipation "B" "g1" 1 "blue" 0].

(** A player who holds 0.70 to play with and 0.10 to withdraw, and who is
    asked for an entry fee of 0.80. *)
Definition eightyPaise : Store :=
  mkStore {["A" := mkWallet (8 # 10) (7 # 10) (1 # 10)]} []
    [mkUser "A" "Asha" false] [] ∅ [] 0.

(** The state and the row of [room1] once it has started. *)
Definition startedGame : MemoryGameService.GameState :=
  default (MemoryGameService.mkGameState [] [] 0 EmptyString [] ∅ ∅ ∅ 0 0 EmptyString false)
    (MemoryGameService.games afterStart.1 !! "room1").
Definition startedRow : Game :=
  default (mkGame EmptyString 0 0 0 EmptyString [] 0 None)
    (gameTable afterStart.2 !! "room1").

(** A selection sent by the second player while the first is to move. *)
Definition outOfTurn : MemoryGameService.CardData :=
  MemoryGameService.mkCardData (Some "room1") None (Some "B") (Some 3%Z).


(** ** Vocabulary of the further properties *)

(** The answers to a run of requests of one user and event type, made at
    the given times. *)
Fixpoint requests (m : gmap string Server.RateLimit) (u e : string)
    (maxRequests windowMs : nat) (times : list nat) : list bool :=
  match times with
  | [] => []
  | now :: rest =>
      let '(m', ok) := Server.checkRateLimit m u e maxRequests windowMs now in
      ok :: requests m' u e maxRequests windowMs rest
  end.

(** The registries of the socket manager agree: room membership is recorded
    on both sides, no registry holds an empty set, and every registered
    socket is among the sockets of its user. *)
Definition consistent (sm : SocketManager.t) : Prop :=
  (∀ u g, u ∈ SocketManager.getGameUsers sm g ↔ g ∈ SocketManager.getUserGames sm u)
  ∧ (∀ k s, SocketManager.userSockets sm !! k = Some s → s ≠ ∅)
  ∧ (∀ k s, SocketManager.gameRooms sm !! k = Some s → s ≠ ∅)
  ∧ (∀ k s, SocketManager.userGames sm !! k = Some s → s ≠ ∅)
  ∧ (∀ s u, SocketManager.socketUsers sm !! s = Some u →
            s ∈ SocketManager.getUserSockets sm u).

(** Every wallet's total is the sum of its game balance and its
    withdrawable balance. *)
Definition coherentWallets (db : Store) : Prop :=
  ∀ u w, wallets db !! u = Some w →
         balance w == gameBalance w + withdrawableBalance w.

(** The transaction types [creditWallet] books to one of the two
    sub-balances. *)
Definition creditTypes : list string :=
  ["GAME_WINNING"; "REFERRAL_BONUS"; "REFERRAL_SIGNUP_BONUS"; "DEPOSIT"; "REFUND"].

(** The transactions [getTransactionHistory] selects for a user and an
    optional type, newest first. *)
Definition historyOf (db : Store) (u : string) (type : option string) : list Transaction :=
  reverse (filter (λ t, txUserId t = u
                        ∧ (WalletService.present type = true → Some (txType t) = type))
             (transactions db)).

(** The rows of a page of the history; nothing when the call fails. *)
Definition historyPage (db : Store) (u : string) (limit : nat) (type : option string)
    (page : nat) : list Transaction :=
  match WalletService.getTransactionHistory db u page limit type with
  | Return p => WalletService.rows p
  | Throw _ => []
  end.


(** The score the leaderboard gives a player. *)
Definition scoreOf (gs : MemoryGameService.GameState) (p : MemoryGameService.Player) : Z :=
  default 0%Z (MemoryGameService.scores gs !! MemoryGameService.playerId p).

(** The row of a game that ends. *)
Definition finishedRow (row : Game) (gs : MemoryGameService.GameState)
    (winnerId : option string) : Game :=
  mkGame (gameType row) (maxPlayers row) (entryFee row) (prizePool row)
    "FINISHED" (MemoryGameService.board gs) (MemoryGameService.currentTurnIndex gs) winnerId.

(** How a handler that works on the game [g0] leaves the registry: as it
    was, without the game, or with a new state of the game. *)
Definition registryStep (m m' : gmap string MemoryGameService.GameState) (g0 : string)
    (P : MemoryGameService.GameState → Prop) : Prop :=
  m' = m ∨ m' = delete g0 m ∨ ∃ x, m' = <[g0 := x]> m ∧ P x.



(** The payload with which the player [u] selects the card at position
    [p] of the game [g]. *)
Definition pick (g u : string) (p : nat) : MemoryGameService.CardData :=
  MemoryGameService.mkCardData (Some g) None (Some u) (Some (Z.of_nat p)).

(** A card, turned face up. *)
Definition faceUp (c : Card) (matched : bool) : Card :=
  mkCard (cardId c) (position c) (symbol c) true matched.

(** ** Further sample stores *)

(** Two players wait for a two-player game with a fee of 50; the second
    one holds only 10. *)
Definition unevenStore : Store :=
  mkStore {["A" := mkWallet 100 100 0; "B" := mkWallet 10 10 0]} []
    [mkUser "A" "Asha" false; mkUser "B" "Bala" false]
    [mkQueueEntry 0 "A" "MEMORY" 2 50; mkQueueEntry 1 "B" "MEMORY" 2 50]
    ∅ [] 2.

(** A deposit order of 10 waits for its payment. *)
Definition noPayments : PaymentStore := mkPaymentStore emptyStore ∅ ∅ [].
Definition pendingDeposit : PaymentStore :=
  (WalletService.createTransaction noPayments "A" "DEPOSIT" 10 "PENDING" (Some "order1") None).1.

(** A stand-in for the keyed digest of the gateway. *)
Definition sampleDigest : string → string := λ text, ("sig:" ++ text)%string.

(** A player holds winnings of 500. *)
Definition winnerStore : PaymentStore :=
  mkPaymentStore
    (mkStore {["A" := mkWallet 500 0 500]} [] [mkUser "A" "Asha" false] [] ∅ [] 0)
    ∅ ∅ [].

Definition upiDetails : WalletService.WithdrawalDetails :=
  WalletService.mkWithdrawalDetails None None None (Some "Asha") (Some "asha@upi").

(** The player asks to withdraw 200 of the winnings. *)
Definition withdrawalPending : PaymentStore :=
  (WalletService.createWithdrawalRequest feeKey winnerStore "A" 200 "upi" upiDetails).1.

(** The game [g1] is over; the first player has won a prize pool of 80. *)
Definition finishedStore : Store :=
  mkStore {["A" := mkWallet 50 50 0; "B" := mkWallet 50 50 0]} []
    [mkUser "A" "Asha" false; mkUser "B" "Bala" false] []
    {["g1" := mkGame "MEMORY" 2 50 80 "FINISHED" [] 0 (Some "A")]}
    [mkParticipation "A" "g1" 0 "red" 0; mkParticipation "B" "g1" 1 "blue" 0] 0.

(** The winner of [g1] is paid by the game session. *)
Definition settled : MemoryGameService.t * Store * MemoryGameService.WinningsResult :=
  MemoryGameService.safeProcessWinnings freshService finishedStore "g1" (Some "A")
    "game_completed".

(** The row of [room1] with its participants, as the store has it once the
    game has started. *)
Definition startedRecord : GameService.GameWithParticipants :=
  default (GameService.mkGWP (mkGame EmptyString 0 0 0 EmptyString [] 0 None) [])
    (GameService.getGameById afterStart.2 "room1").

(** A selection sent by the first player. *)
Definition inTurn : MemoryGameService.CardData :=
  MemoryGameService.mkCardData (Some "room1") None (Some "A") (Some 3%Z).

(** The two players of [g1] have paid; the game is started. *)
Definition duel : MemoryGameService.t * Store :=
  MemoryGameService.startGame freshService formedStore "g1" 0.
Definition duelState : MemoryGameService.GameState :=
  default (MemoryGameService.mkGameState [] [] 0 EmptyString [] ∅ ∅ ∅ 0 0 EmptyString false)
    (MemoryGameService.games duel.1 !! "g1").
Definition duelRecord : GameService.GameWithParticipants :=
  default (GameService.mkGWP (mkGame EmptyString 0 0 0 EmptyString [] 0 None) [])
    (GameService.getGameById duel.2 "g1").


(** The cards at the first two positions of the board of [g1]. *)
Definition duelCard (p : nat) : Card :=
  default (mkCard 0 0 EmptyString false false) (MemoryGameService.board duelState !! p).


(** In [room1], where the first player is to move, the socket of the second
    player sends a selection that names the first player. *)
Definition impersonated : MemoryGameService.t * MemoryGameService.SelectResult :=
  MemoryGameService.selectCard afterStart.1 (Some "B") (pick "room1" "A" 0).

(** Every player of [room1] lets two turns time out; the first player, on
    the last lifeline, opens the card at position 0 and lets the turn time
    out again; the second player then opens the card at position 1. *)
Definition lastLifeline : MemoryGameService.t * Store :=
  Nat.iter 6 (λ s, (MemoryGameService.handleTurnTimeout s.1 s.2 "room1").1) afterStart.
Definition oneCardOpen : MemoryGameService.t :=
  (MemoryGameService.selectCard lastLifeline.1 (Some "A") (pick "room1" "A" 0)).1.
Definition eliminated : MemoryGameService.t * Store * outcome unit :=
  MemoryGameService.handleTurnTimeout oneCardOpen lastLifeline.2 "room1".
Definition nextSelection : MemoryGameService.t * MemoryGameService.SelectResult :=
  MemoryGameService.selectCard eliminated.1.1 (Some "B") (pick "room1" "B" 1).

(** The selection and the lifelines of [room1] in a service. *)
Definition selectionOf (svc : MemoryGameService.t) : option (list nat) :=
  (λ gs, map MemoryGameService.selPosition (MemoryGameService.selectedCards gs))
  <$> MemoryGameService.games svc !! "room1".
Definition lifelinesOf (svc : MemoryGameService.t) (u : string) : option nat :=
  MemoryGameService.games svc !! "room1" ≫= λ gs, MemoryGameService.lifelines gs !! u.

(** A genuine player with 100 joins the three-player pool of fee 50 at time
    0, which arms the backfill timer of the key; the timer fires. *)
Definition loneStore : Store :=
  mkStore {["A" := mkWallet 100 100 0]} [] [mkUser "A" "Asha" false] [] ∅ [] 0.
Definition waitingForThree
    : MatchmakingService.t * Store * outcome MatchmakingService.JoinResult :=
  MatchmakingService.joinQueue feeKey idleMatchmaking loneStore "A" "MEMORY" 3 50 0.
Definition backfilled : MatchmakingService.t * Store * bool :=
  MatchmakingService.fireBotDeploymentTimer waitingForThree.1.1 waitingForThree.1.2
    "MEMORY_3_50_0" "bot1" 0.

(** * Proofs *)

(** ** Arithmetic on amounts *)

Lemma Qltb_lt x y : Qltb x y = true ↔ (x < y)%Q.
Proof.
  unfold Qltb. rewrite negb_true_iff, <- not_true_iff_false, Qle_bool_iff.
  split; [apply Qnot_le_lt | apply Qlt_not_le].
Qed.

Lemma Qltb_ge x y : Qltb x y = false ↔ (y <= x)%Q.
Proof.
  unfold Qltb. rewrite negb_false_iff. apply Qle_bool_iff.
Qed.

Lemma Qle_bool_false x y : Qle_bool x y = false ↔ (y < x)%Q.
Proof.
  rewrite <- not_true_iff_false, Qle_bool_iff.
  split; [apply Qnot_le_lt | apply Qlt_not_le].
Qed.

Lemma string_eqb_true a b : string_eqb a b = true ↔ a = b.
Proof. unfold string_eqb. apply bool_decide_eq_true. Qed.

Lemma string_eqb_false a b : string_eqb a b = false ↔ a ≠ b.
Proof. unfold string_eqb. apply bool_decide_eq_false. Qed.

(** ** Binary64 arithmetic *)

Section Numbers.
Open Scope Q_scope.

Lemma pow2_pos e : 0 < pow2 e.
Proof. unfold pow2. by apply Qpower_0_lt. Qed.

Lemma pow2_add a b : pow2 (a + b) == pow2 a * pow2 b.
Proof. unfold pow2. by apply Qpower_plus. Qed.

Lemma pow2_Z n : (0 <= n)%Z → pow2 n == inject_Z (2 ^ n).
Proof. intros H. unfold pow2. by rewrite Zpower_Qpower. Qed.

(** [ilog2] does not overshoot. *)
Lemma ilog2_lower a : 0 < a → pow2 (ilog2 a) <= a.
Proof.
  intros Ha. unfold ilog2.
  set (e := (Z.log2 (Qnum a) - Z.log2 (Z.pos (Qden a)))%Z).
  destruct (Qle_bool (pow2 e) a) eqn:E; [by apply Qle_bool_iff|].
  destruct a as [n d]. cbn [Qnum Qden] in e.
  assert (Hn : (0 < n)%Z) by (unfold Qlt in Ha; simpl in Ha; lia).
  pose proof (Z.log2_spec n Hn) as [Hlo _].
  pose proof (Z.log2_spec (Z.pos d) (Pos2Z.is_pos d)) as [_ Hhi].
  pose proof (Z.log2_nonneg n) as Hn0.
  pose proof (Z.log2_nonneg (Z.pos d)) as Hd0.
  replace (e - 1)%Z with (Z.log2 n + - (Z.succ (Z.log2 (Z.pos d))))%Z by (unfold e; lia).
  rewrite pow2_add. unfold pow2 at 2. rewrite Qpower_opp.
  fold (pow2 (Z.succ (Z.log2 (Z.pos d)))).
  rewrite !pow2_Z by lia.
  set (P := (2 ^ Z.log2 n)%Z) in *. set (D := (2 ^ Z.succ (Z.log2 (Z.pos d)))%Z) in *.
  assert (HD : (0 < D)%Z) by lia.
  assert (HP : (0 < P)%Z) by (unfold P; apply Z.pow_pos_nonneg; lia).
  destruct D as [|D|D]; try lia. destruct P as [|P|P]; try lia.
  unfold Qle, Qinv, Qmult, inject_Z. simpl.
  nia.
Qed.

Lemma roundEven_bounds x :
  x - (1 # 2) <= inject_Z (roundEven x) <= x + (1 # 2).
Proof.
  unfold roundEven.
  pose proof (Qfloor_le x) as Hlo. pose proof (Qlt_floor x) as Hhi.
  rewrite inject_Z_plus in Hhi. change (inject_Z 1) with 1 in Hhi.
  destruct (Qltb (x - inject_Z (Qfloor x)) (1 # 2)) eqn:E1.
  { apply Qltb_lt in E1. lra. }
  destruct (Qltb (1 # 2) (x - inject_Z (Qfloor x))) eqn:E2.
  { apply Qltb_lt in E2. rewrite inject_Z_plus. change (inject_Z 1) with 1. lra. }
  unfold Qltb in E1, E2. rewrite negb_false_iff, Qle_bool_iff in E1, E2.
  destruct (Z.even (Qfloor x)); [lra|].
  rewrite inject_Z_plus. change (inject_Z 1) with 1. lra.
Qed.

Lemma roundEven_nonneg x : 0 <= x → 0 <= inject_Z (roundEven x).
Proof.
  intros Hx.
  assert (0 <= Qfloor x)%Z as H0.
  { change 0%Z with (Qfloor 0). by apply Qfloor_resp_le. }
  assert (0 <= roundEven x)%Z as H1.
  { unfold roundEven. repeat case_match; lia. }
  change 0 with (inject_Z 0). by rewrite <- Zle_Qle.
Qed.

(** The relative and the absolute error of rounding a number that is not
    negative. *)
Lemma binary64_upper x :
  0 <= x →
  0 <= binary64 x ∧ binary64 x <= x + x * (1 # 9007199254740992) + pow2 (-1075).
Proof.
  intros Hx. unfold binary64.
  pose proof (pow2_pos (-1075)) as Heps.
  destruct (Qeq_bool x 0) eqn:E.
  { apply Qeq_bool_iff in E. rewrite E. lra. }
  apply Qeq_bool_neq in E.
  assert (Hpos : 0 < x) by (destruct (Qlt_le_dec 0 x); [done|]; exfalso; apply E; lra).
  set (e := ilog2 (Qabs x)).
  set (q := pow2 (Z.max (e - 52) (-1074))).
  assert (Hq : 0 < q) by apply pow2_pos.
  assert (Hqx : q <= x * (1 # 4503599627370496) + pow2 (-1074)).
  { pose proof (pow2_pos (-1074)).
    unfold q. destruct (Z.max_spec (e - 52) (-1074)) as [[_ ->]|[_ ->]].
    - lra.
    - replace (e - 52)%Z with (e + -52)%Z by lia. rewrite pow2_add.
      assert (pow2 e <= x) as He.
      { unfold e. rewrite <- (Qabs_pos x) at 2 by lra. apply ilog2_lower.
        rewrite Qabs_pos; lra. }
      assert (pow2 (-52) == 1 # 4503599627370496) as -> by reflexivity.
      lra. }
  assert (pow2 (-1074) == 2 * pow2 (-1075)) as Hhalf.
  { change (-1074)%Z with (1 + -1075)%Z. rewrite pow2_add. reflexivity. }
  rewrite Qred_correct.
  pose proof (roundEven_bounds (x / q)) as [_ Hr].
  pose proof (roundEven_nonneg (x / q)) as Hr0.
  assert (0 <= x / q) as Hxq.
  { apply Qle_shift_div_l; [done|]. lra. }
  specialize (Hr0 Hxq).
  split; [apply Qmult_le_0_compat; lra|].
  assert (inject_Z (roundEven (x / q)) * q <= (x / q + (1 # 2)) * q) as H1.
  { apply Qmult_le_compat_r; lra. }
  assert ((x / q + (1 # 2)) * q == x + q * (1 # 2)) as H2.
  { field. lra. }
  lra.
Qed.

(** What a money column keeps of a number below [k + 1/2] hundredths is at
    most [k] hundredths. *)
Lemma toCents_le x (k : Z) :
  0 <= x → x * 100 < inject_Z k + (1 # 2) → toCents x <= inject_Z k / 100.
Proof.
  intros Hx Hk. unfold toCents. rewrite Qred_correct.
  assert (Qle_bool 0 (x * 100) = true) as -> by (apply Qle_bool_iff; lra).
  apply Qmult_le_compat_r; [|by compute].
  rewrite <- Zle_Qle.
  assert (Qfloor (x * 100 + (1 # 2)) < k + 1)%Z; [|lia].
  rewrite Zlt_Qlt, inject_Z_plus. change (inject_Z 1) with 1.
  pose proof (Qfloor_le (x * 100 + (1 # 2))). lra.
Qed.

Lemma toCents_nonneg x : 0 <= x → 0 <= toCents x.
Proof.
  intros Hx. unfold toCents. rewrite Qred_correct.
  assert (Qle_bool 0 (x * 100) = true) as -> by (apply Qle_bool_iff; lra).
  apply Qle_shift_div_l; [by compute|].
  assert (0 <= Qfloor (x * 100 + (1 # 2)))%Z as H.
  { change 0%Z with (Qfloor 0). apply Qfloor_resp_le. lra. }
  rewrite Zle_Qle in H. change (inject_Z 0) with 0 in H. lra.
Qed.

(** The prize pool of [createGame] never exceeds the fees paid in. *)
Lemma prizePool_le f (n : nat) :
  0 <= f → inCents f →
  toCents (jsMul (jsMul (parseFloat f) (inject_Z (Z.of_nat n))) (parseFloat (8 # 10)))
  <= f * inject_Z (Z.of_nat n).
Proof.
  intros Hf Hc. unfold jsMul, parseFloat.
  set (N := inject_Z (Z.of_nat n)).
  assert (HN : 0 <= N).
  { unfold N. change 0 with (inject_Z 0). rewrite <- Zle_Qle. lia. }
  assert (HN1 : N == 0 ∨ 1 <= N).
  { unfold N. destruct n as [|n]; [by left|right].
    change 1 with (inject_Z 1). rewrite <- Zle_Qle. lia. }
  set (k := Qfloor (f * 100)). unfold inCents in Hc. fold k in Hc.
  assert (Hk0 : (0 <= k)%Z).
  { rewrite Zle_Qle. rewrite <- Hc. change (inject_Z 0) with 0. lra. }
  assert (HfN : f * N == inject_Z (k * Z.of_nat n) / 100).
  { rewrite inject_Z_mult. fold N. rewrite <- Hc. field. }
  rewrite HfN. apply toCents_le.
  - apply binary64_upper. apply Qmult_le_0_compat; [apply binary64_upper|].
    + apply Qmult_le_0_compat; [|done]. by apply binary64_upper.
    + by compute.
  - rewrite inject_Z_mult. fold N. rewrite <- Hc.
    assert (binary64 (8 # 10) = 3602879701896397 # 4503599627370496) as -> by reflexivity.
    set (c := 3602879701896397 # 4503599627370496).
    set (u := 1 # 9007199254740992).
    assert (Heps : 0 < pow2 (-1075) ∧ pow2 (-1075) < 1 # 1000000) by (split; reflexivity).
    set (eps := pow2 (-1075)) in *.
    destruct (binary64_upper f Hf) as [H1a H1b]. fold u eps in H1b.
    set (p := binary64 f) in *.
    assert (HpN : 0 <= p * N) by (by apply Qmult_le_0_compat).
    destruct (binary64_upper (p * N) HpN) as [H2a H2b]. fold u eps in H2b.
    set (t := binary64 (p * N)) in *.
    assert (Htc : 0 <= t * c) by (apply Qmult_le_0_compat; [done|by compute]).
    destruct (binary64_upper (t * c) Htc) as [H3a H3b]. fold u eps in H3b.
    set (y := binary64 (t * c)) in *.
    destruct (Qeq_bool f 0) eqn:Ef.
    + (* a free game *)
      apply Qeq_bool_iff in Ef.
      assert (p = 0) as Hp0.
      { unfold p, binary64. apply Qeq_bool_iff in Ef. by rewrite Ef. }
      assert (t = 0) as Ht0.
      { unfold t, binary64. rewrite Hp0.
        assert (Qeq_bool (0 * N) 0 = true) as -> by (apply Qeq_bool_iff; ring). done. }
      assert (y = 0) as ->.
      { unfold y, binary64. rewrite Ht0.
        assert (Qeq_bool (0 * c) 0 = true) as -> by (apply Qeq_bool_iff; ring). done. }
      rewrite Ef. lra.
    + apply Qeq_bool_neq in Ef.
      assert (1 <= f * 100) as Hcent.
      { rewrite Hc. change 1 with (inject_Z 1). rewrite <- Zle_Qle.
        assert (k ≠ 0)%Z; [|lia]. intros Hk. apply Ef.
        rewrite Hk in Hc. change (inject_Z 0) with 0 in Hc. lra. }
      assert (HpN' : p * N <= (f + f * u + eps) * N) by (apply Qmult_le_compat_r; lra).
      assert (Htc' : t * c <= (p * N + p * N * u + eps) * c)
        by (apply Qmult_le_compat_r; [lra|by compute]).
      assert (HfN0 : 0 <= f * N) by (by apply Qmult_le_0_compat).
      assert (HfN1 : N <= f * N * 100).
      { destruct HN1 as [Hz|H1]; [rewrite Hz; lra|].
        assert (1 * N <= f * 100 * N) by (apply Qmult_le_compat_r; lra). lra. }
      assert (0 <= eps * N) by (apply Qmult_le_0_compat; lra).
      assert (eps * N <= (1 # 1000000) * N) by (apply Qmult_le_compat_r; lra).
      unfold c, u in *. lra.
Qed.

End Numbers.

(** ** Lists and sets *)

Lemma filter_none {A} (P : A → Prop) `{!∀ x, Decision (P x)} (l : list A) :
  (∀ x, x ∈ l → ¬ P x) → filter P l = [].
Proof.
  induction l as [|a l IH]; intros Hno; [done|].
  rewrite filter_cons_False by (apply Hno; left).
  apply IH. intros x Hx. apply Hno. by right.
Qed.

Lemma filter_all {A} (P : A → Prop) `{!∀ x, Decision (P x)} (l : list A) :
  (∀ x, x ∈ l → P x) → filter P l = l.
Proof.
  induction l as [|a l IH]; intros Hall; [done|].
  rewrite filter_cons_True by (apply Hall; left).
  f_equal. apply IH. intros x Hx. apply Hall. by right.
Qed.

Lemma add_remove_fresh (X : gset string) (k : string) :
  k ∉ X → (X ∪ {[k]}) ∖ {[k]} = X.
Proof.
  intros Hk. apply set_eq. intros x.
  rewrite elem_of_difference, elem_of_union, elem_of_singleton.
  split; [tauto|]. intros Hx. split; [tauto|]. congruence.
Qed.

(** ** The ledger *)

Section Ledger.
Import WalletService.
Import MemoryGameService.

Lemma getWallet_lookup db u :
  wallets (getWallet db u).1 !! u = Some (getWallet db u).2.
Proof.
  unfold getWallet. destruct (wallets db !! u) eqn:E; simpl; [done|].
  apply lookup_insert_eq.
Qed.

Lemma getWallet_other db u v :
  u ≠ v → wallets (getWallet db u).1 !! v = wallets db !! v.
Proof.
  intros ?. unfold getWallet. destruct (wallets db !! u); simpl; [done|].
  by apply lookup_insert_ne.
Qed.

Lemma getWallet_transactions db u :
  transactions (getWallet db u).1 = transactions db
  ∧ nextId (getWallet db u).1 = nextId db.
Proof. unfold getWallet. by destruct (wallets db !! u). Qed.

Lemma walletOf_lookup db u w : wallets db !! u = Some w → walletOf db u = w.
Proof. intros H. unfold walletOf, getWallet. by rewrite H. Qed.


(** The first debit of an entry fee for a key, with a positive amount, in
    terms of the tests the code makes: when the balances do not cover the
    amount it answers "Insufficient balance" and changes neither balance nor
    the ledger; otherwise it appends one COMPLETED GAME_ENTRY entry of the
    key, takes the amount from the game balance when that covers it alone,
    and else empties the game balance and takes the remainder from the
    withdrawable balance; the sum of the two goes down by the amount. *)
Lemma deductGameEntry_first svc db u amount g :
  (0 < amount)%Q →
  deductionKey u g ∉ ongoingDeductions svc →
  filter (λ t, is_game_entry u g t = true) (transactions db) = [] →
  ∃ db' r,
    deductGameEntry svc db u amount g = (svc, db', Return r)
    ∧ (coversAmount (walletOf db u) amount = false →
       r = DeductFail "Insufficient balance" None None
       ∧ walletOf db' u = walletOf db u ∧ transactions db' = transactions db)
    ∧ (coversAmount (walletOf db u) amount = true →
       r = DeductOk (balance (walletOf db' u)) (gameBalance (walletOf db' u))
             (withdrawableBalance (walletOf db' u)) (nextId db)
       ∧ transactions db' =
           (transactions db
            ++ [mkTransaction (nextId db) u "GAME_ENTRY" amount "COMPLETED" (Some g)])
       ∧ (gameBalanceCovers (walletOf db u) amount = true →
          gameBalance (walletOf db' u) == gameBalance (walletOf db u) - amount
          ∧ withdrawableBalance (walletOf db' u) == withdrawableBalance (walletOf db u))
       ∧ (gameBalanceCovers (walletOf db u) amount = false →
          gameBalance (walletOf db' u) == 0
          ∧ withdrawableBalance (walletOf db' u) ==
              withdrawableBalance (walletOf db u) - (amount - gameBalance (walletOf db u)))
       ∧ balance (walletOf db' u) == balance (walletOf db u) - amount
       ∧ gameBalance (walletOf db' u) + withdrawableBalance (walletOf db' u) ==
           gameBalance (walletOf db u) + withdrawableBalance (walletOf db u) - amount).
Proof.
  intros Hpos Hkey Hnone.
  unfold deductGameEntry.
  assert (Qle_bool amount 0 = false) as -> by (apply Qle_bool_false; done).
  rewrite bool_decide_eq_false_2 by done.
  rewrite Hnone. simpl reverse. cbv iota.
  rewrite add_remove_fresh by done.
  assert (WalletService.mk (ongoingDeductions svc) = svc) as -> by (by destruct svc).
  destruct (getWallet db u) as [db1 w] eqn:Hgw.
  assert (Hw : walletOf db u = w) by (unfold walletOf; by rewrite Hgw).
  assert (Hl : wallets db1 !! u = Some w).
  { pose proof (getWallet_lookup db u) as H. by rewrite Hgw in H. }
  assert (Ht : transactions db1 = transactions db ∧ nextId db1 = nextId db).
  { pose proof (getWallet_transactions db u) as H. by rewrite Hgw in H. }
  destruct Ht as [Ht Hn]. rewrite Hw. unfold coversAmount, gameBalanceCovers.
  destruct (Qltb (jsAdd _ _) (parseFloat amount)) eqn:Hlt.
  - eexists _, _. split; [reflexivity|]. split.
    + intros _. split; [done|]. split; [by apply walletOf_lookup | done].
    + discriminate.
  - unfold deductGameEntry_tx. rewrite Ht, Hnone. simpl.
    rewrite Hl, Hlt.
    destruct (Qle_bool (parseFloat amount) (parseFloat (gameBalance w))) eqn:Hle.
    + eexists _, _. split; [reflexivity|].
      split; [discriminate|]. intros _.
      erewrite walletOf_lookup by (simpl; apply lookup_insert_eq). simpl.
      rewrite Hn, Ht.
      repeat split; try done; try lra.
    + eexists _, _. split; [reflexivity|].
      split; [discriminate|]. intros _.
      erewrite walletOf_lookup by (simpl; apply lookup_insert_eq). simpl.
      rewrite Hn, Ht.
      repeat split; try done; try lra.
Qed.

(** C3 (deductGameEntry), where the code departs from the claim.  A player
    holds 0.70 to play with and 0.10 to withdraw, together exactly the fee
    of 0.80, and no debit of the key was made or is under way.  The debit
    is refused with "Insufficient balance" and neither the balances nor the
    ledger change: the code compares the binary64 sum of the two balances,
    which is below 0.8, with the fee. *)
Theorem deductGameEntry_refuses_exact_balance :
  gameBalance (walletOf eightyPaise "A") + withdrawableBalance (walletOf eightyPaise "A")
    == 8 # 10
  ∧ (jsAdd (parseFloat (gameBalance (walletOf eightyPaise "A")))
       (parseFloat (withdrawableBalance (walletOf eightyPaise "A")))
     < parseFloat (8 # 10))%Q
  ∧ coversAmount (walletOf eightyPaise "A") (8 # 10) = false
  ∧ (deductionKey "A" "g1" ∉ ongoingDeductions idleWallet)
  ∧ filter (λ t, is_game_entry "A" "g1" t = true) (transactions eightyPaise) = []
  ∧ deductGameEntry idleWallet eightyPaise "A" (8 # 10) "g1"
    = (idleWallet, eightyPaise, Return (DeductFail "Insufficient balance" None None)).
Proof.
  split_and!.
  - reflexivity.
  - reflexivity.
  - reflexivity.
  - apply not_elem_of_empty.
  - reflexivity.
  - destruct (deductGameEntry_first idleWallet eightyPaise "A" (8 # 10) "g1")
      as (db' & r & Hrun & Hno & _).
    + reflexivity.
    + apply not_elem_of_empty.
    + reflexivity.
    + destruct (Hno eq_refl) as (-> & _ & _). rewrite Hrun. f_equal. f_equal.
      unfold deductGameEntry in Hrun. vm_compute in Hrun. by injection Hrun as <-.
Qed.

Lemma walletOf_wallets db db' u :
  wallets db' !! u = wallets db !! u → walletOf db' u = walletOf db u.
Proof. intros H. unfold walletOf, getWallet. rewrite H. by destruct (wallets db !! u). Qed.

Lemma creditWallet_throw db u amount type g :
  (amount <= 0)%Q →
  creditWallet db u amount type g = (db, Throw "Invalid amount for credit").
Proof.
  intros H. unfold creditWallet.
  by rewrite (proj2 (Qle_bool_iff amount 0) H).
Qed.

Lemma creditWallet_ok db u amount type g :
  (0 < amount)%Q →
  ∃ db' r,
    creditWallet db u amount type g = (db', Return r)
    ∧ transactions db' =
        (transactions db ++ [mkTransaction (nextId db) u type amount "COMPLETED" g])
    ∧ nextId db' = S (nextId db)
    ∧ wallets db' = <[u := creditUpdate type amount (walletOf db u)]> (wallets db)
    ∧ gameTable db' = gameTable db
    ∧ gameParticipations db' = gameParticipations db
    ∧ users db' = users db
    ∧ matchmakingQueue db' = matchmakingQueue db.
Proof.
  intros H. unfold creditWallet, walletOf.
  rewrite (proj2 (Qle_bool_false amount 0) H).
  unfold getWallet. destruct (wallets db !! u) eqn:E; simpl.
  - eexists _, _. repeat split; try reflexivity.
  - eexists _, _. repeat split; try reflexivity.
    simpl. by rewrite insert_insert_eq.
Qed.

(** A retried entry-fee debit finds the entry of the first one. *)
Lemma deductGameEntry_ok_inv svc db u amount g svc1 db1 b gb wb id :
  deductGameEntry svc db u amount g = (svc1, db1, Return (DeductOk b gb wb id)) →
  (0 < amount)%Q
  ∧ (deductionKey u g ∉ ongoingDeductions svc)
  ∧ filter (λ t, is_game_entry u g t = true) (transactions db) = []
  ∧ id = nextId db
  ∧ ongoingDeductions svc1 = ongoingDeductions svc
  ∧ transactions db1 =
      (transactions db ++ [mkTransaction (nextId db) u "GAME_ENTRY" amount "COMPLETED" (Some g)]).
Proof.
  unfold deductGameEntry.
  destruct (Qle_bool amount 0) eqn:Hamt; [discriminate|].
  apply Qle_bool_false in Hamt.
  case_bool_decide as Hkey; [discriminate|].
  destruct (filter _ (transactions db)) as [|t0 l0] eqn:Hnone; simpl reverse.
  2:{ destruct (reverse (t0 :: l0)) eqn:R; [|discriminate].
      apply (f_equal length) in R. rewrite length_reverse in R. done. }
  destruct (getWallet db u) as [db0 w] eqn:Hgw.
  pose proof (getWallet_transactions db u) as [Ht Hn]. rewrite Hgw in Ht, Hn. simpl in Ht, Hn.
  destruct (Qltb _ _); [discriminate|].
  unfold deductGameEntry_tx. rewrite Ht, Hnone. simpl.
  destruct (wallets db0 !! u); [|simpl; discriminate].
  destruct (Qltb _ _); [simpl; discriminate|].
  destruct (Qle_bool (parseFloat amount) _); intros [= ? ? ? ? ? ?]; subst; simpl;
    rewrite Ht, Hn; repeat split; try done; by apply add_remove_fresh.
Qed.

Lemma deductGameEntry_others svc db u amount g svc1 db1 r v :
  deductGameEntry svc db u amount g = (svc1, db1, r) → v ≠ u →
  wallets db1 !! v = wallets db !! v.
Proof.
  unfold deductGameEntry, deductGameEntry_tx, getWallet. intros H Hv. revert H.
  repeat (case_match; simplify_eq/=); intros [= <- <- <-]; simpl;
    rewrite ?lookup_insert_ne by done; done.
Qed.

(** What a debit that went through took from the wallet. *)
Lemma deductGameEntry_paid svc db u amount g svc1 db1 b gb wb id :
  deductGameEntry svc db u amount g = (svc1, db1, Return (DeductOk b gb wb id)) →
  balance (walletOf db1 u) == balance (walletOf db u) - amount
  ∧ gameBalance (walletOf db1 u) + withdrawableBalance (walletOf db1 u)
    == gameBalance (walletOf db u) + withdrawableBalance (walletOf db u) - amount.
Proof.
  intros H. pose proof H as H0.
  apply deductGameEntry_ok_inv in H0 as (Hpos & Hkey & Hnone & _).
  destruct (deductGameEntry_first svc db u amount g Hpos Hkey Hnone)
    as (db' & r & Heq & Hno & Hyes).
  rewrite H in Heq. injection Heq as _ <- <-.
  destruct (coversAmount (walletOf db u) amount).
  - by destruct (Hyes eq_refl) as (_ & _ & _ & _ & Hb & Hsum).
  - by destruct (Hno eq_refl) as (? & _).
Qed.



(** ** Settlement *)

Lemma refundAll_throw db fee g ps db1 msg :
  refundAll db fee g ps = (db1, Throw msg) → db1 = db.
Proof.
  destruct ps as [|p ps]; simpl; [discriminate|].
  destruct (Qle_bool fee 0) eqn:E.
  - apply Qle_bool_iff in E. rewrite (creditWallet_throw _ _ _ _ _ E). congruence.
  - apply Qle_bool_false in E. revert db.
    assert (∀ l db, refundAll db fee g l ≠ (db1, Throw msg)) as Hno.
    { induction l as [|q l IH]; intros db; simpl; [discriminate|].
      destruct (creditWallet_ok db (partUserId q.1) fee "REFUND" (Some g) E)
        as (db' & r & -> & _). apply IH. }
    intros db. specialize (Hno (p :: ps) db). simpl in Hno. done.
Qed.

Lemma refundAll_ok db fee g ps :
  (0 < fee)%Q →
  ∃ db1, refundAll db fee g ps = (db1, Return ())
    ∧ transactions db1 = transactions db ++ refundEntries (nextId db) fee g ps
    ∧ gameTable db1 = gameTable db
    ∧ gameParticipations db1 = gameParticipations db.
Proof.
  intros Hfee. revert db. induction ps as [|p ps IH]; intros db; simpl.
  - exists db. by rewrite app_nil_r.
  - destruct (creditWallet_ok db (partUserId p.1) fee "REFUND" (Some g) Hfee)
      as (db' & r & -> & Ht & Hn & _ & Hg & Hp & _).
    destruct (IH db') as (db1 & -> & Ht1 & Hg1 & Hp1).
    exists db1. split; [done|]. rewrite Ht1, Ht, Hn, Hg1, Hp1, <- app_assoc.
    repeat split; done.
Qed.


(** The wallets after the refund loop: every seat of a user brings the fee
    back once, into the balance and the game balance. *)
Lemma refundAll_wallets db fee g ps db1 :
  (0 < fee)%Q →
  refundAll db fee g ps = (db1, Return ()) →
  ∀ u,
    balance (walletOf db1 u)
      == balance (walletOf db u)
         + fee * inject_Z (Z.of_nat (length (filter (λ p, partUserId p.1 = u) ps)))
    ∧ gameBalance (walletOf db1 u)
      == gameBalance (walletOf db u)
         + fee * inject_Z (Z.of_nat (length (filter (λ p, partUserId p.1 = u) ps)))
    ∧ withdrawableBalance (walletOf db1 u) == withdrawableBalance (walletOf db u).
Proof.
  intros Hfee. revert db. induction ps as [|p ps IH]; intros db; simpl.
  - intros [= <-] u. simpl. split_and!; ring.
  - destruct (creditWallet_ok db (partUserId p.1) fee "REFUND" (Some g) Hfee)
      as (db' & r & -> & _ & _ & Hw & _).
    intros Hrun u. destruct (IH db' Hrun u) as (Hb & Hg & Hwd).
    destruct (decide (partUserId p.1 = u)) as [Hu|Hu].
    + rewrite filter_cons_True by done. cbn [length].
      rewrite Nat2Z.inj_succ, <- Z.add_1_r, inject_Z_plus.
      change (inject_Z 1) with 1%Q.
      assert (walletOf db' u = creditUpdate "REFUND" fee (walletOf db u)) as Hcredit.
      { apply walletOf_lookup. rewrite Hw, Hu. apply lookup_insert_eq. }
      rewrite Hcredit in Hb, Hg, Hwd. simpl in Hb, Hg, Hwd.
      split_and!; [rewrite Hb|rewrite Hg|rewrite Hwd]; ring.
    + rewrite filter_cons_False by done.
      assert (walletOf db' u = walletOf db u) as Hsame.
      { apply walletOf_wallets. rewrite Hw. by apply lookup_insert_ne. }
      by rewrite Hsame in Hb, Hg, Hwd.
Qed.

Lemma refundAll_others db fee g ps db1 r u :
  refundAll db fee g ps = (db1, r) →
  u ∉ map (λ p, partUserId p.1) ps →
  wallets db1 !! u = wallets db !! u.
Proof.
  revert db. induction ps as [|p ps IH]; intros db; simpl.
  - by intros [= <- <-].
  - intros Hrun Hu. apply not_elem_of_cons in Hu as [Hne Hu].
    unfold creditWallet, getWallet in Hrun. 
    destruct (Qle_bool fee 0); [by injection Hrun as <- <-|].
    destruct (wallets db !! partUserId p.1) eqn:E; simpl in Hrun;
      rewrite (IH _ Hrun Hu); simpl; rewrite ?lookup_insert_ne by done; done.
Qed.









End Ledger.

(** ** Session formation *)

Section Formation.
Import WalletService MatchmakingService MemoryGameService.

Lemma Qsum_app l1 l2 : Qsum (l1 ++ l2) == Qsum l1 + Qsum l2.
Proof.
  unfold Qsum. induction l1 as [|x l1 IH]; simpl.
  - symmetry. apply Qplus_0_l.
  - rewrite IH. apply Qplus_assoc.
Qed.

Lemma sessionTotal_app db db' g type l :
  transactions db' = transactions db ++ l →
  sessionTotal db' g type ==
    sessionTotal db g type + Qsum (map txAmount (filter (sessionKind g type) l)).
Proof.
  intros H. unfold sessionTotal. rewrite H, filter_app, map_app. apply Qsum_app.
Qed.

Lemma distinctByUser_NoDup seen l :
  NoDup (map qUserId (distinctByUser seen l))
  ∧ ∀ q, q ∈ distinctByUser seen l → qUserId q ∉ seen.
Proof.
  revert seen. induction l as [|q l IH]; intros seen; simpl.
  - split; [constructor|]. by intros ? ?%not_elem_of_nil.
  - case_bool_decide as Hin.
    + apply IH.
    + destruct (IH (qUserId q :: seen)) as [IH1 IH2]. split.
      * simpl. constructor; [|done].
        intros (q' & Heq & Hq')%list_elem_of_fmap.
        apply IH2 in Hq'. apply Hq'. rewrite Heq. by left.
      * intros q' [->|Hq']%elem_of_cons; [done|].
        apply IH2 in Hq'. intros ?. apply Hq'. by right.
Qed.

Lemma NoDup_take {A} (l : list A) n : NoDup l → NoDup (take n l).
Proof.
  intros H. rewrite <- (take_drop n l) in H. by apply NoDup_app in H as [? _].
Qed.

Lemma deductGameEntry_tables svc db u amount g svc1 db1 r :
  deductGameEntry svc db u amount g = (svc1, db1, r) →
  gameTable db1 = gameTable db
  ∧ gameParticipations db1 = gameParticipations db
  ∧ matchmakingQueue db1 = matchmakingQueue db
  ∧ users db1 = users db.
Proof.
  unfold deductGameEntry, deductGameEntry_tx, getWallet.
  repeat (case_match; simplify_eq/=); intros [= <- <- <-]; done.
Qed.

(** What the loop of [createGame] leaves behind when every deduction
    succeeds. *)
Lemma processEntries_ok wsvc db g fee i seen l wsvc' db' :
  processEntries wsvc db g fee i seen l = (wsvc', db', Return ()) →
  NoDup (map qUserId l) →
  (∀ q, q ∈ l → qUserId q ∉ seen) →
  ∃ debits parts,
    transactions db' = transactions db ++ debits
    ∧ Forall (λ t, txType t = "GAME_ENTRY" ∧ txGameId t = Some g
                   ∧ txStatus t = "COMPLETED" ∧ txAmount t = fee) debits
    ∧ length debits = (if Qltb 0 fee then length l else 0%nat)
    ∧ gameParticipations db' = gameParticipations db ++ parts
    ∧ Forall (λ p, partGameId p = g) parts
    ∧ length parts = length l
    ∧ gameTable db' = gameTable db.
Proof.
  revert wsvc db i seen.
  induction l as [|q l IH]; intros wsvc db i seen; simpl.
  - intros [= <- <-] _ _. exists [], []. rewrite !app_nil_r.
    repeat split; try done. by destruct (Qltb 0 fee).
  - intros H Hnd Hseen. apply NoDup_cons in Hnd as [Hq Hnd].
    rewrite bool_decide_eq_false_2 in H by (apply Hseen; by left).
    assert (Hrest : ∀ q', q' ∈ l → qUserId q' ∉ qUserId q :: seen).
    { intros q' Hq' [Heq|Hin]%elem_of_cons.
      - apply Hq. apply list_elem_of_fmap. by exists q'.
      - eapply Hseen; [by right|done]. }
    destruct (Qltb 0 fee) eqn:Hfee.
    + destruct (deductGameEntry wsvc db (qUserId q) fee g) as [[w1 d1] r] eqn:Hd.
      destruct r as [[b gb wb id|msg ? ?]|msg]; simpl in H; try discriminate.
      pose proof (deductGameEntry_tables _ _ _ _ _ _ _ _ Hd) as (Hg1 & Hp1 & _).
      apply deductGameEntry_ok_inv in Hd as (_ & _ & _ & _ & _ & Ht).
      apply IH in H as (debits & parts & Ht' & Hdeb & Hlen & Hp' & Hparts & Hlp & Hg');
        [|done|done].
      simpl in Hp', Hg', Ht'.
      eexists (_ :: debits), (_ :: parts).
      rewrite Ht', Ht, Hp', Hp1, Hg', Hg1, <- !app_assoc. simpl.
      repeat split; try done.
      * constructor; [done|done].
      * by rewrite Hlen.
      * constructor; [done|done].
      * by rewrite Hlp.
    + simpl in H.
      apply IH in H as (debits & parts & Ht' & Hdeb & Hlen & Hp' & Hparts & Hlp & Hg');
        [|done|done].
      simpl in Hp', Hg', Ht'.
      eexists debits, (_ :: parts).
      rewrite Ht', Hp', Hg', <- !app_assoc. simpl.
      repeat split; try done.
      * constructor; [done|done].
      * by rewrite Hlp.
Qed.

(** The seats [processEntries] hands out: one per entry, in order. *)
Lemma processEntries_parts wsvc db g fee i seen l wsvc' db' :
  processEntries wsvc db g fee i seen l = (wsvc', db', Return ()) →
  NoDup (map qUserId l) →
  (∀ q, q ∈ l → qUserId q ∉ seen) →
  gameParticipations db' =
    gameParticipations db
    ++ imap (λ j q, mkParticipation (qUserId q) g (i + j)
                      (nth ((i + j) mod 4) colors "red") 0) l
  ∧ matchmakingQueue db' = matchmakingQueue db.
Proof.
  revert wsvc db i seen.
  induction l as [|q l IH]; intros wsvc db i seen; simpl.
  - intros [= <- <-] _ _. by rewrite app_nil_r.
  - intros H Hnd Hseen. apply NoDup_cons in Hnd as [Hq Hnd].
    rewrite bool_decide_eq_false_2 in H by (apply Hseen; by left).
    assert (Hrest : ∀ q', q' ∈ l → qUserId q' ∉ qUserId q :: seen).
    { intros q' Hq' [Heq|Hin]%elem_of_cons.
      - apply Hq. apply list_elem_of_fmap. by exists q'.
      - eapply Hseen; [by right|done]. }
    assert (∀ d, imap (λ j q0, mkParticipation (qUserId q0) g (S i + j)
                       (nth ((S i + j) mod 4) colors "red") d) l
                 = imap ((λ j q0, mkParticipation (qUserId q0) g (i + j)
                                    (nth ((i + j) mod 4) colors "red") d) ∘ S) l) as Hshift.
    { intros d. apply imap_ext. intros j x _. simpl.
      by replace (i + S j)%nat with (S (i + j)) by lia. }
    rewrite Nat.add_0_r.
    destruct (Qltb 0 fee) eqn:Hfee.
    + destruct (deductGameEntry wsvc db (qUserId q) fee g) as [[w1 d1] r] eqn:Hd.
      destruct r as [[b gb wb id|msg ? ?]|msg]; simpl in H; try discriminate.
      pose proof (deductGameEntry_tables _ _ _ _ _ _ _ _ Hd) as (_ & Hp1 & Hq1 & _).
      apply IH in H as [Hp' Hq']; [|done|done]. simpl in Hp', Hq'.
      rewrite Hp', Hq', Hp1, Hq1, <- app_assoc, Hshift. done.
    + simpl in H. apply IH in H as [Hp' Hq']; [|done|done]. simpl in Hp', Hq'.
      rewrite Hp', Hq', <- app_assoc, Hshift. done.
Qed.

Lemma chosen_NoDup gt n f (queue : list QueueEntry) :
  NoDup (map qUserId
           (take n (distinctByUser []
                      (filter (λ q, same_config gt n f q = true) queue)))).
Proof. rewrite <- firstn_map. apply NoDup_take. apply distinctByUser_NoDup. Qed.

Lemma seats_positions g (l : list QueueEntry) (h : nat → nat) k :
  (∀ j, h j = (k + j)%nat) →
  map partPosition (imap (λ j q, mkParticipation (qUserId q) g (h j)
                                   (nth (h j mod 4) colors "red") 0) l)
  = seq k (length l).
Proof.
  revert k h. induction l as [|q l IH]; intros k h Hh; simpl; [done|].
  rewrite Hh, Nat.add_0_r. f_equal. apply (IH (S k) (h ∘ S)).
  intros j. simpl. rewrite Hh. lia.
Qed.

Lemma seats_users g (l : list QueueEntry) (h : nat → nat) :
  map partUserId (imap (λ j q, mkParticipation (qUserId q) g (h j)
                                 (nth (h j mod 4) colors "red") 0) l)
  = map qUserId l.
Proof.
  revert h. induction l as [|q l IH]; intros h; simpl; [done|].
  f_equal. apply (IH (h ∘ S)).
Qed.

(** The wallets after the loop of [createGame]: every chosen user has paid
    the fee once, and nobody else has paid. *)
Lemma processEntries_wallets wsvc db g fee i seen l wsvc' db' :
  (0 <= fee)%Q →
  processEntries wsvc db g fee i seen l = (wsvc', db', Return ()) →
  NoDup (map qUserId l) →
  (∀ q, q ∈ l → qUserId q ∉ seen) →
  (∀ u, u ∈ map qUserId l →
     balance (walletOf db' u) == balance (walletOf db u) - fee
     ∧ gameBalance (walletOf db' u) + withdrawableBalance (walletOf db' u)
       == gameBalance (walletOf db u) + withdrawableBalance (walletOf db u) - fee)
  ∧ (∀ u, u ∉ map qUserId l → wallets db' !! u = wallets db !! u).
Proof.
  intros Hfee. revert wsvc db i seen.
  induction l as [|q l IH]; intros wsvc db i seen; simpl.
  - intros [= <- <-] _ _. split; [by intros u ?%not_elem_of_nil|done].
  - intros H Hnd Hseen. apply NoDup_cons in Hnd as [Hq Hnd].
    rewrite bool_decide_eq_false_2 in H by (apply Hseen; by left).
    assert (Hrest : ∀ q', q' ∈ l → qUserId q' ∉ qUserId q :: seen).
    { intros q' Hq' [Heq|Hin]%elem_of_cons.
      - apply Hq. apply list_elem_of_fmap. by exists q'.
      - eapply Hseen; [by right|done]. }
    destruct (Qltb 0 fee) eqn:Hpos.
    + destruct (deductGameEntry wsvc db (qUserId q) fee g) as [[w1 d1] r] eqn:Hd.
      destruct r as [[b gb wb id|msg ? ?]|msg]; simpl in H; try discriminate.
      apply IH in H as [Hin Hout]; [|done|done].
      set (dmid := set_gameParticipations _ d1) in *.
      assert (Hmid : wallets dmid = wallets d1) by reflexivity.
      destruct (deductGameEntry_paid _ _ _ _ _ _ _ _ _ _ _ Hd) as [Hb Hs].
      split.
      * intros u [->|Hu]%elem_of_cons.
        -- assert (walletOf db' (qUserId q) = walletOf d1 (qUserId q)) as ->; [|done].
           apply walletOf_wallets. by rewrite (Hout _ Hq), Hmid.
        -- destruct (Hin u Hu) as [Hb' Hs'].
           assert (u ≠ qUserId q) as Hne by (intros ->; done).
           assert (walletOf dmid u = walletOf db u) as Hsame.
           { apply walletOf_wallets. rewrite Hmid.
             apply (deductGameEntry_others _ _ _ _ _ _ _ _ _ Hd Hne). }
           by rewrite Hsame in Hb', Hs'.
      * intros u [Hne Hu]%not_elem_of_cons. rewrite (Hout u Hu), Hmid.
        apply (deductGameEntry_others _ _ _ _ _ _ _ _ _ Hd Hne).
    + simpl in H. apply Qltb_ge in Hpos. assert (fee == 0) as Hzero by lra.
      apply IH in H as [Hin Hout]; [|done|done].
      set (dmid := set_gameParticipations _ db) in *.
      assert (Hmid : wallets dmid = wallets db) by reflexivity.
      split.
      * intros u [->|Hu]%elem_of_cons.
        -- assert (walletOf db' (qUserId q) = walletOf db (qUserId q)) as ->.
           { apply walletOf_wallets. by rewrite (Hout _ Hq), Hmid. }
           rewrite Hzero. split; ring.
        -- destruct (Hin u Hu) as [Hb' Hs'].
           assert (walletOf dmid u = walletOf db u) as Hsame
             by (by apply walletOf_wallets).
           by rewrite Hsame in Hb', Hs'.
      * intros u [Hne Hu]%not_elem_of_cons. by rewrite (Hout u Hu).
Qed.

Lemma Qsum_const (l : list Transaction) fee :
  Forall (λ t, txAmount t = fee) l →
  Qsum (map txAmount l) == fee * inject_Z (Z.of_nat (length l)).
Proof.
  unfold Qsum. induction 1 as [|t l Ht _ IH].
  - simpl. ring.
  - cbn [length map foldr]. rewrite IH, Ht, Nat2Z.inj_succ, <- Z.add_1_r, inject_Z_plus.
    ring.
Qed.

Lemma refundEntries_total n fee g ps type :
  Qsum (map txAmount (filter (sessionKind g type) (refundEntries n fee g ps))) ==
    if decide (type = "REFUND") then fee * inject_Z (Z.of_nat (length ps)) else 0.
Proof.
  destruct (decide (type = "REFUND")) as [->|Hne].
  - assert (filter (sessionKind g "REFUND") (refundEntries n fee g ps)
            = refundEntries n fee g ps) as ->.
    { revert n. induction ps as [|p ps IH]; intros n; simpl; [done|].
      rewrite filter_cons_True by done. by rewrite IH. }
    assert (length (refundEntries n fee g ps) = length ps) as Hlen.
    { revert n. induction ps as [|p ps IH]; intros n; simpl; [done|]. by rewrite IH. }
    rewrite (Qsum_const _ fee), Hlen; [reflexivity|].
    clear Hlen. revert n. induction ps; intros n; simpl; constructor; auto.
  - rewrite filter_none; [done|].
    intros t Hin (_ & Hty & _). revert n Hin.
    induction ps; intros n; simpl; [by intros ?%not_elem_of_nil|].
    intros [->|Hin]%elem_of_cons; [simpl in Hty; congruence|eauto].
Qed.

(** The settlement of a session whose winner is to be paid. *)
Lemma settle_winner svc db g w reason game :
  g ∉ processedWinnings svc →
  GameService.getGameById db g = Some game →
  find (is_completed_winning g) (transactions db) = None →
  truthy w = true → winner_reason reason = true →
  ∃ svc1 db1 r,
    safeProcessWinnings svc db g (Some w) reason = (svc1, db1, r)
    ∧ (((prizePool (GameService.game game) <= 0)%Q ∧ db1 = db)
       ∨ ((0 < prizePool (GameService.game game))%Q
          ∧ transactions db1 =
              transactions db
              ++ [mkTransaction (nextId db) w "GAME_WINNING"
                    (prizePool (GameService.game game)) "COMPLETED" (Some g)]
          ∧ wallets db1 =
              <[w := creditUpdate "GAME_WINNING" (prizePool (GameService.game game))
                       (walletOf db w)]> (wallets db))).
Proof.
  intros Hin Hg Hfind Hw Hr. unfold safeProcessWinnings.
  rewrite bool_decide_eq_false_2, Hg, Hfind, Hw, Hr by done.
  assert (string_eqb reason "network_issue" || string_eqb reason "server_error" = false)
    as ->.
  { unfold winner_reason, string_eqb in *.
    repeat case_bool_decide; subst; simpl in *; done. }
  simpl.
  destruct (Qle_bool (prizePool (GameService.game game)) 0) eqn:E.
  - apply Qle_bool_iff in E. rewrite (creditWallet_throw _ _ _ _ _ E).
    eexists _, _, _. split; [done|]. by left.
  - apply Qle_bool_false in E.
    destruct (creditWallet_ok db w (prizePool (GameService.game game))
                "GAME_WINNING" (Some g) E) as (db' & r & -> & Ht & _ & Hwal & _).
    eexists _, _, _. split; [done|]. by right.
Qed.

(** The settlement of a session that is refunded. *)
Lemma settle_refund svc db g game :
  g ∉ processedWinnings svc →
  GameService.getGameById db g = Some game →
  find (is_completed_winning g) (transactions db) = None →
  ∃ svc1 db1 r,
    safeProcessWinnings svc db g None "network_issue" = (svc1, db1, r)
    ∧ (((entryFee (GameService.game game) <= 0)%Q ∧ db1 = db)
       ∨ ((0 < entryFee (GameService.game game))%Q
          ∧ transactions db1 =
              transactions db
              ++ refundEntries (nextId db) (entryFee (GameService.game game)) g
                   (GameService.participants game)
          ∧ refundAll db (entryFee (GameService.game game)) g
              (GameService.participants game) = (db1, Return ()))).
Proof.
  intros Hin Hg Hfind. unfold safeProcessWinnings.
  rewrite bool_decide_eq_false_2, Hg, Hfind by done. simpl.
  destruct (Qle_bool (entryFee (GameService.game game)) 0) eqn:E.
  - apply Qle_bool_iff in E.
    destruct (refundAll _ _ _ _) as [db' [[]|msg]] eqn:Hr.
    + destruct (GameService.participants game) as [|p ps]; simpl in Hr.
      * inversion Hr; subst. eexists _, _, _. split; [done|]. by left.
      * rewrite (creditWallet_throw _ _ _ _ _ E) in Hr. discriminate.
    + apply refundAll_throw in Hr as ->. eexists _, _, _. split; [done|]. by left.
  - apply Qle_bool_false in E.
    destruct (refundAll_ok db (entryFee (GameService.game game)) g
                (GameService.participants game) E) as (db' & Hrun & Ht & _).
    rewrite Hrun. eexists _, _, _. split; [done|]. by right.
Qed.

Lemma createGame_ok show msvc wsvc db gameType n f g board msvc' wsvc' db' created :
  createGame show msvc wsvc db gameType n f g board =
    (msvc', wsvc', db', Return (Some created)) →
  ∃ debits parts,
    transactions db' = transactions db ++ debits
    ∧ Forall (λ t, txType t = "GAME_ENTRY" ∧ txGameId t = Some g
                   ∧ txStatus t = "COMPLETED" ∧ txAmount t = f) debits
    ∧ length debits = (if Qltb 0 f then n else 0%nat)
    ∧ gameParticipations db' = gameParticipations db ++ parts
    ∧ Forall (λ p, partGameId p = g) parts
    ∧ length parts = n
    ∧ gameTable db' !! g = Some (createdGame created)
    ∧ entryFee (createdGame created) = f
    ∧ prizePool (createdGame created)
      = toCents (jsMul (jsMul (parseFloat f) (inject_Z (Z.of_nat n))) (parseFloat (8 # 10)))
    ∧ createdParticipants created =
        filter (λ p, partGameId p = g) (gameParticipations db').
Proof.
  unfold createGame.
  set (queueEntries := take n _).
  destruct (length queueEntries <? n)%nat eqn:Hlen; [discriminate|].
  apply Nat.ltb_ge in Hlen.
  assert (length queueEntries = n) as Hn.
  { apply Nat.le_antisymm; [|done]. unfold queueEntries. rewrite length_take. lia. }
  destruct (processEntries _ _ _ _ _ _ _) as [[w d] [[]|msg]] eqn:Hp; [|discriminate].
  intros [= <- <- <- <-].
  apply processEntries_ok in Hp as (debits & parts & Ht & Hd & Hld & Hparts & Hfp & Hlp & Hg).
  - exists debits, parts. simpl in *. rewrite Hn in Hld, Hlp.
    repeat split; try done. rewrite Hg. apply lookup_insert_eq.
  - unfold queueEntries. rewrite <- firstn_map. apply NoDup_take.
    apply distinctByUser_NoDup.
  - intros q _. apply not_elem_of_nil.
Qed.

(** Who is seated by [createGame], and what the seated have paid. *)
Lemma createGame_seated show msvc wsvc db gameType n f g board msvc' wsvc' db' created :
  (0 <= f)%Q →
  createGame show msvc wsvc db gameType n f g board =
    (msvc', wsvc', db', Return (Some created)) →
  Forall (λ p, partGameId p ≠ g) (gameParticipations db) →
  NoDup (map partUserId (createdParticipants created))
  ∧ (∀ u, u ∈ map partUserId (createdParticipants created) →
       balance (walletOf db' u) == balance (walletOf db u) - f
       ∧ gameBalance (walletOf db' u) + withdrawableBalance (walletOf db' u)
         == gameBalance (walletOf db u) + withdrawableBalance (walletOf db u) - f)
  ∧ (∀ u, u ∉ map partUserId (createdParticipants created) →
       wallets db' !! u = wallets db !! u).
Proof.
  intros Hf. unfold createGame.
  set (queueEntries := take n _).
  destruct (length queueEntries <? n)%nat eqn:Hlen; [discriminate|].
  set (db2 := set_matchmakingQueue _ (set_games _ db)).
  destruct (processEntries _ _ _ _ _ _ _) as [[w d] [[]|msg]] eqn:Hp; [|discriminate].
  intros [= <- <- <- <-] Hold. simpl.
  pose proof Hp as Hp2.
  apply processEntries_parts in Hp as [Hparts _];
    [|apply chosen_NoDup|intros q _; apply not_elem_of_nil].
  apply processEntries_wallets in Hp2 as [Hin Hout];
    [|done|apply chosen_NoDup|intros q _; apply not_elem_of_nil].
  simpl in Hparts.
  assert (map partUserId (filter (λ p, partGameId p = g) (gameParticipations d))
          = map qUserId queueEntries) as Hseated.
  { rewrite Hparts, filter_app.
    rewrite (filter_none (λ p, partGameId p = g) (gameParticipations db)).
    2:{ intros p Hp'. rewrite Forall_forall in Hold. by apply Hold. }
    simpl. rewrite filter_all.
    - apply (seats_users g queueEntries (λ j, j)).
    - intros p Hp'. apply elem_of_lookup_imap in Hp' as (j & q & -> & _). done. }
  rewrite Hseated. split; [apply chosen_NoDup|]. split.
  - intros u Hu. destruct (Hin u Hu) as [Hb Hs].
    assert (walletOf db2 u = walletOf db u) as Hsame by (by apply walletOf_wallets).
    by rewrite Hsame in Hb, Hs.
  - intros u Hu. by rewrite (Hout u Hu).
Qed.

Lemma count_NoDup (l : list string) u :
  NoDup l → u ∈ l → length (filter (λ v, v = u) l) = 1%nat.
Proof.
  induction 1 as [|x l Hx Hnd IH]; [by intros ?%not_elem_of_nil|].
  intros [->|Hu]%elem_of_cons.
  - rewrite filter_cons_True by done. simpl. f_equal.
    rewrite filter_none; [done|]. intros y Hy ->. done.
  - rewrite filter_cons_False by (intros ->; done). by apply IH.
Qed.

Lemma count_users (ps : list (Participation * option User)) u :
  length (filter (λ p, partUserId p.1 = u) ps)
  = length (filter (λ v, v = u) (map (λ p, partUserId p.1) ps)).
Proof.
  induction ps as [|p ps IH]; [done|]. simpl.
  destruct (decide (partUserId p.1 = u)) as [Hu|Hu].
  - rewrite !filter_cons_True by done. simpl. by rewrite IH.
  - rewrite !filter_cons_False by done. done.
Qed.

Lemma find_none_Forall {A} (f : A → bool) (l : list A) :
  Forall (λ x, f x = false) l → find f l = None.
Proof. induction 1 as [|x l Hx _ IH]; simpl; [done|]. by rewrite Hx. Qed.

(** C4: a session formed by [createGame] under a new id, for [n] players
    and an entry fee [f >= 0] of whole hundredths, as the queue column holds
    it.  Debits: [n] users are seated, no user twice; the COMPLETED
    entry-fee debits of the session add up to [n * f]; every seated user's
    balance, and the sum of the game and the withdrawable balance, is down
    by [f], and no other wallet has changed.  Prize pool: it is the
    product [f * n * 0.8] as JavaScript computes it, kept to two decimals,
    and it lies between 0 and [n * f].  Winner outcome: at most one
    winning is booked, the winnings of the session add up to the prize pool
    and all are the winner's; the winner's balance and withdrawable balance
    are up by the prize pool and no other wallet has changed.  Refund
    outcome: the refunds of the session add up to [n * f]; every seated
    user's balance and game balance are up by [f], and no other wallet has
    changed. *)
Theorem createGame_conservation show msvc wsvc db gameType n f g board msvc' wsvc' db' created :
  (0 <= f)%Q → inCents f →
  freshSession db g →
  Forall (λ p, partGameId p ≠ g) (gameParticipations db) →
  truthy g = true → trim_is_empty g = false →
  createGame show msvc wsvc db gameType n f g board =
    (msvc', wsvc', db', Return (Some created)) →
  length (createdParticipants created) = n
  ∧ NoDup (map partUserId (createdParticipants created))
  ∧ sessionTotal db' g "GAME_ENTRY" == f * inject_Z (Z.of_nat n)
  ∧ (∀ u, u ∈ map partUserId (createdParticipants created) →
       balance (walletOf db' u) == balance (walletOf db u) - f
       ∧ gameBalance (walletOf db' u) + withdrawableBalance (walletOf db' u)
         == gameBalance (walletOf db u) + withdrawableBalance (walletOf db u) - f)
  ∧ (∀ u, u ∉ map partUserId (createdParticipants created) →
       walletOf db' u = walletOf db u)
  ∧ prizePool (createdGame created)
    = toCents (jsMul (jsMul (parseFloat f) (inject_Z (Z.of_nat n))) (parseFloat (8 # 10)))
  ∧ (0 <= prizePool (createdGame created))%Q
  ∧ (prizePool (createdGame created) <= f * inject_Z (Z.of_nat n))%Q
  ∧ (∀ svc w reason, g ∉ processedWinnings svc → truthy w = true →
       winner_reason reason = true →
       ∃ svc1 db1 r,
         safeProcessWinnings svc db' g (Some w) reason = (svc1, db1, r)
         ∧ (length (filter (sessionKind g "GAME_WINNING") (transactions db1)) <= 1)%nat
         ∧ sessionTotal db1 g "GAME_WINNING" == prizePool (createdGame created)
         ∧ Qsum (map txAmount (completedEntries db1 w g "GAME_WINNING")) ==
             prizePool (createdGame created)
         ∧ balance (walletOf db1 w)
           == balance (walletOf db' w) + prizePool (createdGame created)
         ∧ withdrawableBalance (walletOf db1 w)
           == withdrawableBalance (walletOf db' w) + prizePool (createdGame created)
         ∧ gameBalance (walletOf db1 w) == gameBalance (walletOf db' w)
         ∧ (∀ v, v ≠ w → walletOf db1 v = walletOf db' v))
  ∧ (∀ svc, g ∉ processedWinnings svc →
       ∃ svc1 db1 r,
         safeProcessWinnings svc db' g None "network_issue" = (svc1, db1, r)
         ∧ sessionTotal db1 g "REFUND" == f * inject_Z (Z.of_nat n)
         ∧ (∀ u, u ∈ map partUserId (createdParticipants created) →
              balance (walletOf db1 u) == balance (walletOf db' u) + f
              ∧ gameBalance (walletOf db1 u) == gameBalance (walletOf db' u) + f
              ∧ withdrawableBalance (walletOf db1 u)
                == withdrawableBalance (walletOf db' u))
         ∧ (∀ v, v ∉ map partUserId (createdParticipants created) →
              walletOf db1 v = walletOf db' v)).
Proof.
  intros Hf Hcents Hfresh Hfp Htr Hblank Hc.
  destruct (createGame_seated _ _ _ _ _ _ _ _ _ _ _ _ _ Hf Hc Hfp) as (Hnd & Hpaid & Hrest).
  apply createGame_ok in Hc
    as (debits & parts & Ht & Hd & Hld & Hparts & Hpg & Hlp & Hrow & Hfee & Hpool & Hcp).
  assert (Hnn : (0 <= inject_Z (Z.of_nat n))%Q).
  { change 0%Q with (inject_Z 0). rewrite <- Zle_Qle. lia. }
  assert (Hpool0 : (0 <= prizePool (createdGame created))%Q).
  { rewrite Hpool. apply toCents_nonneg. unfold jsMul, parseFloat.
    apply binary64_upper. apply Qmult_le_0_compat; [|by compute].
    apply binary64_upper. apply Qmult_le_0_compat; [|done].
    by apply binary64_upper. }
  assert (Hold : ∀ type, filter (sessionKind g type) (transactions db) = []).
  { intros type. apply filter_none. intros t Hin [Hg _].
    unfold freshSession in Hfresh. rewrite Forall_forall in Hfresh.
    by apply Hfresh in Hin. }
  assert (Hmine : filter (λ p, partGameId p = g) (gameParticipations db') = parts).
  { rewrite Hparts, filter_app.
    rewrite (filter_none _ (gameParticipations db)).
    - simpl. clear -Hpg. induction Hpg; [done|].
      rewrite filter_cons_True by done. by f_equal.
    - intros p Hin. rewrite Forall_forall in Hfp. by apply Hfp. }
  assert (Hgame : GameService.getGameById db' g =
            Some (GameService.mkGWP (createdGame created)
                    (map (λ p, (p, GameService.findUser db' (partUserId p)))
                       (GameService.participantsOf db' g)))).
  { unfold GameService.getGameById. by rewrite Htr, Hblank, Hrow. }
  assert (Hlenp : length (GameService.participantsOf db' g) = n).
  { unfold GameService.participantsOf.
    rewrite (Permutation_length (merge_sort_Permutation _ _)), Hmine. done. }
  assert (Hseats : map (λ p : Participation * option User, partUserId p.1)
                     (map (λ p, (p, GameService.findUser db' (partUserId p)))
                        (GameService.participantsOf db' g))
                   ≡ₚ map partUserId (createdParticipants created)).
  { rewrite map_map. simpl. unfold GameService.participantsOf.
    rewrite Hcp. apply Permutation_map. apply merge_sort_Permutation. }
  assert (Hnowin : find (is_completed_winning g) (transactions db') = None).
  { apply find_none_Forall. rewrite Ht. apply Forall_app. split.
    - unfold freshSession in Hfresh. eapply Forall_impl; [exact Hfresh|].
      intros t Hne. unfold is_completed_winning.
      by rewrite bool_decide_eq_false_2.
    - eapply Forall_impl; [exact Hd|]. intros t (Hty & _).
      unfold is_completed_winning, string_eqb. rewrite Hty.
      by rewrite andb_false_r. }
  assert (Hnew : ∀ type, type ≠ "GAME_ENTRY" →
            filter (sessionKind g type) (transactions db') = []).
  { intros type Hne. rewrite Ht, filter_app, Hold. simpl.
    apply filter_none. intros t Hin (_ & Hty & _).
    rewrite Forall_forall in Hd. apply Hd in Hin as (Hty' & _).
    congruence. }
  split; [by rewrite Hcp, Hmine|].
  split; [done|].
  split.
  { rewrite (sessionTotal_app db db' g "GAME_ENTRY" debits Ht).
    unfold sessionTotal at 1. rewrite Hold. unfold Qsum at 1. simpl.
    assert (filter (sessionKind g "GAME_ENTRY") debits = debits) as ->.
    { clear -Hd. induction Hd as [|t l (? & ? & ? & ?) _ IH]; [done|].
      rewrite filter_cons_True by done. by f_equal. }
    rewrite (Qsum_const _ f) by (eapply Forall_impl; [exact Hd|]; by intros t (_ & _ & _ & ?)).
    rewrite Hld. destruct (Qltb 0 f) eqn:E; [ring|].
    apply Qltb_ge in E. assert (f == 0) as -> by lra. simpl. ring. }
  split; [done|].
  split; [intros u Hu; apply walletOf_wallets; by apply Hrest|].
  split; [done|].
  split; [done|].
  split; [rewrite Hpool; by apply prizePool_le|].
  split.
  - intros svc w reason Hin Hw Hr.
    destruct (settle_winner svc db' g w reason _ Hin Hgame Hnowin Hw Hr)
      as (svc1 & db1 & r & Hs & Hcase); simpl in *.
    exists svc1, db1, r. split; [done|].
    destruct Hcase as [[Hle ->]|(Hlt & Ht1 & Hw1)].
    + assert (prizePool (createdGame created) == 0) as Hz by lra.
      unfold sessionTotal, completedEntries. rewrite Hnew by done. rewrite Hz.
      split; [simpl; lia|]. split; [done|].
      split.
      { rewrite (filter_none (ledgerKey w g "GAME_WINNING")); [done|].
        intros t Hin' (_ & Hg & Hty & Hst).
        assert (t ∈ filter (sessionKind g "GAME_WINNING") (transactions db')) as Hbad
          by (by apply list_elem_of_filter).
        rewrite Hnew in Hbad by done. by apply not_elem_of_nil in Hbad. }
      split_and!; try ring. done.
    + assert (walletOf db1 w
              = creditUpdate "GAME_WINNING" (prizePool (createdGame created))
                  (walletOf db' w)) as Hcredit.
      { apply walletOf_lookup. rewrite Hw1. apply lookup_insert_eq. }
      unfold sessionTotal, completedEntries. rewrite Ht1, !filter_app, Hnew by done.
      rewrite (filter_none (ledgerKey w g "GAME_WINNING") (transactions db')).
      * rewrite !filter_cons_True by done. rewrite Hcredit. simpl.
        unfold Qsum. simpl. split_and!; try ring; try lia.
        intros v Hv. apply walletOf_wallets. rewrite Hw1. by apply lookup_insert_ne.
      * intros t Hin' (_ & Hg & Hty & Hst).
        assert (t ∈ filter (sessionKind g "GAME_WINNING") (transactions db')) as Hbad
          by (by apply list_elem_of_filter).
        rewrite Hnew in Hbad by done. by apply not_elem_of_nil in Hbad.
  - intros svc Hin.
    destruct (settle_refund svc db' g _ Hin Hgame Hnowin)
      as (svc1 & db1 & r & Hs & Hcase); simpl in *.
    exists svc1, db1, r. split; [done|].
    destruct Hcase as [[Hle ->]|(Hlt & Ht1 & Hrun)].
    + unfold sessionTotal. rewrite Hnew by done. rewrite Hfee in Hle.
      assert (f == 0) as Hz by lra. split; [rewrite Hz; unfold Qsum; simpl; ring|].
      split; [|done]. intros u _. rewrite Hz. split_and!; ring.
    + split.
      { rewrite (sessionTotal_app db' db1 g "REFUND" _ Ht1).
        unfold sessionTotal. rewrite Hnew by done.
        rewrite refundEntries_total. simpl. rewrite length_map, Hlenp, Hfee.
        unfold Qsum. simpl. ring. }
      rewrite Hfee in Hrun, Hlt. split.
      * intros u Hu.
        destruct (refundAll_wallets _ _ _ _ _ Hlt Hrun u) as (Hb & Hgb & Hwb).
        rewrite count_users, Hseats in Hb, Hgb.
        rewrite (count_NoDup _ u Hnd Hu) in Hb, Hgb.
        change (inject_Z (Z.of_nat 1)) with 1%Q in Hb, Hgb.
        split_and!; [rewrite Hb; ring|rewrite Hgb; ring|done].
      * intros v Hv. apply walletOf_wallets.
        apply (refundAll_others _ _ _ _ _ _ _ Hrun). by rewrite Hseats.
Qed.
End Formation.

(** ** The board *)

Section Board.
Import MemoryGameService.

(** Writing [x] over an occurrence of [y] and putting [y] in front is a
    rearrangement of putting [x] in front. *)
Lemma insert_cons_Permutation (l : list Card) j x y :
  l !! j = Some y → y :: <[j := x]> l ≡ₚ x :: l.
Proof.
  revert j. induction l as [|a l IH]; intros [|j]; simpl; try done.
  - intros [= ->]. apply perm_swap.
  - intros Hj. rewrite (perm_swap a y), (IH j Hj). apply perm_swap.
Qed.

Lemma swap_Permutation cards i j : swap cards i j ≡ₚ cards.
Proof.
  unfold swap.
  destruct (cards !! i) as [ci|] eqn:Hi; [|done].
  destruct (cards !! j) as [cj|] eqn:Hj; [|done].
  revert i j Hi Hj. induction cards as [|a l IH]; intros [|i] [|j]; simpl; try done.
  - intros [= ->] [= ->]. done.
  - intros [= ->] Hj. by apply insert_cons_Permutation.
  - intros Hi [= ->]. rewrite (insert_cons_Permutation l i cj ci Hi). done.
  - intros Hi Hj. by rewrite (IH i j Hi Hj).
Qed.

(** The index drawn for position [i] lies in [0..i], so that [swap] always
    finds both cards. *)
Lemma seededRandom_index seedValue i :
  (0 <= seedValue)%Z →
  (0 <= (seededRandom seedValue).1 < 2147483647)%Z
  ∧ (Z.to_nat (Qfloor ((seededRandom seedValue).2 * inject_Z (Z.of_nat i + 1))) <= i)%nat.
Proof.
  intros Hs. unfold seededRandom. simpl.
  set (s' := Z.rem (seedValue * 16807) 2147483647).
  assert (0 <= s' < 2147483647)%Z as Hs' by (apply Z.rem_bound_pos; lia).
  split; [done|].
  set (x := (inject_Z s' / inject_Z 2147483647 * inject_Z (Z.of_nat i + 1))%Q).
  assert (Hx : (0 <= x)%Q ∧ (x < inject_Z (Z.of_nat i + 1))%Q).
  { assert (0 <= inject_Z s')%Q as H0 by (change 0%Q with (inject_Z 0); rewrite <- Zle_Qle; lia).
    assert (inject_Z s' < inject_Z 2147483647)%Q as H1 by (rewrite <- Zlt_Qlt; lia).
    assert (0 < inject_Z (Z.of_nat i + 1))%Q as H2
      by (change 0%Q with (inject_Z 0); rewrite <- Zlt_Qlt; lia).
    assert (0 < inject_Z 2147483647)%Q as HM by done.
    unfold x. split.
    - apply Qmult_le_0_compat; [|lra]. apply Qle_shift_div_l; [done|lra].
    - rewrite <- (Qmult_1_l (inject_Z (Z.of_nat i + 1))) at 2.
      apply Qmult_lt_compat_r; [done|]. apply Qlt_shift_div_r; [done|lra]. }
  destruct Hx as [Hx0 Hx1].
  assert (0 <= Qfloor x)%Z as Hf0.
  { change 0%Z with (Qfloor 0). by apply Qfloor_resp_le. }
  assert (Qfloor x < Z.of_nat i + 1)%Z as Hf1.
  { rewrite Zlt_Qlt. eapply Qle_lt_trans; [apply Qfloor_le|done]. }
  change (Z.to_nat (Qfloor x) <= i)%nat. lia.
Qed.

Lemma shufflePass_Permutation i seedValue cards :
  (shufflePass i seedValue cards).2 ≡ₚ cards.
Proof.
  revert seedValue cards. induction i as [|i IH]; intros seedValue cards; simpl; [done|].
  rewrite IH. apply swap_Permutation.
Qed.

Lemma shufflePasses_Permutation pass seedValue cards :
  (shufflePasses pass seedValue cards).2 ≡ₚ cards.
Proof.
  revert seedValue cards. induction pass as [|pass IH]; intros seedValue cards; simpl; [done|].
  pose proof (shufflePass_Permutation (length cards - 1) seedValue cards) as H.
  destruct (shufflePass _ _ _) as [s c]. simpl in H. by rewrite IH.
Qed.

Lemma symbol_imap_setPosition (l : list Card) :
  map symbol (imap setPosition l) = map symbol l.
Proof.
  assert (∀ k, map symbol (imap (λ i, setPosition (k + i)) l) = map symbol l) as H.
  { induction l as [|c l IH]; intros k; simpl; [done|]. f_equal.
    rewrite <- (IH (S k)). f_equal. apply imap_ext. intros i x _. simpl.
    by rewrite Nat.add_succ_r. }
  apply (H 0%nat).
Qed.

Lemma symbolCount_map sym (l : list Card) :
  symbolCount sym l = length (filter (λ s, s = sym) (map symbol l)).
Proof.
  unfold symbolCount. induction l as [|c l IH]; simpl; [done|].
  destruct (decide (symbol c = sym)).
  - rewrite !filter_cons_True by done. simpl. by rewrite IH.
  - by rewrite !filter_cons_False.
Qed.

Lemma symbolCount_Permutation sym (l1 l2 : list Card) :
  map symbol l1 ≡ₚ map symbol l2 → symbolCount sym l1 = symbolCount sym l2.
Proof. intros H. rewrite !symbolCount_map. by rewrite H. Qed.

Lemma initialCards_pairs :
  Forall (λ sym, symbolCount sym initialCards = 2%nat) symbols
  ∧ Forall (λ c, symbol c ∈ symbols ∧ isFlipped c = false ∧ isMatched c = false)
      initialCards
  ∧ length initialCards = 30%nat
  ∧ length symbols = 15%nat ∧ NoDup symbols.
Proof.
  split; [|split; [|split; [done|split; [done|]]]].
  - apply (bool_decide_unpack _). by vm_compute.
  - apply (bool_decide_unpack _). by vm_compute.
  - apply (bool_decide_unpack _). by vm_compute.
Qed.

(** C9: [createGameBoard] never throws; the board has 30 cards, each of the
    15 distinct symbols is on exactly two of them, every card is face down
    and unmatched and carries its index as position; and for a non-empty room
    id the board does not depend on the clock. *)
Theorem createGameBoard_pairs roomId now :
  ∃ cards,
    createGameBoard roomId now = Return cards
    ∧ length cards = 30%nat
    ∧ length symbols = 15%nat ∧ NoDup symbols
    ∧ Forall (λ sym, symbolCount sym cards = 2%nat) symbols
    ∧ Forall (λ c, symbol c ∈ symbols ∧ isFlipped c = false ∧ isMatched c = false) cards
    ∧ (∀ i c, cards !! i = Some c → position c = i)
    ∧ (truthy roomId = true → ∀ now', createGameBoard roomId now' = Return cards).
Proof.
  destruct initialCards_pairs as (Hpairs & Hinit & Hlen & Hsyms & Hnd).
  unfold createGameBoard.
  pose proof (shufflePasses_Permutation 3 (seedOf roomId now) initialCards) as Hperm.
  destruct (shufflePasses 3 (seedOf roomId now) initialCards) as [s shuffled] eqn:Hsh.
  simpl in Hperm.
  set (cards := imap setPosition shuffled).
  assert (Hsym : map symbol cards ≡ₚ map symbol initialCards).
  { unfold cards. rewrite symbol_imap_setPosition. by apply fmap_Permutation. }
  assert (Hcount : Forall (λ sym, symbolCount sym cards = 2%nat) symbols).
  { eapply Forall_impl; [exact Hpairs|]. intros sym <-.
    by apply symbolCount_Permutation. }
  assert (Hcards : Forall (λ c, symbol c ∈ symbols ∧ isFlipped c = false
                                ∧ isMatched c = false) cards).
  { apply Forall_forall. intros c Hc. unfold cards in Hc.
    apply list_elem_of_lookup in Hc as [i Hc].
    rewrite list_lookup_imap in Hc.
    destruct (shuffled !! i) as [c0|] eqn:Hc0; [|done]. simpl in Hc.
    injection Hc as <-. simpl.
    assert (c0 ∈ initialCards) as Hin.
    { rewrite <- Hperm. by eapply list_elem_of_lookup_2. }
    rewrite Forall_forall in Hinit. by apply Hinit. }
  assert (forallb (λ c, (symbolCount (symbol c) cards =? 2)%nat) cards = true) as ->.
  { apply forallb_forall. intros c Hc. apply Nat.eqb_eq.
    rewrite Forall_forall in Hcards. rewrite Forall_forall in Hcount.
    apply Hcount. apply Hcards. by apply list_elem_of_In. }
  exists cards. split; [done|].
  split. { unfold cards. by rewrite length_imap, Hperm. }
  repeat split; try done.
  - intros i c. unfold cards. rewrite list_lookup_imap.
    destruct (shuffled !! i); [|done]. simpl. by intros [= <-].
  - intros Htruthy now'. unfold seedOf. rewrite Htruthy.
    unfold seedOf in Hsh. rewrite Htruthy in Hsh. rewrite Hsh.
    fold cards.
    assert (forallb (λ c, (symbolCount (symbol c) cards =? 2)%nat) cards = true) as ->;
      [|done].
    apply forallb_forall. intros c Hc. apply Nat.eqb_eq.
    rewrite Forall_forall in Hcards. rewrite Forall_forall in Hcount.
    apply Hcount. apply Hcards. by apply list_elem_of_In.
Qed.
End Board.

(** ** The session machine *)

Section Session.
Import WalletService MemoryGameService.

(** A rejected selection leaves the service as it was. *)
Lemma selectCard_error_unchanged svc socketUser data svc' msg :
  selectCard svc socketUser data = (svc', SelectError msg) → svc' = svc.
Proof.
  unfold selectCard. repeat case_match; intros [= ? ?]; subst; done.
Qed.

(** C5 (selectCard), where the code departs from the claim.  In [room1],
    just started, the first player A is to move and B is seated second.  A
    selection that arrives on the socket of B and names A in its payload is
    accepted: the card at position 0 is opened and recorded as the first
    card of the turn.  The raw handlers of [setupSocketHandlers] pass the
    payload as it came, and [selectCard] takes the player from
    [data.playerId] before it looks at the socket's user.  The same request
    without that field, or with the id of the socket's user in it as the
    [selectCard] handler of server.js writes it, is rejected with "Not your
    turn." and changes nothing. *)
Theorem selectCard_trusts_payload :
  turnSummary afterStart.1 "room1" = Some (["A"; "B"; "C"], 0%nat, "A", 0%nat, "playing")
  ∧ (∃ sym, impersonated.2 = CardOpened 0 sym 1 false)
  ∧ impersonated.1 ≠ afterStart.1
  ∧ turnSummary impersonated.1 "room1"
    = Some (["A"; "B"; "C"], 0%nat, "A", 1%nat, "playing")
  ∧ selectionOf impersonated.1 = Some [0%nat]
  ∧ selectCard afterStart.1 (Some "B") (mkCardData (Some "room1") None None (Some 0%Z))
    = (afterStart.1, SelectError "Not your turn.")
  ∧ selectCard afterStart.1 (Some "B") (pick "room1" "B" 0)
    = (afterStart.1, SelectError "Not your turn.").
Proof.
  split_and!.
  - vm_compute. reflexivity.
  - vm_compute. eexists. reflexivity.
  - intros H. apply (f_equal (λ svc, turnSummary svc "room1")) in H.
    vm_compute in H. discriminate H.
  - vm_compute. reflexivity.
  - vm_compute. reflexivity.
  - vm_compute. reflexivity.
  - vm_compute. reflexivity.
Qed.

(** X27 (selectCard): a selection is rejected, with nothing changed, when
    the game is not in play, when the player id the request resolves to,
    [data.playerId] or else the id of the socket's user, is not the id of
    the player to move, or while the previous pair is being resolved. *)
Theorem selectCard_turn_exclusive svc socketUser data gameId actor gs :
  jsOr (dataGameId data) (dataRoomId data) = Some gameId →
  jsOr (dataPlayerId data) socketUser = Some actor →
  games svc !! gameId = Some gs →
  status gs ≠ "playing" ∨ currentTurnPlayerId gs ≠ actor ∨ processingCards gs = true →
  ∃ msg,
    selectCard svc socketUser data = (svc, SelectError msg)
    ∧ (∀ z, dataPosition data = Some z → (0 <= z)%Z →
       (status gs ≠ "playing" → msg = "Game is not active.")
       ∧ (status gs = "playing" → currentTurnPlayerId gs ≠ actor → msg = "Not your turn.")
       ∧ (status gs = "playing" → currentTurnPlayerId gs = actor →
          msg = "Please wait, cards are being processed.")).
Proof.
  intros Hg Ha Hgs Hcond. unfold selectCard. rewrite Hg, Ha.
  destruct (dataPosition data) as [z|].
  2:{ eexists. split; [done|]. intros ? [=]. }
  destruct (z <? 0)%Z eqn:Hz.
  { eexists. split; [done|]. intros ? [= <-] ?. apply Z.ltb_lt in Hz. lia. }
  rewrite Hgs.
  destruct (string_eqb (status gs) "playing") eqn:Hs; simpl.
  2:{ apply string_eqb_false in Hs. eexists. split; [done|]. intros; by repeat split. }
  apply string_eqb_true in Hs.
  destruct (string_eqb (currentTurnPlayerId gs) actor) eqn:Hc; simpl.
  2:{ apply string_eqb_false in Hc. eexists. split; [done|]. intros; by repeat split. }
  apply string_eqb_true in Hc.
  destruct Hcond as [?|[?|Hp]]; [done|done|]. rewrite Hp.
  eexists. split; [done|]. intros; by repeat split.
Qed.

(** *** Turn timeout *)

Lemma flipBack_keeps sel b b' i c :
  flipBack sel b = (b', true) →
  b !! i = Some c → isFlipped c = false →
  ∃ c', b' !! i = Some c' ∧ isFlipped c' = false.
Proof.
  revert b c. induction sel as [|s sel IH]; intros b c; simpl.
  - intros [= <-] ? ?. eauto.
  - destruct (b !! selPosition s) as [cs|] eqn:Hs; [|discriminate].
    intros Hf Hi Hc. destruct (decide (selPosition s = i)) as [<-|Hne].
    + eapply IH; [exact Hf| |].
      * apply list_lookup_insert_eq. by eapply lookup_lt_Some.
      * done.
    + eapply IH; [exact Hf| |exact Hc]. by rewrite list_lookup_insert_ne.
Qed.

Lemma flipBack_ok sel b :
  Forall (λ s, selPosition s < length b) sel →
  ∃ b', flipBack sel b = (b', true) ∧ length b' = length b ∧ faceDown sel b'.
Proof.
  revert b. induction sel as [|s sel IH]; intros b Hall; simpl.
  - exists b. repeat split. constructor.
  - apply Forall_cons in Hall as [Hs Hall].
    destruct (lookup_lt_is_Some_2 b _ Hs) as [c Hc]. rewrite Hc.
    destruct (IH (<[selPosition s := setFlipped false c]> b)) as (b' & Hf & Hlen & Hdown).
    { eapply Forall_impl; [exact Hall|]. intros x Hx. simpl. by rewrite length_insert. }
    exists b'. split; [done|]. split; [by rewrite Hlen, length_insert|].
    constructor; [|done].
    eapply (flipBack_keeps _ _ _ _ (setFlipped false c)); [exact Hf| |done].
    by apply list_lookup_insert_eq.
Qed.

Lemma safeProcessWinnings_gameTable svc db g winnerId reason svc1 db1 r1 :
  safeProcessWinnings svc db g winnerId reason = (svc1, db1, r1) →
  gameTable db1 = gameTable db ∧ games svc1 = games svc.
Proof.
  unfold safeProcessWinnings.
  case_bool_decide; [by intros [= <- <- <-]|].
  destruct (GameService.getGameById db g) as [game|]; [|by intros [= <- <- <-]].
  destruct (find _ _); [by intros [= <- <- <-]|].
  destruct (_ || _).
  - destruct (refundAll _ _ _ _) as [db' [[]|msg]] eqn:E.
    + intros [= <- <- <-]. split; [|done].
      destruct (Qle_bool (entryFee (GameService.game game)) 0) eqn:Hfee.
      * apply Qle_bool_iff in Hfee.
        destruct (GameService.participants game); simpl in E; [by inversion E|].
        rewrite (creditWallet_throw _ _ _ _ _ Hfee) in E. discriminate.
      * apply Qle_bool_false in Hfee.
        destruct (refundAll_ok db _ g (GameService.participants game) Hfee)
          as (db'' & E' & _ & Hg & _).
        rewrite E in E'. by inversion E'.
    + apply refundAll_throw in E as ->. by intros [= <- <- <-].
  - destruct winnerId as [w|]; [|by intros [= <- <- <-]].
    destruct (_ && _); [|by intros [= <- <- <-]].
    destruct (Qle_bool (prizePool (GameService.game game)) 0) eqn:E.
    + apply Qle_bool_iff in E. rewrite (creditWallet_throw _ _ _ _ _ E).
      by intros [= <- <- <-].
    + apply Qle_bool_false in E.
      destruct (creditWallet_ok db w (prizePool (GameService.game game))
                  "GAME_WINNING" (Some g) E) as (db' & r & -> & _ & _ & _ & Hg & _).
      by intros [= <- <- <-].
Qed.

(** A game with a row in the store ends: it leaves the registry, and the
    row is FINISHED with the winner the end reason selects. *)
Lemma endGame_finishes svc db g endReason gs row :
  games svc !! g = Some gs →
  gameTable db !! g = Some row →
  ∃ svc' db' row',
    endGame svc db g endReason = (svc', db')
    ∧ games svc' !! g = None
    ∧ gameTable db' !! g = Some row'
    ∧ gameStatus row' = "FINISHED"
    ∧ winner row' = winnerOf gs endReason.
Proof.
  intros Hgs Hrow. unfold endGame, GameService.updateGameState. rewrite Hgs, Hrow.
  remember (set_games _ db) as db1 eqn:Hdb1.
  pose (row' := mkGame (gameType row) (maxPlayers row) (entryFee row) (prizePool row)
                  "FINISHED" (board gs) (currentTurnIndex gs) (winnerOf gs endReason)).
  assert (gameTable db1 !! g = Some row') as Hrow1
    by (subst db1; apply lookup_insert_eq).
  assert (∀ (s : t) (d : Store), gameTable d = gameTable db1 →
            games (delete_game s g) !! g = None
            ∧ gameTable d !! g = Some row'
            ∧ gameStatus row' = "FINISHED" ∧ winner row' = winnerOf gs endReason) as Hfin.
  { intros s d Hd. rewrite Hd. repeat split; [apply lookup_delete_eq|done]. }
  destruct (string_eqb endReason "network_issue").
  - destruct (safeProcessWinnings _ db1 g None _) as [[s d] r] eqn:E.
    apply safeProcessWinnings_gameTable in E as [Hg _].
    exists (delete_game s g), d, row'. split; [done|]. by apply Hfin.
  - destruct (winnerOf gs endReason) as [w|] eqn:Hw.
    + destruct (truthy w).
      * destruct (safeProcessWinnings _ db1 g (Some w) _) as [[s d] r] eqn:E.
        apply safeProcessWinnings_gameTable in E as [Hg _].
        exists (delete_game s g), d, row'. split; [done|]. by apply Hfin.
      * eexists _, db1, row'. split; [done|]. by apply Hfin.
    + eexists _, db1, row'. split; [done|]. by apply Hfin.
Qed.

Lemma findPlayer_Some u ps p :
  findPlayer u ps = Some p → playerId p = u ∧ p ∈ ps.
Proof.
  unfold findPlayer. intros H. apply find_some in H as [Hin Hid].
  apply string_eqb_true in Hid. split; [done|]. by apply list_elem_of_In.
Qed.

Lemma findPlayer_removed u ps :
  findPlayer u (filter (λ p, playerId p ≠ u) ps) = None.
Proof.
  unfold findPlayer. apply find_none_Forall. apply Forall_forall.
  intros p [Hne _]%list_elem_of_filter. by apply string_eqb_false.
Qed.

Lemma nextTurnState_ok gs :
  players gs ≠ [] →
  ∃ p, players gs !! ((currentTurnIndex gs + 1) mod length (players gs))%nat = Some p
       ∧ nextTurnState gs =
           Return (set_processingCards false
                     (set_selectedCards []
                        (set_currentTurnPlayerId (playerId p)
                           (set_currentTurnIndex
                              ((currentTurnIndex gs + 1) mod length (players gs))%nat gs)))).
Proof.
  intros Hne. unfold nextTurnState.
  destruct (lookup_lt_is_Some_2 (players gs)
              ((currentTurnIndex gs + 1) mod length (players gs))%nat) as [p Hp].
  { apply Nat.mod_upper_bound. destruct (players gs); [done|simpl; lia]. }
  exists p. by rewrite Hp.
Qed.

Lemma games_startTurnTimer svc g : games (startTurnTimer svc g) = games svc.
Proof. unfold startTurnTimer. by destruct (games svc !! g). Qed.

(** The game goes on with the same player seated: the turn passes. *)
Lemma resume_seated svc db g gs1 cp x :
  findPlayer (playerId cp) (players gs1) = Some x →
  Forall (λ s, selPosition s < length (board gs1)) (selectedCards gs1) →
  ∃ svc' gs',
    resumeAfterTimeout svc db g gs1 (Some cp) = (svc', db, Return ())
    ∧ games svc' !! g = Some gs'
    ∧ lifelines gs' = lifelines gs1
    ∧ players gs' = players gs1
    ∧ faceDown (selectedCards gs1) (board gs')
    ∧ selectedCards gs' = [].
Proof.
  intros Hseat Hsel. unfold resumeAfterTimeout.
  destruct (flipBack_ok _ _ Hsel) as (b & -> & _ & Hdown).
  simpl players. rewrite Hseat.
  unfold nextTurn. simpl games. rewrite lookup_insert_eq.
  destruct (nextTurnState_ok (set_board b gs1)) as (p & Hp & ->).
  { simpl. apply findPlayer_Some in Hseat as [_ Hin]. intros E. rewrite E in Hin.
    by apply not_elem_of_nil in Hin. }
  eexists _, _. split; [done|].
  rewrite games_startTurnTimer. simpl. rewrite lookup_insert_eq.
  split; [done|]. by repeat split.
Qed.

(** The game goes on without the eliminated player: the turn stays on the
    same index. *)
Lemma resume_eliminated svc db g gs1 cp :
  findPlayer (playerId cp) (players gs1) = None →
  currentTurnIndex gs1 < length (players gs1) →
  Forall (λ s, selPosition s < length (board gs1)) (selectedCards gs1) →
  ∃ svc' gs',
    resumeAfterTimeout svc db g gs1 (Some cp) = (svc', db, Return ())
    ∧ games svc' !! g = Some gs'
    ∧ lifelines gs' = lifelines gs1
    ∧ players gs' = players gs1
    ∧ currentTurnIndex gs' = currentTurnIndex gs1
    ∧ selectedCards gs' = selectedCards gs1
    ∧ (∃ p, players gs' !! currentTurnIndex gs' = Some p
            ∧ currentTurnPlayerId gs' = playerId p)
    ∧ faceDown (selectedCards gs1) (board gs').
Proof.
  intros Hgone Hidx Hsel. unfold resumeAfterTimeout.
  destruct (flipBack_ok _ _ Hsel) as (b & -> & _ & Hdown).
  simpl players. rewrite Hgone. simpl currentTurnIndex.
  destruct (lookup_lt_is_Some_2 _ _ Hidx) as [p Hp]. rewrite Hp.
  eexists _, _. split; [done|].
  rewrite games_startTurnTimer. simpl. rewrite lookup_insert_eq.
  split; [done|]. repeat split; try done. by exists p.
Qed.

(** X28 (handleTurnTimeout): when the turn timer of a game fires while the
    player to move still has lifelines, that player loses one.  With
    lifelines left the game goes on with the same players, every selected
    card face down and the selection emptied.  With none left the player is
    removed from [players]: if one player remains, the game leaves the
    registry and its row is FINISHED with that player as winner; if two or
    more remain, the game goes on without the player, every selected card
    face down, but the selection is kept as it was. *)
Theorem handleTurnTimeout_lifeline svc db g gs cp k row :
  games svc !! g = Some gs →
  gameTable db !! g = Some row →
  findPlayer (currentTurnPlayerId gs) (players gs) = Some cp →
  lifelines gs !! playerId cp = Some (S k) →
  Forall (λ s, selPosition s < length (board gs)) (selectedCards gs) →
  ∃ svc' db' r,
    handleTurnTimeout svc db g = (svc', db', r)
    ∧ (k ≠ 0%nat →
       r = Return () ∧ db' = db
       ∧ ∃ gs', games svc' !! g = Some gs'
          ∧ lifelines gs' !! playerId cp = Some k
          ∧ players gs' = players gs
          ∧ faceDown (selectedCards gs) (board gs')
          ∧ selectedCards gs' = [])
    ∧ (k = 0%nat →
       (∀ p, filter (λ q, playerId q ≠ playerId cp) (players gs) = [p] →
          r = Return () ∧ games svc' !! g = None
          ∧ ∃ row', gameTable db' !! g = Some row'
             ∧ gameStatus row' = "FINISHED" ∧ winner row' = Some (playerId p))
       ∧ (2 <= length (filter (λ q, playerId q ≠ playerId cp) (players gs)) →
          r = Return () ∧ db' = db
          ∧ ∃ gs', games svc' !! g = Some gs'
             ∧ players gs' = filter (λ q, playerId q ≠ playerId cp) (players gs)
             ∧ lifelines gs' !! playerId cp = None
             ∧ faceDown (selectedCards gs) (board gs')
             ∧ selectedCards gs' = selectedCards gs)).
Proof.
  intros Hgs Hrow Hcp Hlife Hsel.
  destruct (findPlayer_Some _ _ _ Hcp) as [Hid Hin].
  unfold handleTurnTimeout. rewrite Hgs, Hcp. unfold deductLifeline. rewrite Hlife.
  set (gs1 := set_tables _ _ _ gs).
  destruct k as [|k]; simpl Nat.eqb; cbv iota.
  - (* the last lifeline: the player is eliminated *)
    set (gsR := removePlayer (playerId cp) gs1).
    set (rest := filter (λ q, playerId q ≠ playerId cp) (players gs)).
    change (players gsR) with rest.
    assert (Hlife' : ∀ i, lifelines (set_currentTurnIndex i gsR) !! playerId cp = None)
      by (intros i; apply lookup_delete_eq).
    destruct (length rest =? 1)%nat eqn:Hone.
    + apply Nat.eqb_eq in Hone.
      destruct (endGame_finishes (set_game svc g gsR) db g "opponent_eliminated" gsR row)
        as (svc' & db' & row' & He & Hnone & Hrow' & Hst & Hwin);
        [apply lookup_insert_eq|done|].
      rewrite He. exists svc', db', (Return ()). split; [done|].
      split; [done|]. intros _. split; [|lia].
      intros p Hp. split; [done|]. split; [done|].
      exists row'. split; [done|]. split; [done|].
      rewrite Hwin. unfold winnerOf. simpl. fold rest. by rewrite Hp.
    + apply Nat.eqb_neq in Hone.
      assert (∃ gsC, (if (length rest <=? currentTurnIndex gsR)%nat
                      then Continue (set_currentTurnIndex 0 gsR) else Continue gsR)
                     = Continue gsC
                ∧ players gsC = rest ∧ lifelines gsC !! playerId cp = None
                ∧ selectedCards gsC = selectedCards gs ∧ board gsC = board gs
                ∧ (2 <= length rest → currentTurnIndex gsC < length rest))
        as (gsC & -> & HpC & HlC & HsC & HbC & HiC).
      { destruct (length rest <=? currentTurnIndex gsR)%nat eqn:Hle.
        - eexists. split; [done|]. repeat split; try done. simpl. lia.
        - apply Nat.leb_gt in Hle. eexists. split; [done|].
          repeat split; try done. apply lookup_delete_eq. }
      destruct (decide (2 <= length rest)) as [Hrest|Hrest].
      * destruct (resume_eliminated svc db g gsC cp)
          as (svc' & gs' & -> & Hg' & Hl' & Hp' & _ & Hsel' & _ & Hdown).
        { rewrite HpC. apply findPlayer_removed. }
        { rewrite HpC. by apply HiC. }
        { by rewrite HsC, HbC. }
        exists svc', db, (Return ()). split; [done|]. split; [done|].
        intros _. split; [intros p Hp; rewrite Hp in Hrest; simpl in Hrest; lia|].
        intros _. split; [done|]. split; [done|]. exists gs'.
        rewrite Hp', Hl', Hsel', <- HsC. done.
      * destruct (resumeAfterTimeout svc db g gsC (Some cp)) as [[svc' db'] r].
        exists svc', db', r. split; [done|]. split; [done|].
        intros _. split; [|done].
        intros p Hp. rewrite Hp in Hone. done.
  - (* a lifeline is left: the turn passes *)
    destruct (resume_seated svc db g gs1 cp cp)
      as (svc' & gs' & -> & Hg' & Hl' & Hp' & Hdown & Hs').
    { by rewrite Hid. }
    { done. }
    exists svc', db, (Return ()). split; [done|]. split; [|done].
    intros _. split; [done|]. split; [done|]. exists gs'.
    rewrite Hl', Hp'. repeat split; try done. simpl. apply lookup_insert_eq.
Qed.
(** C6 (handleTurnTimeout), where the code departs from the claim.  In
    [room1] every player has let two turns time out, so that each is on the
    last lifeline, and the first player A, who is to move, has opened the
    card at position 0.  The timer fires: A is eliminated, B and C stay and
    B is to move, and the card lies face down again, but it is still in the
    selection.  The partial action is not reverted: the first card B opens
    counts as the second card of a pair and sends the turn to resolution,
    and B is refused the card at position 0 as already selected this
    turn. *)
Theorem handleTurnTimeout_keeps_selection :
  turnSummary lastLifeline.1 "room1" = Some (["A"; "B"; "C"], 0%nat, "A", 0%nat, "playing")
  ∧ lifelinesOf lastLifeline.1 "A" = Some 1%nat
  ∧ selectionOf oneCardOpen = Some [0%nat]
  ∧ eliminated.2 = Return ()
  ∧ turnSummary eliminated.1.1 "room1" = Some (["B"; "C"], 0%nat, "B", 1%nat, "playing")
  ∧ lifelinesOf eliminated.1.1 "A" = None
  ∧ selectionOf eliminated.1.1 = Some [0%nat]
  ∧ (∃ gs, games eliminated.1.1 !! "room1" = Some gs
           ∧ faceDown (selectedCards gs) (board gs))
  ∧ (∃ sym, nextSelection.2 = CardOpened 1 sym 2 true)
  ∧ selectCard eliminated.1.1 (Some "B") (pick "room1" "B" 0)
    = (eliminated.1.1, SelectError "Card already selected this turn.").
Proof.
  split_and!.
  - vm_compute. reflexivity.
  - vm_compute. reflexivity.
  - vm_compute. reflexivity.
  - vm_compute. reflexivity.
  - vm_compute. reflexivity.
  - vm_compute. reflexivity.
  - vm_compute. reflexivity.
  - destruct (games eliminated.1.1 !! "room1") as [gs|] eqn:Hgs.
    + exists gs. split; [done|].
      assert (Forall (λ s, (isFlipped <$> board gs !! selPosition s) = Some false)
                (selectedCards gs)) as Hdown.
      { assert (games eliminated.1.1 !! "room1" ≫= (λ gs,
                  Some (forallb (λ s, match board gs !! selPosition s with
                                      | Some c => negb (isFlipped c)
                                      | None => false
                                      end) (selectedCards gs))) = Some true) as Hall
          by (vm_compute; reflexivity).
        rewrite Hgs in Hall. simpl in Hall. injection Hall as Hall.
        rewrite forallb_forall in Hall. apply Forall_forall. intros x Hx.
        apply list_elem_of_In in Hx. specialize (Hall x Hx).
        destruct (board gs !! selPosition x) as [c|]; [|done].
        simpl. by destruct (isFlipped c). }
      unfold faceDown. eapply Forall_impl; [exact Hdown|].
      intros x Hx. simpl in Hx.
      destruct (board gs !! selPosition x) as [c|]; [|done].
      exists c. split; [done|]. by injection Hx.
    + exfalso. assert (is_Some (games eliminated.1.1 !! "room1")) as [gs Hs].
      { apply (bool_decide_unpack _). vm_compute. reflexivity. }
      congruence.
  - vm_compute. eexists. reflexivity.
  - vm_compute. reflexivity.
Qed.
End Session.

(** ** The waiting pool *)

Section Pool.
Import WalletService MatchmakingService.
Variable show : Q → string.

Lemma same_config_refl gt mp fee n u :
  same_config gt mp fee (mkQueueEntry n u gt mp fee) = true.
Proof.
  unfold same_config, string_eqb. simpl.
  rewrite bool_decide_eq_true_2 by done. rewrite Nat.eqb_refl.
  simpl. apply Qeq_bool_iff. reflexivity.
Qed.





Lemma find_Some_exists {A} (f : A → bool) (l : list A) x :
  x ∈ l → f x = true → ∃ y, find f l = Some y.
Proof.
  induction 1 as [x l|x y l _ IH]; simpl; intros Hx.
  - rewrite Hx. eauto.
  - destruct (f y); eauto.
Qed.





(** *** Backfill *)

Lemma getBotForMatchmaking_spec db gt fee newBotId pick :
  ∃ db' bot,
    BotService.getBotForMatchmaking db gt fee newBotId pick = (db', bot)
    ∧ matchmakingQueue db' =
        matchmakingQueue db ++ [mkQueueEntry (nextId db) (userId bot) gt 2 fee]
    ∧ isBot bot = true
    ∧ bot ∈ users db'.
Proof.
  unfold BotService.getBotForMatchmaking.
  assert (∃ db1 bot,
    match find (BotService.bot_available db) (users db) with
    | Some b => (db, b)
    | None => BotService.createBotUser db newBotId pick
    end = (db1, bot)
    ∧ matchmakingQueue db1 = matchmakingQueue db ∧ nextId db1 = nextId db
    ∧ isBot bot = true ∧ bot ∈ users db1) as (db1 & bot & -> & Hq & Hn & Hb & Hin).
  { destruct (find _ _) as [b|] eqn:Hf.
    - apply find_some in Hf as [Hin Hb]. exists db, b. repeat split; try done.
      + unfold BotService.bot_available in Hb. by destruct (isBot b).
      + by apply list_elem_of_In.
    - eexists _, _. split; [done|]. repeat split; try done.
      simpl. apply elem_of_app. right. by left. }
  set (db2 := match wallets db1 !! userId bot with Some _ => _ | None => _ end).
  assert (matchmakingQueue db2 = matchmakingQueue db ∧ nextId db2 = nextId db
          ∧ users db2 = users db1) as (Hq2 & Hn2 & Hu2).
  { unfold db2. destruct (wallets db1 !! userId bot); [|done].
    by destruct (_ && _). }
  exists (bump_nextId
            (set_matchmakingQueue
               (λ l, l ++ [mkQueueEntry (nextId db2) (userId bot) gt 2 fee]) db2)), bot.
  split; [done|]. simpl. rewrite Hq2, Hn2, Hu2. done.
Qed.

Lemma startsWith_app p r : startsWith (p ++ r)%string p = true.
Proof.
  unfold startsWith. induction p as [|c p IH]; simpl; [by destruct r|].
  destruct (Ascii.ascii_dec c c); [done|congruence].
Qed.

(** X29 (startBotDeploymentTimer, deployBotIfNeeded, getBotForMatchmaking,
    clearBotDeploymentTimer): the callback of a backfill timer that is still
    armed for a pool key removes the timer and then, when
    [0 < count < maxPlayers] entries wait under the key and one of them is a
    genuine player's, appends exactly one queue entry, of a bot user, for
    the same game type and fee and for two players, and schedules a matching
    pass: the two-player pool of that game type and fee grows by one, and a
    pool key of another party size is left as it was.  In every other case
    (count zero, count at least [maxPlayers], bots only) the store is
    unchanged and nothing is scheduled.  [startBotDeploymentTimer] arms the
    timer under the key this callback is looked up by, and a timer that
    [clearBotDeploymentTimer] has cancelled for the key does nothing when
    its time comes. *)
Theorem fireBotDeploymentTimer_backfill svc db key gt mp fee newBotId pick :
  botDeploymentTimers svc !! key = Some (gt, mp, fee) →
  ∃ db' scheduled,
    fireBotDeploymentTimer svc db key newBotId pick
    = (MatchmakingService.mk (delete key (botDeploymentTimers svc))
         (isProcessingMatchmaking svc), db', scheduled)
    ∧ ((0 < length (poolOf db gt mp fee) < mp ∧ 0 < length (humansOf db gt mp fee)) →
       scheduled = true
       ∧ ∃ bot,
           matchmakingQueue db' =
             matchmakingQueue db ++ [mkQueueEntry (nextId db) (userId bot) gt 2 fee]
           ∧ isBot bot = true ∧ bot ∈ users db'
           ∧ length (poolOf db' gt 2 fee) = S (length (poolOf db gt 2 fee))
           ∧ (mp ≠ 2%nat → poolOf db' gt mp fee = poolOf db gt mp fee))
    ∧ (¬ (0 < length (poolOf db gt mp fee) < mp ∧ 0 < length (humansOf db gt mp fee)) →
       db' = db ∧ scheduled = false)
    ∧ (∀ svc0 now,
         botDeploymentTimers (startBotDeploymentTimer show svc0 gt mp fee now)
           !! (queueKey show gt mp fee ++ "_" ++ pretty now)%string
         = Some (gt, mp, fee))
    ∧ (∀ svc0 now,
         fireBotDeploymentTimer
           (clearBotDeploymentTimer show
              (startBotDeploymentTimer show svc0 gt mp fee now) gt mp fee)
           db (queueKey show gt mp fee ++ "_" ++ pretty now)%string newBotId pick
         = (clearBotDeploymentTimer show
              (startBotDeploymentTimer show svc0 gt mp fee now) gt mp fee, db, false)).
Proof.
  intros Harmed.
  assert (Hstart : ∀ svc0 now,
         botDeploymentTimers (startBotDeploymentTimer show svc0 gt mp fee now)
           !! (queueKey show gt mp fee ++ "_" ++ pretty now)%string
         = Some (gt, mp, fee)).
  { intros svc0 now. unfold startBotDeploymentTimer. simpl. apply lookup_insert_eq. }
  assert (Htimer : ∀ svc0 now,
        fireBotDeploymentTimer
          (clearBotDeploymentTimer show
             (startBotDeploymentTimer show svc0 gt mp fee now) gt mp fee)
          db (queueKey show gt mp fee ++ "_" ++ pretty now)%string newBotId pick
        = (clearBotDeploymentTimer show
             (startBotDeploymentTimer show svc0 gt mp fee now) gt mp fee, db, false)).
  { intros svc0 now. unfold fireBotDeploymentTimer.
    assert (botDeploymentTimers
              (clearBotDeploymentTimer show
                 (startBotDeploymentTimer show svc0 gt mp fee now) gt mp fee)
            !! (queueKey show gt mp fee ++ "_" ++ pretty now)%string = None) as ->; [|done].
    unfold clearBotDeploymentTimer. simpl.
    apply map_lookup_filter_None. right. intros x _. simpl.
    by rewrite startsWith_app. }
  unfold fireBotDeploymentTimer. rewrite Harmed.
  unfold deployBotIfNeeded. fold (poolOf db gt mp fee). fold (humansOf db gt mp fee).
  destruct (0 <? length (poolOf db gt mp fee))%nat eqn:H0; simpl.
  2:{ apply Nat.ltb_ge in H0. eexists _, _. split; [done|].
      split; [lia|]. split; [done|]. done. }
  apply Nat.ltb_lt in H0.
  destruct (length (poolOf db gt mp fee) <? mp)%nat eqn:H1; simpl.
  2:{ apply Nat.ltb_ge in H1. eexists _, _. split; [done|].
      split; [lia|]. split; [done|]. done. }
  apply Nat.ltb_lt in H1.
  destruct (0 <? length (humansOf db gt mp fee))%nat eqn:H2.
  2:{ apply Nat.ltb_ge in H2. eexists _, _. split; [done|].
      split; [lia|]. split; [done|]. done. }
  apply Nat.ltb_lt in H2.
  destruct (getBotForMatchmaking_spec db gt fee newBotId pick)
    as (db' & bot & -> & Hq & Hb & Hin).
  exists db', true. split; [done|]. split; [|split; [lia|done]].
  intros _. split; [done|]. exists bot. split_and!; try done.
  - unfold poolOf. rewrite Hq, filter_app, length_app.
    rewrite filter_cons_True by apply same_config_refl. simpl. lia.
  - intros Hmp. unfold poolOf. rewrite Hq, filter_app.
    rewrite filter_cons_False; [by rewrite app_nil_r|].
    unfold same_config. cbn [qMaxPlayers].
    rewrite (proj2 (Nat.eqb_neq 2 mp)) by lia.
    rewrite andb_false_r. simpl. discriminate.
Qed.

(** C8 (startBotDeploymentTimer, deployBotIfNeeded, getBotForMatchmaking),
    where the code departs from the claim.  A genuine player joins the
    three-player pool of fee 50, which arms the backfill timer of that key;
    one entry waits, fewer than three.  The timer fires and a matching pass
    is scheduled, but [getBotForMatchmaking] writes the bot's entry with
    [maxPlayers: 2]: the pool of the key is what it was, one entry, and the
    bot waits in the two-player pool of the fee, where no genuine player
    is. *)
Theorem fireBotDeploymentTimer_wrong_pool :
  waitingForThree.2 = Return (JoinOk "Joined matchmaking queue" 0)
  ∧ botDeploymentTimers waitingForThree.1.1 !! "MEMORY_3_50_0" = Some ("MEMORY", 3%nat, 50%Q)
  ∧ poolOf waitingForThree.1.2 "MEMORY" 3 50 = [mkQueueEntry 0 "A" "MEMORY" 3 50]
  ∧ humansOf waitingForThree.1.2 "MEMORY" 3 50 = [mkQueueEntry 0 "A" "MEMORY" 3 50]
  ∧ backfilled.2 = true
  ∧ matchmakingQueue backfilled.1.2
    = [mkQueueEntry 0 "A" "MEMORY" 3 50; mkQueueEntry 1 "bot1" "MEMORY" 2 50]
  ∧ (isBot <$> GameService.findUser backfilled.1.2 "bot1") = Some true
  ∧ poolOf backfilled.1.2 "MEMORY" 3 50 = [mkQueueEntry 0 "A" "MEMORY" 3 50]
  ∧ poolOf backfilled.1.2 "MEMORY" 2 50 = [mkQueueEntry 1 "bot1" "MEMORY" 2 50]
  ∧ humansOf backfilled.1.2 "MEMORY" 2 50 = [].
Proof.
  split_and!; vm_compute; reflexivity.
Qed.
End Pool.

(** ** The turn invariant *)

Section TurnInvariant.
Import MemoryGameService.

(** [nextTurn] puts the pointer on a seated player and closes the
    selection. *)
Lemma nextTurnState_invariant gs gs' :
  nextTurnState gs = Return gs' → turnInvariant gs'.
Proof.
  unfold nextTurnState.
  destruct (players gs !! _) as [p|] eqn:Hp; [|discriminate].
  intros [= <-]. split; simpl; [lia|]. by exists p.
Qed.

(** An accepted selection keeps the invariant. *)
Lemma selectCard_invariant svc socketUser data svc' r g gs' :
  (∀ gs, games svc !! g = Some gs → turnInvariant gs) →
  selectCard svc socketUser data = (svc', r) →
  games svc' !! g = Some gs' → turnInvariant gs'.
Proof.
  intros Hinv. unfold selectCard.
  destruct (jsOr (dataGameId data) (dataRoomId data)) as [g0|];
    [|by intros [= <- <-]; apply Hinv].
  destruct (jsOr (dataPlayerId data) socketUser) as [actor|];
    [|by intros [= <- <-]; apply Hinv].
  destruct (dataPosition data) as [z|]; [|by intros [= <- <-]; apply Hinv].
  destruct (z <? 0)%Z; [by intros [= <- <-]; apply Hinv|].
  destruct (games svc !! g0) as [gs0|] eqn:Hg0; [|by intros [= <- <-]; apply Hinv].
  destruct (negb (string_eqb (status gs0) "playing"));
    [by intros [= <- <-]; apply Hinv|].
  destruct (negb (string_eqb (currentTurnPlayerId gs0) actor));
    [by intros [= <- <-]; apply Hinv|].
  destruct (processingCards gs0); [by intros [= <- <-]; apply Hinv|].
  destruct (board gs0 !! Z.to_nat z) as [card|]; [|by intros [= <- <-]; apply Hinv].
  destruct (isFlipped card || isMatched card); [by intros [= <- <-]; apply Hinv|].
  destruct (2 <=? length (selectedCards gs0))%nat eqn:Hlen;
    [by intros [= <- <-]; apply Hinv|].
  destruct (existsb _ (selectedCards gs0)); [by intros [= <- <-]; apply Hinv|].
  apply Nat.leb_gt in Hlen.
  assert (Hnew : ∀ (s : t) (b : bool),
            games s = <[g0 := set_processingCards b
                          (set_selectedCards
                             (selectedCards gs0
                              ++ [mkSelected (Z.to_nat z) (symbol card) (cardId card)])
                             (set_board (<[Z.to_nat z := setFlipped true card]> (board gs0))
                                (set_processingCards true gs0)))]> (games svc) →
            games s !! g = Some gs' → turnInvariant gs').
  { intros s b -> Hg'. destruct (decide (g0 = g)) as [->|Hne].
    - rewrite lookup_insert_eq in Hg'. injection Hg' as <-.
      destruct (Hinv _ Hg0) as [_ Hp]. split; [|exact Hp].
      simpl. rewrite length_app. simpl. lia.
    - rewrite lookup_insert_ne in Hg' by done. by apply Hinv. }
  destruct (_ =? 2)%nat; intros [= <- <-] Hg';
    [apply (Hnew _ true) in Hg'|apply (Hnew _ false) in Hg']; done.
Qed.

(** [endGame] removes the game from the registry or leaves the registry as
    it is; it never rewrites a game state. *)
Lemma endGame_games svc db g endReason :
  games (endGame svc db g endReason).1 = games svc
  ∨ games (endGame svc db g endReason).1 = delete g (games svc).
Proof.
  unfold endGame. destruct (games svc !! g) as [gs|]; [|by left].
  destruct (GameService.updateGameState _ _ _ _ _ _) as [db1|]; [|by left].
  right. destruct (string_eqb endReason "network_issue").
  - destruct (safeProcessWinnings _ _ _ _ _) as [[s d] r] eqn:E.
    apply safeProcessWinnings_gameTable in E as [_ Hs]. simpl. by rewrite Hs.
  - destruct (winnerOf gs endReason) as [w|]; [|done].
    destruct (truthy w); [|done].
    destruct (safeProcessWinnings _ _ _ _ _) as [[s d] r] eqn:E.
    apply safeProcessWinnings_gameTable in E as [_ Hs]. simpl. by rewrite Hs.
Qed.

(** After [endGame] the game is gone, or it is the state it was. *)
Lemma endGame_invariant svc db g endReason gs gs' :
  games svc !! g = Some gs → turnInvariant gs →
  games (endGame svc db g endReason).1 !! g = Some gs' → turnInvariant gs'.
Proof.
  intros Hg Hinv. destruct (endGame_games svc db g endReason) as [-> | ->].
  - rewrite Hg. by intros [= <-].
  - by rewrite lookup_delete_eq.
Qed.

Lemma bumpScore_lookup u ps i :
  playerId <$> (bumpScore u ps !! i) = playerId <$> (ps !! i).
Proof.
  revert i. induction ps as [|p ps IH]; intros i; simpl; [done|].
  destruct (string_eqb (playerId p) u); destruct i as [|i]; simpl; done.
Qed.

(** [startGame] leaves a started game with the pointer on the first player
    and no card selected. *)
Lemma startGame_invariant svc db roomId now gs' :
  (∀ gs, games svc !! roomId = Some gs → turnInvariant gs) →
  games (startGame svc db roomId now).1 !! roomId = Some gs' → turnInvariant gs'.
Proof.
  intros Hinv. unfold startGame.
  destruct (GameService.getGameById db roomId) as [game|]; [|apply Hinv].
  destruct (_ <? 2)%nat; [apply Hinv|].
  destruct (createGameBoard roomId now) as [initialBoard|]; [|apply Hinv].
  destruct (imap playerOfParticipant (GameService.participants game)) as [|first rest];
    [apply Hinv|].
  assert (∀ s : t * Store,
            games s.1 = <[roomId := mkGameState initialBoard (first :: rest) 0
                                      (playerId first) []
                                      (foldl (λ m player, <[playerId player := 0%Z]> m) ∅
                                         (first :: rest))
                                      (foldl (λ m player, <[playerId player := 3%nat]> m) ∅
                                         (first :: rest))
                                      (foldl (λ m player, <[playerId player := 0%nat]> m) ∅
                                         (first :: rest))
                                      0 15 "playing" false]> (games svc) →
            games s.1 !! roomId = Some gs' → turnInvariant gs') as Hnew.
  { intros s ->. rewrite lookup_insert_eq. intros [= <-].
    split; [simpl; lia|]. by exists first. }
  destruct (GameService.updateGameState _ _ _ _ _ _); by apply Hnew.
Qed.

(** A resolved pair keeps the invariant. *)
Lemma processMatch_invariant svc db g gs gs' :
  games svc !! g = Some gs → turnInvariant gs →
  games (processMatch svc db g).1 !! g = Some gs' → turnInvariant gs'.
Proof.
  intros Hg [Hlen (p & Hp & Hid)]. unfold processMatch. rewrite Hg.
  assert (Hsame : ∀ x, players x = players gs → currentTurnIndex x = currentTurnIndex gs →
                       currentTurnPlayerId x = currentTurnPlayerId gs →
                       (length (selectedCards x) <= 2)%nat → turnInvariant x).
  { intros x Hx1 Hx2 Hx3 Hx4. split; [done|]. exists p. by rewrite Hx1, Hx2, Hx3. }
  assert (Hput : ∀ x, turnInvariant x →
                      games (set_game svc g x) !! g = Some gs' → turnInvariant gs').
  { intros x Hx. simpl. rewrite lookup_insert_eq. by intros [= <-]. }
  assert (Hput' : ∀ x, turnInvariant x →
                      games (startTurnTimer (set_game svc g x) g) !! g = Some gs' →
                      turnInvariant gs').
  { intros x Hx. rewrite games_startTurnTimer. by apply Hput. }
  destruct (selectedCards gs) as [|card1 [|card2 [|card3 l]]] eqn:Hsel;
    try (simpl; rewrite Hg; by intros [= <-]; split; [rewrite Hsel|exists p]).
  destruct (string_eqb (selSymbol card1) (selSymbol card2)).
  - destruct (board gs !! selPosition card1) as [c1|];
      [|simpl; apply Hput; apply Hsame; simpl; try done; lia].
    cbv zeta.
    destruct (board _ !! selPosition card2) as [c2|];
      [|simpl; apply Hput; apply Hsame; simpl; try done; lia].
    destruct (findPlayer _ _) as [cp|];
      [|simpl; apply Hput; apply Hsame; simpl; try done; lia].
    assert (Hbump : ∀ x, players x = bumpScore (currentTurnPlayerId gs) (players gs) →
                         currentTurnIndex x = currentTurnIndex gs →
                         currentTurnPlayerId x = currentTurnPlayerId gs →
                         (length (selectedCards x) <= 2)%nat → turnInvariant x).
    { intros x Hx1 Hx2 Hx3 Hx4. split; [done|].
      pose proof (bumpScore_lookup (currentTurnPlayerId gs) (players gs)
                    (currentTurnIndex gs)) as Hb.
      rewrite Hp in Hb. rewrite Hx1, Hx2, Hx3.
      destruct (bumpScore _ _ !! _) as [q|]; [|done].
      exists q. split; [done|]. simpl in Hb. congruence. }
    destruct (_ <=? _)%nat.
    + apply (endGame_invariant _ _ _ _ _ _ (lookup_insert_eq _ _ _)).
      apply Hbump; simpl; try done. rewrite Hsel. simpl. lia.
    + simpl. apply Hput'. apply Hbump; simpl; try done. lia.
  - destruct (board gs !! selPosition card1) as [c1|];
      [|simpl; apply Hput; apply Hsame; simpl; try done; lia].
    cbv zeta.
    destruct (board _ !! selPosition card2) as [c2|];
      [|simpl; apply Hput; apply Hsame; simpl; try done; lia].
    destruct (nextTurnState _) as [gs3|] eqn:Hn;
      [|simpl; apply Hput; apply Hsame; simpl; try done; lia].
    simpl. apply Hput'. by eapply nextTurnState_invariant.
Qed.

Lemma deductLifeline_selected gs cp gs1 :
  deductLifeline gs cp = Continue gs1 → selectedCards gs1 = selectedCards gs.
Proof.
  unfold deductLifeline. destruct cp as [cp|]; [|by intros [= <-]].
  destruct (lifelines gs !! playerId cp) as [[|k]|]; try by intros [= <-].
  destruct (k =? 0)%nat; [|by intros [= <-]].
  destruct (_ =? 1)%nat; [discriminate|].
  destruct (_ <=? _)%nat; by intros [= <-].
Qed.

(** A timed-out turn keeps the invariant, when the handler returns and the
    game has its row in the store. *)
Lemma handleTurnTimeout_invariant svc db g gs gs' :
  games svc !! g = Some gs → turnInvariant gs →
  is_Some (gameTable db !! g) →
  (handleTurnTimeout svc db g).2 = Return () →
  games (handleTurnTimeout svc db g).1.1 !! g = Some gs' → turnInvariant gs'.
Proof.
  intros Hg [Hlen _] [row Hrow]. unfold handleTurnTimeout. rewrite Hg.
  destruct (deductLifeline gs _) as [gsL|gs1] eqn:Hd.
  - destruct (endGame_finishes (set_game svc g gsL) db g "opponent_eliminated" gsL row)
      as (svc' & db' & row' & -> & Hnone & _); [apply lookup_insert_eq|done|].
    simpl. by rewrite Hnone.
  - apply deductLifeline_selected in Hd. unfold resumeAfterTimeout.
    destruct (flipBack _ _) as [b [|]]; [|discriminate].
    set (gs2 := set_board b gs1).
    destruct (match findPlayer (currentTurnPlayerId gs) (players gs) with
              | Some cp => findPlayer (playerId cp) (players gs2)
              | None => None
              end) as [seated|].
    + unfold nextTurn. simpl games. rewrite lookup_insert_eq.
      destruct (nextTurnState gs2) as [gs3|] eqn:Hn; [|discriminate].
      simpl. intros _. rewrite games_startTurnTimer. simpl.
      rewrite lookup_insert_eq. intros [= <-]. by eapply nextTurnState_invariant.
    + destruct (players gs2 !! currentTurnIndex gs2) as [p|] eqn:Hp; [|discriminate].
      simpl. intros _. rewrite games_startTurnTimer. simpl.
      rewrite lookup_insert_eq. intros [= <-].
      split; [simpl; by rewrite Hd|]. by exists p.
Qed.

(** Reading the invariant off a summary. *)
Lemma summary_invariant svc g gs ids i p n st :
  turnSummary svc g = Some (ids, i, p, n, st) →
  games svc !! g = Some gs →
  turnInvariant gs ↔ (n <= 2)%nat ∧ ids !! i = Some p.
Proof.
  unfold turnSummary. intros Hs Hg. rewrite Hg in Hs. injection Hs as <- <- <- <- <-.
  unfold turnInvariant. rewrite list_lookup_fmap. split.
  - intros [Hn (q & -> & ->)]. done.
  - intros [Hn Hq]. split; [done|].
    destruct (players gs !! currentTurnIndex gs) as [q|]; [|done].
    injection Hq as Hq. by exists q.
Qed.

(** C10, evaluated at a reachable state: a three-player game is started and
    the first player lets the turn pass, so that the invariant holds with the
    pointer on the second player; when the first player then leaves,
    [handlePlayerExit] compacts [players] without moving [currentTurnIndex],
    and [currentTurnPlayerId] is no longer the player under the pointer. *)
Theorem handlePlayerExit_breaks_turn_pointer :
  turnSummary afterStart.1 "room1" = Some (["A"; "B"; "C"], 0%nat, "A", 0%nat, "playing")
  ∧ turnSummary afterTimeout.1.1 "room1"
    = Some (["A"; "B"; "C"], 1%nat, "B", 0%nat, "playing")
  ∧ (∀ gs, games afterTimeout.1.1 !! "room1" = Some gs → turnInvariant gs)
  ∧ turnSummary afterExit.1 "room1" = Some (["B"; "C"], 1%nat, "B", 0%nat, "playing")
  ∧ (∀ gs, games afterExit.1 !! "room1" = Some gs → ¬ turnInvariant gs).
Proof.
  assert (H2 : turnSummary afterTimeout.1.1 "room1"
               = Some (["A"; "B"; "C"], 1%nat, "B", 0%nat, "playing"))
    by (vm_compute; reflexivity).
  assert (H3 : turnSummary afterExit.1 "room1"
               = Some (["B"; "C"], 1%nat, "B", 0%nat, "playing"))
    by (vm_compute; reflexivity).
  split; [vm_compute; reflexivity|]. split; [exact H2|].
  split; [|split; [exact H3|]].
  - intros gs Hgs. apply (summary_invariant _ _ _ _ _ _ _ _ H2 Hgs).
    split; [lia|reflexivity].
  - intros gs Hgs Hinv. apply (summary_invariant _ _ _ _ _ _ _ _ H3 Hgs) in Hinv.
    destruct Hinv as [_ Hbad]. discriminate Hbad.
Qed.
End TurnInvariant.

(** ** The scenarios *)

Section Scenarios.
Import WalletService MatchmakingService MemoryGameService.





(** The formation of [g1]: two players with 100 each pay a fee of 50. *)
Lemma createGame_conservation_witness :
  sessionTotal formedStore "g1" "GAME_ENTRY" == 50 * inject_Z (Z.of_nat 2)
  ∧ (prizePool (createdGame createdG1) <= 50 * inject_Z (Z.of_nat 2))%Q
  ∧ balance (walletOf formedStore "A") == balance (walletOf twoWaitingStore "A") - 50.
Proof.
  destruct (createGame_conservation feeKey idleMatchmaking idleWallet twoWaitingStore "MEMORY" 2 50
              "g1" [] formed.1.1.1 formed.1.1.2 formed.1.2 createdG1)
    as (_ & _ & Hfees & Hpaid & _ & _ & _ & Hpool & _).
  - vm_compute. discriminate.
  - vm_compute. reflexivity.
  - vm_compute. apply Forall_nil_2.
  - vm_compute. apply Forall_nil_2.
  - vm_compute. reflexivity.
  - vm_compute. reflexivity.
  - vm_compute. reflexivity.
  - split; [exact Hfees|]. split; [exact Hpool|].
    apply (Hpaid "A"). apply (bool_decide_unpack _). vm_compute. reflexivity.
Defined.

(** The second player selects while the first is to move. *)
Lemma selectCard_turn_exclusive_witness :
  selectCard afterStart.1 None outOfTurn = (afterStart.1, SelectError "Not your turn.").
Proof.
  destruct (selectCard_turn_exclusive afterStart.1 None outOfTurn "room1" "B" startedGame)
    as (msg & H & Hmsg).
  - vm_compute. reflexivity.
  - vm_compute. reflexivity.
  - vm_compute. reflexivity.
  - right. left. vm_compute. discriminate.
  - destruct (Hmsg 3%Z) as (_ & Hturn & _).
    + vm_compute. reflexivity.
    + vm_compute. discriminate.
    + rewrite <- Hturn; [exact H|vm_compute; reflexivity|vm_compute; discriminate].
Defined.

(** The first turn of [room1] times out. *)
Lemma handleTurnTimeout_lifeline_witness :
  ∃ svc' db', handleTurnTimeout afterStart.1 afterStart.2 "room1" = (svc', db', Return ()).
Proof.
  destruct (handleTurnTimeout_lifeline afterStart.1 afterStart.2 "room1" startedGame
              (mkPlayer "A" "Asha" 0 0) 2 startedRow)
    as (svc' & db' & r & H & Hmore & _).
  - vm_compute. reflexivity.
  - vm_compute. reflexivity.
  - vm_compute. reflexivity.
  - vm_compute. reflexivity.
  - vm_compute. apply Forall_nil_2.
  - destruct Hmore as (-> & _); [discriminate|]. exists svc', db'. exact H.
Defined.



(** The timer of the two-player pool fires with one genuine player
    waiting. *)
Lemma fireBotDeploymentTimer_backfill_witness :
  ∃ db',
    (fireBotDeploymentTimer
       (startBotDeploymentTimer feeKey idleMatchmaking "MEMORY" 2 50 0)
       oneWaitingStore "MEMORY_2_50_0" "bot1" 0).1.2 = db'
    ∧ length (poolOf db' "MEMORY" 2 50) = 2%nat.
Proof.
  destruct (fireBotDeploymentTimer_backfill feeKey
              (startBotDeploymentTimer feeKey idleMatchmaking "MEMORY" 2 50 0)
              oneWaitingStore "MEMORY_2_50_0" "MEMORY" 2 50 "bot1" 0)
    as (db' & scheduled & H & Hyes & _).
  - vm_compute. reflexivity.
  - destruct Hyes as (_ & bot & _ & _ & _ & Hlen & _).
    + split; [split|]; vm_compute; lia.
    + exists db'. split; [by rewrite H|]. rewrite Hlen. vm_compute. reflexivity.
Defined.

(** The board of [room1] at two different times. *)
Lemma createGameBoard_pairs_witness :
  createGameBoard "room1" 0 = createGameBoard "room1" 1793000000000.
Proof.
  destruct (createGameBoard_pairs "room1" 0) as (cards & H & _ & _ & _ & _ & _ & _ & Hdet).
  rewrite H. symmetry. apply Hdet. vm_compute. reflexivity.
Defined.
End Scenarios.

(** * Further properties of the code *)

(** ** The rate limiter of the socket server *)

Section RateLimiter.
Import Server.

Lemma requests_window m u e mx w c r times :
  m !! (u ++ "_" ++ e)%string = Some (mkRateLimit c r) →
  Forall (λ t, t <= r)%nat times →
  requests m u e mx w times =
    replicate (length times `min` (mx - c)) true
    ++ replicate (length times - (mx - c)) false.
Proof.
  revert m c. induction times as [|now rest IH]; intros m c Hm Hall; [done|].
  apply Forall_cons in Hall as [Hnow Hrest].
  simpl. unfold checkRateLimit. rewrite Hm. simpl.
  destruct (r <? now)%nat eqn:Hexp; [apply Nat.ltb_lt in Hexp; lia|].
  destruct (mx <=? c)%nat eqn:Hfull.
  - apply Nat.leb_le in Hfull.
    rewrite (IH m c Hm Hrest).
    replace (mx - c)%nat with 0%nat by lia.
    rewrite !Nat.min_0_r, !Nat.sub_0_r. done.
  - apply Nat.leb_gt in Hfull.
    rewrite (IH _ (S c) (lookup_insert_eq _ _ _) Hrest).
    replace (mx - c)%nat with (S (mx - S c)) by lia.
    simpl. done.
Qed.

(** X1 (checkRateLimit): from the request that opens a window until the
    window's reset time, exactly the first [max 1 maxRequests] requests of a
    user and event type are let through and every later one is refused. *)
Theorem checkRateLimit_window m u e mx w t0 times :
  (∀ l, m !! (u ++ "_" ++ e)%string = Some l → (resetTime l < t0)%nat) →
  Forall (λ t, t <= t0 + w)%nat times →
  requests m u e mx w (t0 :: times) =
    replicate (S (length times) `min` (1 `max` mx)) true
    ++ replicate (S (length times) - (1 `max` mx)) false.
Proof.
  intros Hfresh Hall.
  assert (∃ m1, checkRateLimit m u e mx w t0 = (m1, true)
            ∧ m1 !! (u ++ "_" ++ e)%string = Some (mkRateLimit 1 (t0 + w))) as (m1 & Hstep & Hm1).
  { unfold checkRateLimit.
    destruct (m !! (u ++ "_" ++ e)%string) as [l|] eqn:Hm.
    - specialize (Hfresh l eq_refl). apply Nat.ltb_lt in Hfresh. rewrite Hfresh.
      eexists. split; [done|]. apply lookup_insert_eq.
    - eexists. split; [done|]. apply lookup_insert_eq. }
  simpl. rewrite Hstep.
  rewrite (requests_window m1 u e mx w 1 (t0 + w) times Hm1 Hall).
  destruct mx as [|mx].
  - simpl. rewrite Nat.min_0_r, Nat.sub_0_r. simpl.
    destruct (length times); done.
  - replace (1 `max` S mx)%nat with (S mx) by lia.
    replace (S mx - 1)%nat with mx by lia.
    simpl. done.
Qed.

Lemma checkRateLimit_window_witness :
  requests ∅ "u1" "selectCard" 2 50 [1; 2; 3; 51]%nat = [true; true; false; false].
Proof.
  apply (checkRateLimit_window ∅ "u1" "selectCard" 2 50 1 [2; 3; 51]%nat).
  - intros l Hl. rewrite lookup_empty in Hl. discriminate.
  - repeat constructor; lia.
Defined.

(** X2 (cleanupRateLimits, checkRateLimit): the periodic clean-up is
    invisible to the limiter: a request made after a clean-up gets the same
    answer, and leaves the same entry for its key, as without the
    clean-up. *)
Theorem cleanupRateLimits_transparent m u e mx w now now' :
  (now <= now')%nat →
  (checkRateLimit (cleanupRateLimits m now) u e mx w now').2
    = (checkRateLimit m u e mx w now').2
  ∧ (checkRateLimit (cleanupRateLimits m now) u e mx w now').1 !! (u ++ "_" ++ e)%string
    = (checkRateLimit m u e mx w now').1 !! (u ++ "_" ++ e)%string.
Proof.
  intros Hle. unfold checkRateLimit, cleanupRateLimits.
  destruct (m !! (u ++ "_" ++ e)%string) as [l|] eqn:Hm.
  - destruct (decide (resetTime l < now)%nat) as [Hexp|Hlive].
    + rewrite (proj2 (map_lookup_filter_None _ m _)).
      2:{ right. intros x Hx. rewrite Hm in Hx. injection Hx as <-. simpl. tauto. }
      assert ((resetTime l <? now')%nat = true) as -> by (apply Nat.ltb_lt; lia).
      simpl. by rewrite !lookup_insert_eq.
    + rewrite (proj2 (map_lookup_filter_Some _ m _ l)) by done.
      destruct (resetTime l <? now')%nat; simpl; [by rewrite !lookup_insert_eq|].
      destruct (mx <=? count l)%nat; simpl.
      * split; [done|]. rewrite Hm. apply map_lookup_filter_Some. done.
      * by rewrite !lookup_insert_eq.
  - rewrite (proj2 (map_lookup_filter_None _ m _)) by (by left).
    simpl. by rewrite !lookup_insert_eq.
Qed.

Lemma cleanupRateLimits_transparent_witness :
  (checkRateLimit (cleanupRateLimits {["u1_chat" := mkRateLimit 3 10]} 20) "u1" "chat" 3 50 25).2
  = (checkRateLimit {["u1_chat" := mkRateLimit 3 10]} "u1" "chat" 3 50 25).2.
Proof.
  apply (cleanupRateLimits_transparent {["u1_chat" := mkRateLimit 3 10]} "u1" "chat" 3 50 20 25).
  lia.
Defined.

End RateLimiter.

(** ** The socket manager *)

Section Sockets.
Import SocketManager.

Lemma size_zero (s : gset string) : (size s =? 0)%nat = true ↔ s = ∅.
Proof. rewrite Nat.eqb_eq. rewrite size_empty_iff. by unfold_leibniz. Qed.

Lemma not_elem_of_empty_default (x : string) : x ∈ default (∅ : gset string) None ↔ False.
Proof. simpl. split; [apply not_elem_of_empty | done]. Qed.

Lemma addMember_elem k x m k' x' :
  x' ∈ default ∅ (addMember k x m !! k') ↔
  (k' = k ∧ x' = x) ∨ x' ∈ default ∅ (m !! k').
Proof.
  unfold addMember. destruct (decide (k' = k)) as [->|Hk].
  - rewrite lookup_insert_eq. simpl. rewrite elem_of_union, elem_of_singleton. tauto.
  - rewrite lookup_insert_ne by done. tauto.
Qed.

Lemma addMember_nonempty k x m k' s :
  (∀ j t, m !! j = Some t → t ≠ ∅) → addMember k x m !! k' = Some s → s ≠ ∅.
Proof.
  unfold addMember. intros Hm. destruct (decide (k' = k)) as [->|Hk].
  - rewrite lookup_insert_eq. intros [= <-] He.
    apply (not_elem_of_empty (C := gset string) x). rewrite <- He.
    apply elem_of_union_r, elem_of_singleton. done.
  - rewrite lookup_insert_ne by done. apply Hm.
Qed.

Lemma dropMember_elem k x m k' x' :
  x' ∈ default ∅ (dropMember k x m !! k') ↔
  x' ∈ default ∅ (m !! k') ∧ ¬ (k' = k ∧ x' = x).
Proof.
  unfold dropMember. destruct (m !! k) as [s|] eqn:Hs.
  - destruct (size (s ∖ {[x]}) =? 0)%nat eqn:Hsz.
    + apply size_zero in Hsz.
      destruct (decide (k' = k)) as [->|Hk].
      * rewrite lookup_delete_eq, Hs. simpl. rewrite elem_of_empty.
        split; [done|]. intros [Hin Hne].
        apply (not_elem_of_empty (C := gset string) x'). rewrite <- Hsz.
        apply elem_of_difference. split; [done|]. rewrite elem_of_singleton. tauto.
      * rewrite lookup_delete_ne by done. tauto.
    + destruct (decide (k' = k)) as [->|Hk].
      * rewrite lookup_insert_eq, Hs. simpl.
        rewrite elem_of_difference, elem_of_singleton. tauto.
      * rewrite lookup_insert_ne by done. tauto.
  - destruct (decide (k' = k)) as [->|Hk]; [|tauto].
    rewrite Hs. simpl. rewrite elem_of_empty. tauto.
Qed.

Lemma dropMember_nonempty k x m k' s :
  (∀ j t, m !! j = Some t → t ≠ ∅) → dropMember k x m !! k' = Some s → s ≠ ∅.
Proof.
  unfold dropMember. intros Hm. destruct (m !! k) as [t|] eqn:Ht; [|apply Hm].
  destruct (size (t ∖ {[x]}) =? 0)%nat eqn:Hsz.
  - destruct (decide (k' = k)) as [->|Hk].
    + by rewrite lookup_delete_eq.
    + rewrite lookup_delete_ne by done. apply Hm.
  - destruct (decide (k' = k)) as [->|Hk].
    + rewrite lookup_insert_eq. intros [= <-] He. rewrite <- size_zero in He. congruence.
    + rewrite lookup_insert_ne by done. apply Hm.
Qed.

Lemma addConnection_consistent sm s u : consistent sm → consistent (addConnection sm s u).1.
Proof.
  intros (C1 & C2 & C3 & C4 & C5). repeat split; simpl; try done.
  - by apply C1.
  - by apply C1.
  - intros k t. apply addMember_nonempty, C2.
  - intros s' u'. unfold getUserSockets. simpl. rewrite addMember_elem.
    destruct (decide (s' = s)) as [->|Hs].
    + rewrite lookup_insert_eq. intros [= <-]. by left.
    + rewrite lookup_insert_ne by done. intros H. right. by apply C5.
Qed.

Lemma addUserToGame_consistent sm u g : consistent sm → consistent (addUserToGame sm u g).1.
Proof.
  intros (C1 & C2 & C3 & C4 & C5). repeat split; simpl; try done.
  - unfold getGameUsers, getUserGames. simpl. rewrite !addMember_elem.
    intros [[-> ->]|H]; [by left|]. right. by apply C1.
  - unfold getGameUsers, getUserGames. simpl. rewrite !addMember_elem.
    intros [[-> ->]|H]; [by left|]. right. by apply C1.
  - intros k t. apply addMember_nonempty, C3.
  - intros k t. apply addMember_nonempty, C4.
Qed.

Lemma removeUserFromGame_consistent sm u g :
  consistent sm → consistent (removeUserFromGame sm u g).1.
Proof.
  intros (C1 & C2 & C3 & C4 & C5). repeat split; simpl; try done.
  - unfold getGameUsers, getUserGames. simpl. rewrite !dropMember_elem.
    intros [H Hn]. split; [by apply C1 | tauto].
  - unfold getGameUsers, getUserGames. simpl. rewrite !dropMember_elem.
    intros [H Hn]. split; [by apply C1 | tauto].
  - intros k t. apply dropMember_nonempty, C3.
  - intros k t. apply dropMember_nonempty, C4.
Qed.

(** The loop of [removeUserFromAllGames], over any list of games. *)
Lemma leaveGames_spec u l sm :
  let sm' := foldl (λ s g, (removeUserFromGame s u g).1) sm l in
  (consistent sm → consistent sm')
  ∧ userSockets sm' = userSockets sm
  ∧ socketUsers sm' = socketUsers sm
  ∧ (∀ u' g', u' ∈ getGameUsers sm' g' ↔ u' ∈ getGameUsers sm g' ∧ ¬ (u' = u ∧ g' ∈ l))
  ∧ (∀ u' g', g' ∈ getUserGames sm' u' ↔ g' ∈ getUserGames sm u' ∧ ¬ (u' = u ∧ g' ∈ l))
  ∧ (l = [] → sm' = sm).
Proof.
  revert sm. induction l as [|g l IH]; intros sm; cbv zeta; cbn [foldl].
  - split_and!; try done.
    + intros u' g'. rewrite elem_of_nil. tauto.
    + intros u' g'. rewrite elem_of_nil. tauto.
  - pose proof (IH (removeUserFromGame sm u g).1) as H. cbv zeta in H.
    destruct H as (Hc & Hus & Hsu & Hr & Hg & _).
    split_and!.
    + intros H. by apply Hc, removeUserFromGame_consistent.
    + by rewrite Hus.
    + by rewrite Hsu.
    + intros u' g'. rewrite Hr. unfold getGameUsers. simpl.
      rewrite dropMember_elem, elem_of_cons. tauto.
    + intros u' g'. rewrite Hg. unfold getUserGames. simpl.
      rewrite dropMember_elem, elem_of_cons. tauto.
    + discriminate.
Qed.

Lemma removeUserFromAllGames_consistent sm u :
  consistent sm → consistent (removeUserFromAllGames sm u).1.
Proof.
  intros Hc. unfold removeUserFromAllGames.
  destruct (userGames sm !! u) as [G|]; [|done]. simpl.
  by apply (leaveGames_spec u (elements G) sm).
Qed.

(** After [removeUserFromAllGames] the user is in no room. *)
Lemma removeUserFromAllGames_spec sm u :
  consistent sm →
  let sm' := (removeUserFromAllGames sm u).1 in
  userSockets sm' = userSockets sm
  ∧ socketUsers sm' = socketUsers sm
  ∧ getUserGames sm' u = ∅
  ∧ ∀ g, u ∉ getGameUsers sm' g.
Proof.
  intros Hc. pose proof Hc as (C1 & _). unfold removeUserFromAllGames.
  destruct (userGames sm !! u) as [G|] eqn:HG; simpl.
  - pose proof (leaveGames_spec u (elements G) sm) as H. cbv zeta in H.
    destruct H as (_ & Hus & Hsu & Hr & Hg & _).
    split_and!; [done|done| |].
    + apply set_eq. intros g. rewrite Hg. unfold getUserGames at 1. rewrite HG. simpl.
      rewrite elem_of_elements, elem_of_empty. tauto.
    + intros g. rewrite Hr. intros [Hin Hn]. apply Hn. split; [done|].
      apply C1 in Hin. unfold getUserGames in Hin. rewrite HG in Hin.
      by apply elem_of_elements.
  - split_and!; [done|done|by unfold getUserGames; rewrite HG|].
    intros g Hin. apply C1 in Hin. unfold getUserGames in Hin. rewrite HG in Hin.
    by apply elem_of_empty in Hin.
Qed.

Lemma removeConnection_consistent sm s : consistent sm → consistent (removeConnection sm s).1.
Proof.
  intros Hc. pose proof Hc as (C1 & C2 & C3 & C4 & C5). unfold removeConnection.
  destruct (socketUsers sm !! s) as [u|] eqn:Hu; [|done].
  destruct (truthy u); [|done]. simpl.
  assert (∀ s' u', delete s (socketUsers sm) !! s' = Some u' →
            s' ≠ s ∧ s' ∈ getUserSockets sm u') as Hdel.
  { intros s' u' H. apply lookup_delete_Some in H as [Hne H]. split; [done|]. by apply C5. }
  destruct (userSockets sm !! u) as [S|] eqn:HS.
  - destruct (size (S ∖ {[s]}) =? 0)%nat eqn:Hsz; simpl.
    + apply size_zero in Hsz. apply removeUserFromAllGames_consistent.
      repeat split; simpl; try done.
      * by apply C1.
      * by apply C1.
      * intros k t H. apply lookup_delete_Some in H as [_ H]. by apply (C2 k).
      * intros s' u' H. apply Hdel in H as [Hne H]. unfold getUserSockets in *. simpl.
        destruct (decide (u' = u)) as [->|Hne'].
        -- rewrite HS in H. simpl in H. exfalso.
           apply (not_elem_of_empty (C := gset string) s'). rewrite <- Hsz.
           apply elem_of_difference. split; [done|]. by rewrite elem_of_singleton.
        -- by rewrite lookup_delete_ne.
    + repeat split; simpl; try done.
      * by apply C1.
      * by apply C1.
      * intros k t. destruct (decide (k = u)) as [->|Hk].
        -- rewrite lookup_insert_eq. intros [= <-] He. rewrite <- size_zero in He. congruence.
        -- rewrite lookup_insert_ne by done. apply C2.
      * intros s' u' H. apply Hdel in H as [Hne H]. unfold getUserSockets in *. simpl.
        destruct (decide (u' = u)) as [->|Hne'].
        -- rewrite lookup_insert_eq. rewrite HS in H. simpl in *.
           apply elem_of_difference. split; [done|]. by rewrite elem_of_singleton.
        -- by rewrite lookup_insert_ne.
  - repeat split; simpl; try done.
    + by apply C1.
    + by apply C1.
    + intros s' u' H. by apply Hdel in H as [Hne H].
Qed.

Lemma consistent_empty : consistent (mk ∅ ∅ ∅ ∅).
Proof.
  repeat split; simpl; try (intros *; rewrite lookup_empty; discriminate).
  - unfold getGameUsers. simpl. rewrite lookup_empty. simpl. intros H.
    by apply elem_of_empty in H.
  - unfold getUserGames. simpl. rewrite lookup_empty. simpl. intros H.
    by apply elem_of_empty in H.
Qed.

Lemma lastSocket_consistent sm s u S :
  consistent sm →
  userSockets sm !! u = Some S → S ∖ {[s]} = ∅ →
  consistent (mk (delete u (userSockets sm)) (delete s (socketUsers sm))
                 (gameRooms sm) (userGames sm)).
Proof.
  intros (C1 & C2 & C3 & C4 & C5) HS Hsz. split_and!; simpl; try done.
  - intros k t H. apply lookup_delete_Some in H as [_ H]. by apply (C2 k).
  - intros s' u' H. apply lookup_delete_Some in H as [Hne H]. apply C5 in H.
    unfold getUserSockets in *. simpl.
    destruct (decide (u' = u)) as [->|Hne'].
    + rewrite HS in H. simpl in H. exfalso.
      apply (not_elem_of_empty (C := gset string) s'). rewrite <- Hsz.
      apply elem_of_difference. split; [done|]. by rewrite elem_of_singleton.
    + by rewrite lookup_delete_ne.
Qed.

(** X4 (removeConnection): closing a socket takes its user out of every
    game room exactly when it was the user's last socket; while another
    socket of the user is open, the user stays online and the rooms are
    left as they are. *)
Theorem removeConnection_last_socket sm s u :
  consistent sm →
  socketUsers sm !! s = Some u →
  truthy u = true →
  getSocketUser (removeConnection sm s).1 s = None
  ∧ (getUserSockets sm u = {[s]} →
     isUserOnline (removeConnection sm s).1 u = false
     ∧ getUserGames (removeConnection sm s).1 u = ∅
     ∧ ∀ g, u ∉ getGameUsers (removeConnection sm s).1 g)
  ∧ (getUserSockets sm u ≠ {[s]} →
     isUserOnline (removeConnection sm s).1 u = true
     ∧ gameRooms (removeConnection sm s).1 = gameRooms sm
     ∧ userGames (removeConnection sm s).1 = userGames sm).
Proof.
  intros Hc Hu Ht. pose proof Hc as (C1 & C2 & C3 & C4 & C5).
  pose proof (C5 s u Hu) as Hin. unfold getUserSockets in *.
  unfold removeConnection. rewrite Hu, Ht. simpl.
  destruct (userSockets sm !! u) as [S|] eqn:HS; [|by apply elem_of_empty in Hin].
  simpl in *.
  destruct (size (S ∖ {[s]}) =? 0)%nat eqn:Hsz; simpl.
  - apply size_zero in Hsz.
    assert (S = {[s]}) as HS1.
    { apply set_eq. intros x. rewrite elem_of_singleton. split.
      - intros Hx. destruct (decide (x = s)) as [|Hne]; [done|]. exfalso.
        apply (not_elem_of_empty (C := gset string) x). rewrite <- Hsz.
        apply elem_of_difference. split; [done|]. by rewrite elem_of_singleton.
      - by intros ->. }
    pose proof (removeUserFromAllGames_spec _ u (lastSocket_consistent sm s u S Hc HS Hsz)) as H.
    cbv zeta in H. destruct H as (Hus & Hsu & Hg & Hr).
    split_and!.
    + unfold getSocketUser. rewrite Hsu. simpl. apply lookup_delete_eq.
    + intros _. split_and!; [|done|done].
      unfold isUserOnline. rewrite Hus. simpl. by rewrite lookup_delete_eq.
    + intros Hne. by destruct Hne.
  - split_and!.
    + unfold getSocketUser. simpl. apply lookup_delete_eq.
    + intros ->. exfalso.
      assert (size (({[s]} : gset string) ∖ {[s]}) = 0%nat) as H0.
      { apply size_empty_iff. intros x. rewrite elem_of_difference, elem_of_empty. tauto. }
      rewrite H0 in Hsz. discriminate.
    + intros _. split_and!; [|done|done].
      unfold isUserOnline. simpl. rewrite lookup_insert_eq.
      apply Nat.ltb_lt. apply Nat.eqb_neq in Hsz. lia.
Qed.

Lemma removeConnection_last_socket_witness :
  isUserOnline
    (removeConnection (addUserToGame (addConnection (mk ∅ ∅ ∅ ∅) "s1" "u1").1 "u1" "g1").1
       "s1").1 "u1" = false
  ∧ getGameUsers
      (removeConnection (addUserToGame (addConnection (mk ∅ ∅ ∅ ∅) "s1" "u1").1 "u1" "g1").1
         "s1").1 "g1" = ∅.
Proof.
  destruct (removeConnection_last_socket
              (addUserToGame (addConnection (mk ∅ ∅ ∅ ∅) "s1" "u1").1 "u1" "g1").1
              "s1" "u1") as (_ & Hlast & _).
  - apply addUserToGame_consistent, addConnection_consistent, consistent_empty.
  - vm_compute. reflexivity.
  - reflexivity.
  - destruct Hlast as (Hoff & _ & _); [vm_compute; reflexivity|].
    split; [exact Hoff|]. vm_compute. reflexivity.
Defined.

(** X3 (SocketManager): every operation of the socket manager keeps its
    registries consistent: a user is listed in a game room exactly when the
    room is listed among the user's games, no registry keeps an empty set,
    and every registered socket is listed among the sockets of its user. *)
Theorem socketManager_consistent sm :
  consistent sm →
  (∀ s u, consistent (addConnection sm s u).1)
  ∧ (∀ s, consistent (removeConnection sm s).1)
  ∧ (∀ u g, consistent (addUserToGame sm u g).1)
  ∧ (∀ u g, consistent (removeUserFromGame sm u g).1)
  ∧ (∀ u, consistent (removeUserFromAllGames sm u).1).
Proof.
  intros Hc. split_and!; intros.
  - by apply addConnection_consistent.
  - by apply removeConnection_consistent.
  - by apply addUserToGame_consistent.
  - by apply removeUserFromGame_consistent.
  - by apply removeUserFromAllGames_consistent.
Qed.

Lemma socketManager_consistent_witness :
  consistent (mk ∅ ∅ ∅ ∅)
  ∧ consistent (addUserToGame (addConnection (mk ∅ ∅ ∅ ∅) "s1" "u1").1 "u1" "g1").1.
Proof.
  split; [apply consistent_empty|].
  apply (socketManager_consistent (addConnection (mk ∅ ∅ ∅ ∅) "s1" "u1").1).
  apply (socketManager_consistent (mk ∅ ∅ ∅ ∅)). apply consistent_empty.
Defined.

End Sockets.

(** ** Forming a game *)

Section Matching.
Import WalletService.
Import MatchmakingService.

(** A debit that finds too little money. *)
Lemma deductGameEntry_short svc db u amount g :
  (0 < amount)%Q →
  deductionKey u g ∉ ongoingDeductions svc →
  filter (λ t, is_game_entry u g t = true) (transactions db) = [] →
  coversAmount (walletOf db u) amount = false →
  deductGameEntry svc db u amount g =
    (WalletService.mk (ongoingDeductions svc), (getWallet db u).1,
     Return (DeductFail "Insufficient balance" None None)).
Proof.
  intros Hpos Hkey Hnone Hlt. unfold deductGameEntry.
  assert (Qle_bool amount 0 = false) as -> by (by apply Qle_bool_false).
  rewrite bool_decide_eq_false_2 by done.
  rewrite Hnone. simpl reverse. cbv iota.
  rewrite add_remove_fresh by done.
  unfold walletOf, coversAmount in Hlt.
  destruct (getWallet db u) as [db1 w] eqn:Hgw. simpl in *.
  apply negb_false_iff in Hlt. by rewrite Hlt.
Qed.

(** A debit that goes through. *)
Lemma deductGameEntry_pays svc db u amount g :
  (0 < amount)%Q →
  deductionKey u g ∉ ongoingDeductions svc →
  filter (λ t, is_game_entry u g t = true) (transactions db) = [] →
  coversAmount (walletOf db u) amount = true →
  ∃ db' w',
    deductGameEntry svc db u amount g =
      (WalletService.mk (ongoingDeductions svc), db',
       Return (DeductOk (balance w') (gameBalance w') (withdrawableBalance w') (nextId db)))
    ∧ transactions db' =
        transactions db ++ [mkTransaction (nextId db) u "GAME_ENTRY" amount "COMPLETED" (Some g)]
    ∧ nextId db' = S (nextId db)
    ∧ wallets db' = <[u := w']> (wallets db)
    ∧ balance w' == balance (walletOf db u) - amount
    ∧ gameBalance w' + withdrawableBalance w' ==
        gameBalance (walletOf db u) + withdrawableBalance (walletOf db u) - amount
    ∧ gameTable db' = gameTable db
    ∧ gameParticipations db' = gameParticipations db
    ∧ matchmakingQueue db' = matchmakingQueue db
    ∧ users db' = users db.
Proof.
  intros Hpos Hkey Hnone Hge. unfold deductGameEntry.
  assert (Qle_bool amount 0 = false) as -> by (by apply Qle_bool_false).
  rewrite bool_decide_eq_false_2 by done.
  rewrite Hnone. simpl reverse. cbv iota.
  rewrite add_remove_fresh by done.
  unfold walletOf, coversAmount in *. unfold getWallet in *.
  apply negb_true_iff in Hge.
  destruct (wallets db !! u) as [w|] eqn:Hw; simpl in *.
  - rewrite Hge.
    unfold deductGameEntry_tx. rewrite Hnone. simpl. rewrite Hw.
    rewrite Hge.
    destruct (Qle_bool (parseFloat amount) (parseFloat (gameBalance w))) eqn:Hle.
    + eexists _, _. split; [reflexivity|].
      simpl. split_and!; try done; try lra.
    + eexists _, _. split; [reflexivity|].
      simpl. split_and!; try done; try lra.
  - rewrite Hge.
    unfold deductGameEntry_tx. simpl. rewrite Hnone. simpl. rewrite lookup_insert_eq.
    simpl. rewrite Hge.
    destruct (Qle_bool (parseFloat amount) (parseFloat 0)) eqn:Hle.
    + eexists _, _. split; [reflexivity|].
      simpl. rewrite insert_insert_eq. split_and!; try done; try lra.
    + eexists _, _. split; [reflexivity|].
      simpl. rewrite insert_insert_eq. split_and!; try done; try lra.
Qed.

(** X5 (createGame): a game that is formed seats the first [n] distinct
    users of the pool in their waiting order, at the positions 0 to n-1, no
    user twice, and removes exactly their waiting entries from the queue. *)
Theorem createGame_fifo show msvc wsvc db gt n f g board msvc' wsvc' db' created :
  createGame show msvc wsvc db gt n f g board =
    (msvc', wsvc', db', Return (Some created)) →
  Forall (λ p, partGameId p ≠ g) (gameParticipations db) →
  length (take n (distinctByUser [] (poolOf db gt n f))) = n
  ∧ createdParticipants created =
      imap (λ j q, mkParticipation (qUserId q) g j (nth (j mod 4) colors "red") 0)
        (take n (distinctByUser [] (poolOf db gt n f)))
  ∧ map partPosition (createdParticipants created) = seq 0 n
  ∧ NoDup (map partUserId (createdParticipants created))
  ∧ matchmakingQueue db' =
      filter (λ q, qId q ∉ map qId (take n (distinctByUser [] (poolOf db gt n f))))
        (matchmakingQueue db).
Proof.
  unfold createGame, poolOf.
  set (queueEntries := take n _).
  destruct (length queueEntries <? n)%nat eqn:Hlen; [discriminate|].
  apply Nat.ltb_ge in Hlen.
  assert (length queueEntries = n) as Hn.
  { apply Nat.le_antisymm; [|done]. unfold queueEntries. rewrite length_take. lia. }
  destruct (processEntries _ _ _ _ _ _ _) as [[w d] [[]|msg]] eqn:Hp; [|discriminate].
  intros [= <- <- <- <-] Hold. simpl.
  apply processEntries_parts in Hp as [Hparts Hqueue];
    [|apply chosen_NoDup|intros q _; apply not_elem_of_nil].
  simpl in Hparts, Hqueue.
  assert (filter (λ p, partGameId p = g) (gameParticipations d)
          = imap (λ j q, mkParticipation (qUserId q) g j (nth (j mod 4) colors "red") 0)
              queueEntries) as Hcreated.
  { rewrite Hparts, filter_app.
    rewrite (filter_none (λ p, partGameId p = g) (gameParticipations db)).
    2:{ intros p Hp'. rewrite Forall_forall in Hold. by apply Hold. }
    simpl. apply filter_all. intros p Hp'.
    apply elem_of_lookup_imap in Hp' as (j & q & -> & _). done. }
  split_and!; [done|done| | |done].
  - rewrite Hcreated. transitivity (seq 0 (length queueEntries)); [|by rewrite Hn].
    by apply (seats_positions g queueEntries (λ j, j) 0%nat).
  - rewrite Hcreated. rewrite (seats_users g queueEntries (λ j, j)). apply chosen_NoDup.
Qed.

Lemma createGame_fifo_witness :
  map partPosition (createdParticipants createdG1) = seq 0 2
  ∧ NoDup (map partUserId (createdParticipants createdG1)).
Proof.
  destruct (createGame_fifo feeKey idleMatchmaking idleWallet twoWaitingStore "MEMORY" 2 50
              "g1" [] formed.1.1.1 formed.1.1.2 formed.1.2 createdG1)
    as (_ & _ & Hpos & Hnd & _).
  - vm_compute. reflexivity.
  - vm_compute. apply Forall_nil_2.
  - split; [exact Hpos|exact Hnd].
Defined.

(** X6 (createGame): [createGame] answers [null] exactly when fewer than
    [n] distinct users wait in the pool, and then it changes nothing: no
    game row, no debit, no seat, and the bot timers stay armed. *)
Theorem createGame_needs_players show msvc wsvc db gt n f g board :
  ((createGame show msvc wsvc db gt n f g board).2 = Return None
   ↔ (length (distinctByUser [] (poolOf db gt n f)) < n)%nat)
  ∧ ((length (distinctByUser [] (poolOf db gt n f)) < n)%nat →
     createGame show msvc wsvc db gt n f g board = (msvc, wsvc, db, Return None)).
Proof.
  unfold createGame, poolOf.
  set (pool := distinctByUser [] _).
  destruct (length (take n pool) <? n)%nat eqn:Hlen.
  - apply Nat.ltb_lt in Hlen. rewrite length_take in Hlen.
    split; [|done]. split; [intros _; lia|done].
  - apply Nat.ltb_ge in Hlen. rewrite length_take in Hlen.
    split; [|intros; lia].
    destruct (processEntries _ _ _ _ _ _ _) as [[w d] [[]|msg]]; simpl.
    + split; [discriminate|lia].
    + split; [discriminate|lia].
Qed.

(** X7 (createGame, deductGameEntry): when the balances of the first chosen
    player pass the balance test of [deductGameEntry] for the entry fee and
    those of the second chosen player do not, the formation fails with
    "Wallet deduction failed" and its own tables are rolled back (the queue,
    the games and the seats are as before), but the entry fee already taken
    from the first player stays debited, booked as a COMPLETED GAME_ENTRY of
    a game that does not exist. *)
Theorem createGame_failure_keeps_debit show msvc wsvc db gt n f g board q1 q2 rest :
  take n (distinctByUser [] (poolOf db gt n f)) = q1 :: q2 :: rest →
  length (q1 :: q2 :: rest) = n →
  (0 < f)%Q →
  ongoingDeductions wsvc = ∅ →
  freshSession db g →
  coversAmount (walletOf db (qUserId q1)) f = true →
  coversAmount (walletOf db (qUserId q2)) f = false →
  ∃ db',
    createGame show msvc wsvc db gt n f g board =
      (msvc, wsvc, db', Throw "Wallet deduction failed")
    ∧ matchmakingQueue db' = matchmakingQueue db
    ∧ gameTable db' = gameTable db
    ∧ gameParticipations db' = gameParticipations db
    ∧ transactions db' =
        transactions db
        ++ [mkTransaction (nextId db) (qUserId q1) "GAME_ENTRY" f "COMPLETED" (Some g)]
    ∧ balance (walletOf db' (qUserId q1)) == balance (walletOf db (qUserId q1)) - f
    ∧ gameBalance (walletOf db' (qUserId q1)) + withdrawableBalance (walletOf db' (qUserId q1))
      == gameBalance (walletOf db (qUserId q1)) + withdrawableBalance (walletOf db (qUserId q1))
         - f.
Proof.
  intros Hchosen Hlen Hf Hidle Hfresh Hrich Hpoor.
  pose proof (chosen_NoDup gt n f (matchmakingQueue db)) as Hnd.
  unfold createGame. fold (poolOf db gt n f). unfold poolOf in Hnd |- *.
  unfold poolOf in Hchosen. rewrite Hchosen in Hnd |- *.
  rewrite Hlen, Nat.ltb_irrefl.
  simpl in Hnd. apply NoDup_cons in Hnd as [Hne _].
  assert (qUserId q1 ≠ qUserId q2) as Hne'.
  { intros Heq. apply Hne. rewrite Heq. left. }
  assert (∀ u d, transactions d = transactions db →
            filter (λ t, is_game_entry u g t = true) (transactions d) = []) as Hnone.
  { intros u d ->. apply filter_none. intros t Ht Hentry.
    unfold freshSession in Hfresh. rewrite Forall_forall in Hfresh. apply (Hfresh t Ht).
    unfold is_game_entry in Hentry.
    apply andb_prop in Hentry as [Hentry _]. apply andb_prop in Hentry as [Hentry _].
    apply andb_prop in Hentry as [_ Hentry]. by apply bool_decide_eq_true in Hentry. }
  destruct wsvc as [ongoing]. simpl in Hidle. subst ongoing.
  set (db2 := set_matchmakingQueue _ (set_games _ db)).
  cbn [processEntries]. rewrite bool_decide_eq_false_2 by apply not_elem_of_nil.
  rewrite (proj2 (Qltb_lt _ _) Hf).
  destruct (deductGameEntry_pays (WalletService.mk ∅) db2 (qUserId q1) f g)
    as (db3 & w1 & -> & Ht3 & Hn3 & Hw3 & Hbal & Hsum & Hg3 & Hp3 & Hq3 & Hu3);
    [done|apply not_elem_of_empty|by apply Hnone
    |by rewrite (walletOf_wallets db db2 _ eq_refl)|].
  rewrite (walletOf_wallets db db2 _ eq_refl) in Hsum, Hbal.
  cbn [negb]. cbv iota.
  rewrite bool_decide_eq_false_2 by (rewrite list_elem_of_singleton; congruence).
  rewrite deductGameEntry_short; [|done|apply not_elem_of_empty| |].
  - simpl. eexists. split; [reflexivity|]. simpl.
    rewrite (proj1 (getWallet_transactions _ _)). simpl. rewrite Ht3.
    split_and!; try done; [rewrite <- Hbal|rewrite <- Hsum];
    (assert (walletOf (mkStore (wallets (getWallet (set_gameParticipations
              (λ l, l ++ [mkParticipation (qUserId q1) g 0 "red" 0]) db3) (qUserId q2)).1)
              (transactions db2 ++ [mkTransaction (nextId db2) (qUserId q1) "GAME_ENTRY" f
                                      "COMPLETED" (Some g)])
              (users db) (matchmakingQueue db) (gameTable db) (gameParticipations db)
              (nextId (getWallet (set_gameParticipations
                 (λ l, l ++ [mkParticipation (qUserId q1) g 0 "red" 0]) db3) (qUserId q2)).1))
            (qUserId q1) = w1) as ->; [|done];
     apply walletOf_lookup; simpl;
     rewrite getWallet_other by done; simpl; rewrite Hw3; apply lookup_insert_eq).
  - simpl. rewrite Ht3. rewrite filter_app, (Hnone _ db2) by done. simpl.
    apply filter_none. intros t Ht Hentry. apply list_elem_of_singleton in Ht as ->.
    unfold is_game_entry in Hentry. simpl in Hentry.
    apply andb_prop in Hentry as [Hentry _]. apply andb_prop in Hentry as [Hentry _].
    apply andb_prop in Hentry as [Hentry _]. apply string_eqb_true in Hentry. done.
  - erewrite walletOf_wallets; [exact Hpoor|]. simpl. rewrite Hw3.
    by rewrite lookup_insert_ne.
Qed.

Lemma createGame_failure_keeps_debit_witness :
  ∃ db',
    createGame feeKey idleMatchmaking idleWallet unevenStore "MEMORY" 2 50 "g1" [] =
      (idleMatchmaking, idleWallet, db', Throw "Wallet deduction failed")
    ∧ matchmakingQueue db' = matchmakingQueue unevenStore
    ∧ transactions db' =
        [mkTransaction 2 "A" "GAME_ENTRY" 50 "COMPLETED" (Some "g1")].
Proof.
  destruct (createGame_failure_keeps_debit feeKey idleMatchmaking idleWallet unevenStore
              "MEMORY" 2 50 "g1" []
              (mkQueueEntry 0 "A" "MEMORY" 2 50) (mkQueueEntry 1 "B" "MEMORY" 2 50) [])
    as (db' & Hrun & Hqueue & _ & _ & Htx & _).
  - vm_compute. reflexivity.
  - reflexivity.
  - vm_compute. reflexivity.
  - reflexivity.
  - vm_compute. apply Forall_nil_2.
  - vm_compute. reflexivity.
  - vm_compute. reflexivity.
  - exists db'. split; [exact Hrun|]. split; [exact Hqueue|exact Htx].
Defined.

End Matching.

(** ** Bots *)

Section Bots.
Import BotService.

Lemma Qmax_ge_r a b : (b <= Qmax a b)%Q.
Proof.
  unfold Qmax. destruct (Qle_bool a b) eqn:H; [lra|].
  apply Qle_bool_false in H. lra.
Qed.

(** X8 (getBotForMatchmaking): the bot handed to matchmaking is a bot user
    that had no waiting entry, gets exactly one, and (bots having a wallet
    with a non-negative game balance) holds at least the entry fee in its
    game balance once it is enqueued. *)
Theorem getBotForMatchmaking_funded db gt fee newId pick :
  (0 <= fee)%Q →
  (∀ x, x ∈ users db → isBot x = true →
        ∃ w, wallets db !! userId x = Some w ∧ (0 <= gameBalance w)%Q) →
  entriesOf db newId = [] →
  isBot (getBotForMatchmaking db gt fee newId pick).2 = true
  ∧ (∃ w, wallets (getBotForMatchmaking db gt fee newId pick).1
            !! userId (getBotForMatchmaking db gt fee newId pick).2 = Some w
          ∧ (fee <= gameBalance w)%Q)
  ∧ entriesOf (getBotForMatchmaking db gt fee newId pick).1
      (userId (getBotForMatchmaking db gt fee newId pick).2)
    = [mkQueueEntry (nextId db) (userId (getBotForMatchmaking db gt fee newId pick).2) gt 2 fee].
Proof.
  intros Hfee Hwallets Hnew.
  unfold getBotForMatchmaking.
  assert (∃ db1 bot w,
    match find (bot_available db) (users db) with
    | Some b => (db, b)
    | None => createBotUser db newId pick
    end = (db1, bot)
    ∧ matchmakingQueue db1 = matchmakingQueue db ∧ nextId db1 = nextId db
    ∧ isBot bot = true
    ∧ wallets db1 !! userId bot = Some w ∧ (0 <= gameBalance w)%Q
    ∧ filter (λ q, qUserId q = userId bot) (matchmakingQueue db) = [])
    as (db1 & bot & w & -> & Hq & Hn & Hb & Hw & Hpos & Hfree).
  { destruct (find _ _) as [b|] eqn:Hf.
    - apply find_some in Hf as [Hin Hb]. apply list_elem_of_In in Hin.
      unfold bot_available in Hb.
      apply andb_prop in Hb as [Hb _]. apply andb_prop in Hb as [Hb Hqueue].
      destruct (Hwallets b Hin Hb) as (w & Hw & Hpos).
      exists db, b, w. split_and!; try done.
      apply filter_none. intros q Hq Heq.
      rewrite forallb_forall in Hqueue. apply list_elem_of_In in Hq.
      specialize (Hqueue q Hq). apply negb_true_iff, string_eqb_false in Hqueue. done.
    - eexists _, _, _. split; [done|]. simpl. split_and!; try done.
      + apply lookup_insert_eq.
      + simpl. lra. }
  simpl. rewrite Hw.
  set (db2 := if Qltb 0 fee && Qltb (gameBalance w) fee then _ else _).
  assert (matchmakingQueue db2 = matchmakingQueue db ∧ nextId db2 = nextId db
          ∧ ∃ w', wallets db2 !! userId bot = Some w' ∧ (fee <= gameBalance w')%Q)
    as (Hq2 & Hn2 & w' & Hw' & Hfunds).
  { unfold db2. destruct (Qltb 0 fee && Qltb (gameBalance w) fee) eqn:Hlow.
    - simpl. split_and!; [done|done|]. eexists. split; [apply lookup_insert_eq|].
      simpl. pose proof (Qmax_ge_r 1000 (fee * 10)). lra.
    - split_and!; [done|done|]. exists w. split; [done|].
      apply andb_false_iff in Hlow as [Hlow|Hlow]; apply Qltb_ge in Hlow; lra. }
  split_and!; [done| |].
  - exists w'. done.
  - unfold entriesOf. simpl. rewrite Hq2, Hn2, filter_app, Hfree. simpl.
    by rewrite filter_cons_True, filter_nil.
Qed.

Lemma getBotForMatchmaking_funded_witness :
  ∃ w, wallets (getBotForMatchmaking oneWaitingStore "MEMORY" 2000 "bot1" 0).1 !! "bot1" = Some w
       ∧ (2000 <= gameBalance w)%Q.
Proof.
  destruct (getBotForMatchmaking_funded oneWaitingStore "MEMORY" 2000 "bot1" 0)
    as (_ & Hw & _).
  - vm_compute. discriminate.
  - intros x Hx Hbot. exfalso. vm_compute in Hx.
    apply list_elem_of_singleton in Hx. subst x. discriminate Hbot.
  - vm_compute. reflexivity.
  - exact Hw.
Defined.

End Bots.

(** ** Coherence of the wallets *)

Section Coherence.
Import WalletService.
Import MatchmakingService.
Import MemoryGameService.

Lemma coherent_eq db db' : wallets db' = wallets db → coherentWallets db → coherentWallets db'.
Proof. intros H Hc u w. rewrite H. apply Hc. Qed.

Lemma coherent_insert db db' u w :
  wallets db' = <[u := w]> (wallets db) →
  balance w == gameBalance w + withdrawableBalance w →
  coherentWallets db → coherentWallets db'.
Proof.
  intros H Hw Hc v x. rewrite H. destruct (decide (v = u)) as [->|Hne].
  - rewrite lookup_insert_eq. by intros [= <-].
  - rewrite lookup_insert_ne by done. apply Hc.
Qed.

Lemma getWallet_coherent db u :
  coherentWallets db →
  coherentWallets (getWallet db u).1
  ∧ balance (getWallet db u).2 ==
      gameBalance (getWallet db u).2 + withdrawableBalance (getWallet db u).2.
Proof.
  intros Hc. unfold getWallet. destruct (wallets db !! u) as [w|] eqn:Hw; simpl.
  - split; [done|]. by apply (Hc u).
  - split; [|lra]. eapply coherent_insert; [reflexivity| |done]. simpl. lra.
Qed.

Lemma walletOf_coherent db u :
  coherentWallets db →
  balance (walletOf db u) == gameBalance (walletOf db u) + withdrawableBalance (walletOf db u).
Proof. intros Hc. by apply getWallet_coherent. Qed.

Lemma deductGameEntry_coherent svc db u amount g :
  coherentWallets db → coherentWallets (deductGameEntry svc db u amount g).1.2.
Proof.
  intros Hc. unfold deductGameEntry.
  destruct (Qle_bool amount 0); [done|].
  case_bool_decide; [done|].
  destruct (reverse _); [|done].
  pose proof (getWallet_coherent db u Hc) as [Hc1 Hw].
  pose proof (getWallet_lookup db u) as Hl.
  destruct (getWallet db u) as [db1 w]. simpl in *.
  destruct (Qltb _ _); [done|].
  unfold deductGameEntry_tx.
  destruct (filter _ _); simpl; [|done].
  rewrite Hl.
  destruct (Qltb _ _); simpl; [done|].
  destruct (Qle_bool (parseFloat amount) (parseFloat (gameBalance w))); simpl.
  - eapply coherent_insert; [reflexivity| |done]. simpl. lra.
  - eapply coherent_insert; [reflexivity| |done]. simpl. lra.
Qed.

Lemma creditUpdate_coherent type amount w :
  type ∈ creditTypes →
  balance w == gameBalance w + withdrawableBalance w →
  balance (creditUpdate type amount w) ==
    gameBalance (creditUpdate type amount w) + withdrawableBalance (creditUpdate type amount w).
Proof.
  intros Htype Hw. unfold creditTypes in Htype. unfold creditUpdate.
  repeat (apply elem_of_cons in Htype as [->|Htype]); [..|by apply elem_of_nil in Htype];
    vm_compute string_eqb; simpl; lra.
Qed.

Lemma creditWallet_coherent db u amount type g :
  type ∈ creditTypes →
  coherentWallets db → coherentWallets (creditWallet db u amount type g).1.
Proof.
  intros Htype Hc. destruct (Qlt_le_dec 0 amount) as [Hpos|Hneg].
  - destruct (creditWallet_ok db u amount type g Hpos) as (db' & r & -> & _ & _ & Hw & _).
    simpl. eapply coherent_insert; [exact Hw| |done].
    apply creditUpdate_coherent; [done|]. by apply walletOf_coherent.
  - by rewrite creditWallet_throw.
Qed.

Lemma refundAll_coherent db fee g ps :
  coherentWallets db → coherentWallets (refundAll db fee g ps).1.
Proof.
  revert db. induction ps as [|p ps IH]; intros db Hc; simpl; [done|].
  pose proof (creditWallet_coherent db (partUserId p.1) fee "REFUND" (Some g)) as H.
  destruct (creditWallet db (partUserId p.1) fee "REFUND" (Some g)) as [db1 [r|msg]].
  - apply IH. apply H; [|done]. unfold creditTypes. set_unfold. tauto.
  - apply H; [|done]. unfold creditTypes. set_unfold. tauto.
Qed.

Lemma safeProcessWinnings_coherent svc db g winnerId reason :
  coherentWallets db → coherentWallets (safeProcessWinnings svc db g winnerId reason).1.2.
Proof.
  intros Hc. unfold safeProcessWinnings.
  case_bool_decide as Hmark; [done|].
  destruct (GameService.getGameById db g) as [game|]; [|done].
  destruct (find _ _); [done|].
  destruct (_ || _).
  - pose proof (refundAll_coherent db (entryFee (GameService.game game)) g
                  (GameService.participants game) Hc) as H.
    by destruct (refundAll _ _ _ _) as [db1 [r|msg]].
  - destruct winnerId as [w|]; [|done].
    destruct (_ && _); [|done].
    pose proof (creditWallet_coherent db w (prizePool (GameService.game game))
                  "GAME_WINNING" (Some g)) as H.
    destruct (creditWallet _ _ _ _ _) as [db1 [r|msg]]; simpl in *;
      apply H; try done; unfold creditTypes; set_unfold; tauto.
Qed.

Lemma processEntries_coherent wsvc db g fee i seen l :
  coherentWallets db → coherentWallets (processEntries wsvc db g fee i seen l).1.2.
Proof.
  revert wsvc db i seen. induction l as [|q l IH]; intros wsvc db i seen Hc; simpl; [done|].
  case_bool_decide as Hseen; [by apply IH|].
  destruct (Qltb 0 fee).
  - pose proof (deductGameEntry_coherent wsvc db (qUserId q) fee g Hc) as H.
    destruct (deductGameEntry wsvc db (qUserId q) fee g) as [[w1 d1] r]. simpl in H.
    destruct r as [[b gb wb id|msg ? ?]|msg]; simpl; try done.
    apply IH. by eapply coherent_eq.
  - simpl. apply IH. by eapply coherent_eq.
Qed.

Lemma createGame_coherent show msvc wsvc db gt n f g board :
  coherentWallets db → coherentWallets (createGame show msvc wsvc db gt n f g board).1.2.
Proof.
  intros Hc. unfold createGame.
  destruct (_ <? _)%nat; [done|].
  match goal with
  | |- context [processEntries ?w ?d ?g' ?f' ?i ?s ?l] =>
      pose proof (processEntries_coherent w d g' f' i s l) as H;
      destruct (processEntries w d g' f' i s l) as [[w' d'] [r|msg]]
  end; simpl in *.
  - apply H. by eapply coherent_eq.
  - eapply coherent_eq; [|apply H; by eapply coherent_eq]. done.
Qed.

Lemma getBotForMatchmaking_coherent db gt fee newId pick :
  coherentWallets db →
  coherentWallets (BotService.getBotForMatchmaking db gt fee newId pick).1.
Proof.
  intros Hc. unfold BotService.getBotForMatchmaking.
  assert (∃ db1 bot,
    match find (BotService.bot_available db) (users db) with
    | Some b => (db, b)
    | None => BotService.createBotUser db newId pick
    end = (db1, bot) ∧ coherentWallets db1) as (db1 & bot & -> & Hc1).
  { destruct (find _ _) as [b|]; [by exists db, b|].
    eexists _, _. split; [done|]. simpl.
    eapply coherent_insert; [reflexivity| |exact Hc]. simpl. lra. }
  simpl. destruct (wallets db1 !! userId bot) as [w|] eqn:Hw.
  - destruct (_ && _).
    + eapply coherent_insert; [reflexivity| |exact Hc1]. simpl.
      pose proof (Hc1 _ _ Hw). lra.
    + by eapply coherent_eq.
  - by eapply coherent_eq.
Qed.

(** X9 (creditWallet, deductGameEntry and their callers): if every wallet's
    total equals the sum of its game balance and its withdrawable balance,
    this still holds after an entry-fee debit, a credit of one of the five
    types the code routes, a settlement, a bot deployment and a game
    formation, whatever their outcome; a credit of any other type with a
    valid amount raises the total alone and breaks the equation. *)
Theorem wallets_stay_coherent db :
  coherentWallets db →
  (∀ svc u amount g, coherentWallets (deductGameEntry svc db u amount g).1.2)
  ∧ (∀ u amount type g, type ∈ creditTypes →
       coherentWallets (creditWallet db u amount type g).1)
  ∧ (∀ svc g winnerId reason,
       coherentWallets (safeProcessWinnings svc db g winnerId reason).1.2)
  ∧ (∀ gt fee newId pick,
       coherentWallets (BotService.getBotForMatchmaking db gt fee newId pick).1)
  ∧ (∀ show msvc wsvc gt n f g board,
       coherentWallets (createGame show msvc wsvc db gt n f g board).1.2)
  ∧ (∀ u amount type g, (0 < amount)%Q → type ∉ creditTypes →
       ¬ coherentWallets (creditWallet db u amount type g).1).
Proof.
  intros Hc. split_and!.
  - intros. by apply deductGameEntry_coherent.
  - intros. by apply creditWallet_coherent.
  - intros. by apply safeProcessWinnings_coherent.
  - intros. by apply getBotForMatchmaking_coherent.
  - intros. by apply createGame_coherent.
  - intros u x type g Hpos Hnot Hbad.
    destruct (creditWallet_ok db u x type g) as (db' & r & Hrun & _ & _ & Hw & _); [done|].
    rewrite Hrun in Hbad. simpl in Hbad.
    specialize (Hbad u (creditUpdate type x (walletOf db u))).
    rewrite Hw, lookup_insert_eq in Hbad. specialize (Hbad eq_refl).
    pose proof (walletOf_coherent db u Hc) as Hold.
    assert (∀ t, t ∈ creditTypes → string_eqb type t = false) as Hno.
    { intros t Ht. apply string_eqb_false. intros ->. by apply Hnot. }
    unfold creditUpdate in Hbad.
    rewrite !Hno in Hbad by (unfold creditTypes; rewrite !elem_of_cons; tauto).
    simpl in Hbad. lra.
Qed.

Lemma coherent_emptyStore : coherentWallets emptyStore.
Proof. intros u w Hw. unfold emptyStore in Hw. cbn [wallets] in Hw. by rewrite lookup_empty in Hw. Qed.

Lemma wallets_stay_coherent_witness :
  coherentWallets (creditWallet emptyStore "A" 10 "REFUND" (Some "g1")).1
  ∧ ¬ coherentWallets (creditWallet emptyStore "A" 10 "BONUS" None).1.
Proof.
  destruct (wallets_stay_coherent emptyStore coherent_emptyStore)
    as (_ & Hcredit & _ & _ & _ & Hother).
  split.
  - apply Hcredit. apply (bool_decide_unpack _). vm_compute. reflexivity.
  - apply Hother; [vm_compute; reflexivity|].
    apply (bool_decide_unpack _). vm_compute. reflexivity.
Defined.

End Coherence.

(** ** Transaction history *)

Section History.
Import WalletService.

Lemma chunks_concat {A} (l : list A) n m :
  (length l <= m * n)%nat →
  concat (map (λ k, take n (drop (k * n) l)) (seq 0 m)) = l.
Proof.
  revert l. induction m as [|m IH]; intros l Hlen; simpl.
  - destruct l; [done|simpl in Hlen; lia].
  - rewrite <- fmap_S_seq, <- list_fmap_compose.
    transitivity (take n l ++ drop n l); [|apply take_drop]. f_equal.
    rewrite <- (IH (drop n l)) by (rewrite length_drop; lia).
    f_equal. apply map_ext. intros k. simpl. by rewrite drop_drop.
Qed.

Lemma ceil_covers len n : (0 < n)%nat → (len <= (len + n - 1) / n * n)%nat.
Proof.
  intros Hn.
  pose proof (Nat.div_mod_eq (len + n - 1) n) as Hdm.
  pose proof (Nat.mod_upper_bound (len + n - 1) n) as Hub.
  nia.
Qed.

(** X10 (getTransactionHistory): with a positive page size, every page from
    1 on is answered with at most [limit] rows and the same page count
    [ceil(total / limit)]; the pages 1 to that count, one after the other,
    are exactly the user's transactions of the requested type, newest
    first, and every later page is empty. *)
Theorem getTransactionHistory_pages db u limit type :
  (0 < limit)%nat →
  ∃ n,
    (∀ p, (1 <= p)%nat →
       ∃ pg, getTransactionHistory db u p limit type = Return pg
             ∧ pages pg = Some n
             ∧ total pg = length (historyOf db u type)
             ∧ (length (rows pg) <= limit)%nat
             ∧ ((n < p)%nat → rows pg = []))
    ∧ concat (map (historyPage db u limit type) (seq 1 n)) = historyOf db u type.
Proof.
  intros Hlimit.
  set (matching := filter (λ t, txUserId t = u ∧ (present type = true → Some (txType t) = type))
                     (transactions db)).
  assert (historyOf db u type = reverse matching) as Hhist by done.
  assert (length (reverse matching) = length matching) as Hrev by apply length_reverse.
  exists ((length matching + limit - 1) / limit)%nat.
  assert (∀ p, (1 <= p)%nat →
            getTransactionHistory db u p limit type =
              Return (mkPage (take limit (drop ((p - 1) * limit) (reverse matching)))
                        p limit (length matching)
                        (Some ((length matching + limit - 1) / limit)%nat))) as Hrun.
  { intros p Hp. unfold getTransactionHistory, paginate. fold matching.
    destruct p as [|p]; [lia|]. simpl andb. cbv iota.
    destruct limit; [lia|]. done. }
  split.
  - intros p Hp. eexists. split; [by apply Hrun|]. simpl.
    split_and!; [done|by rewrite Hhist, Hrev|rewrite length_take; lia|].
    intros Hbeyond. apply nil_length_inv. rewrite length_take, length_drop, Hrev.
    pose proof (ceil_covers (length matching) limit Hlimit).
    assert ((length matching + limit - 1) / limit * limit <= (p - 1) * limit)%nat; [|lia].
    apply Nat.mul_le_mono_r. lia.
  - rewrite Hhist. rewrite <- fmap_S_seq, <- list_fmap_compose.
    rewrite <- (chunks_concat (reverse matching) limit
                  ((length matching + limit - 1) / limit))
      by (rewrite Hrev; by apply ceil_covers).
    f_equal. apply map_ext. intros k. unfold compose, historyPage.
    rewrite Hrun by lia. cbn [rows]. by rewrite Nat.sub_succ, Nat.sub_0_r.
Qed.

Lemma getTransactionHistory_pages_witness :
  ∃ n, concat (map (historyPage formedStore "A" 1 None) (seq 1 n)) = historyOf formedStore "A" None.
Proof.
  destruct (getTransactionHistory_pages formedStore "A" 1 None) as (n & _ & Hall); [lia|].
  exists n. exact Hall.
Defined.

End History.

(** ** Deposits *)

Section Deposits.
Import WalletService.
Variable hmac : string → string.

Lemma filter_at_most_one {A} (P : A → Prop) `{!∀ x, Decision (P x)} (l : list A) x y :
  (length (filter P l) <= 1)%nat → x ∈ l → P x → y ∈ l → P y → x = y.
Proof.
  intros Hlen Hx HPx Hy HPy.
  assert (x ∈ filter P l) as Hx' by (by apply list_elem_of_filter).
  assert (y ∈ filter P l) as Hy' by (by apply list_elem_of_filter).
  destruct (filter P l) as [|z [|z' r]]; simpl in Hlen; [by apply elem_of_nil in Hx'| |lia].
  apply list_elem_of_singleton in Hx', Hy'. congruence.
Qed.

Lemma find_None_iff {A} (f : A → bool) (l : list A) :
  find f l = None ↔ ∀ x, x ∈ l → f x = false.
Proof.
  split.
  - intros H x Hx. apply list_elem_of_In in Hx. by apply (find_none f l H).
  - intros H. apply find_none_Forall. by apply Forall_forall.
Qed.

(** Once the pending row of an order has left the PENDING status, no
    pending deposit of that order is found. *)
Lemma settled_not_pending ps u o transaction status ps' :
  (length (filter (λ t, is_pending_deposit ps u o t = true) (transactions (store ps))) <= 1)%nat →
  find (is_pending_deposit ps u o) (transactions (store ps)) = Some transaction →
  status ≠ "PENDING" →
  transactions (store ps') = set_txStatus (txId transaction) status (transactions (store ps)) →
  razorpayOrderIdOf ps' = razorpayOrderIdOf ps →
  find (is_pending_deposit ps' u o) (transactions (store ps')) = None.
Proof.
  intros Hone Hfind Hstatus Htx Horders.
  apply find_some in Hfind as [Hin Hpend]. apply list_elem_of_In in Hin.
  apply find_None_iff. intros t'. rewrite Htx. unfold set_txStatus.
  rewrite list_elem_of_fmap. intros (t & -> & Ht).
  destruct (txId t =? txId transaction)%nat eqn:Hid.
  - unfold is_pending_deposit. simpl.
    rewrite (proj2 (string_eqb_false status "PENDING") Hstatus).
    by rewrite andb_false_r.
  - destruct (is_pending_deposit ps' u o t) eqn:Hp; [|done]. exfalso.
    assert (is_pending_deposit ps u o t = true) as Hp'.
    { unfold is_pending_deposit in *. by rewrite <- Horders. }
    assert (t = transaction) as -> by (by eapply (filter_at_most_one _ _ _ _ Hone)).
    by rewrite Nat.eqb_refl in Hid.
Qed.


(** X12 (processDeposit): with the gateway configured, a signature that
    is not the keyed digest of the order and payment ids marks the pending
    row FAILED and credits nothing; the order cannot be processed any more,
    not even with the right signature. *)
Theorem processDeposit_bad_signature ps u amount o pay sig transaction :
  (length (filter (λ t, is_pending_deposit ps u o t = true) (transactions (store ps))) <= 1)%nat →
  find (is_pending_deposit ps u o) (transactions (store ps)) = Some transaction →
  hmac (o ++ "|" ++ pay)%string ≠ sig →
  ∃ ps',
    processDeposit hmac true ps u amount o pay sig =
      (ps', DepositFail "Payment verification failed")
    ∧ wallets (store ps') = wallets (store ps)
    ∧ transactions (store ps') = set_txStatus (txId transaction) "FAILED" (transactions (store ps))
    ∧ ∀ razorpay2 amount2 pay2 sig2,
        processDeposit hmac razorpay2 ps' u amount2 o pay2 sig2 =
          (ps', DepositFail "Transaction not found or already processed").
Proof.
  intros Hone Hfind Hsig. unfold processDeposit at 1. rewrite Hfind.
  rewrite (proj2 (string_eqb_false _ _) Hsig). simpl.
  eexists. split; [reflexivity|]. simpl. split_and!; [done|done|].
  intros razorpay2 amount2 pay2 sig2. unfold processDeposit.
  by rewrite (settled_not_pending ps u o transaction "FAILED" _ Hone Hfind).
Qed.

End Deposits.

Section DepositSamples.
Import WalletService.


Lemma processDeposit_bad_signature_witness :
  ∃ ps',
    processDeposit sampleDigest true pendingDeposit "A" 10 "order1" "pay1" "forged" =
      (ps', DepositFail "Payment verification failed")
    ∧ wallets (store ps') = wallets (store pendingDeposit).
Proof.
  destruct (processDeposit_bad_signature sampleDigest pendingDeposit "A" 10 "order1" "pay1"
              "forged" (mkTransaction 0 "A" "DEPOSIT" 10 "PENDING" None))
    as (ps' & Hrun & Hw & _).
  - vm_compute. lia.
  - vm_compute. reflexivity.
  - vm_compute. discriminate.
  - exists ps'. split; [exact Hrun|exact Hw].
Defined.

End DepositSamples.

(** ** Withdrawals *)

Section Withdrawals.
Import WalletService.
Variable show : Q → string.



Lemma find_updated rid (upd : WithdrawalRequest → WithdrawalRequest) l :
  (∀ r, wrId (upd r) = wrId r) →
  find (λ r, (wrId r =? rid)%nat)
    (map (λ r, if (wrId r =? rid)%nat then upd r else r) l)
  = upd <$> find (λ r, (wrId r =? rid)%nat) l.
Proof.
  intros Hid. induction l as [|r l IH]; simpl; [done|].
  destruct (wrId r =? rid)%nat eqn:Hr; simpl.
  - by rewrite Hid, Hr.
  - by rewrite Hr.
Qed.

(** A REJECTED or CANCELLED update of a request whose user has a wallet. *)
Lemma updateWithdrawalStatus_refund ps rid status notes txid r w :
  find (λ r, (wrId r =? rid)%nat) (withdrawalRequests ps) = Some r →
  toUpperCase status = "REJECTED" ∨ toUpperCase status = "CANCELLED" →
  wallets (store ps) !! wrUserId r = Some w →
  ∃ ps',
    updateWithdrawalStatus ps rid status notes txid = Return ps'
    ∧ wallets (store ps') =
        <[wrUserId r := mkWallet (balance w + wrAmount r) (gameBalance w)
                          (withdrawableBalance w + wrAmount r)]> (wallets (store ps))
    ∧ find (λ r, (wrId r =? rid)%nat) (withdrawalRequests ps')
      = Some (withdrawalUpdate (toUpperCase status) notes txid r)
    ∧ transactions (store ps') =
        map (λ t,
           if string_eqb (txUserId t) (wrUserId r) && string_eqb (txType t) "WITHDRAWAL"
              && bool_decide (withdrawalRequestIdOf ps !! txId t = Some rid)
           then mkTransaction (txId t) (txUserId t) (txType t) (txAmount t)
                  (toUpperCase status) (txGameId t)
           else t) (transactions (store ps)).
Proof.
  intros Hfind Hstatus Hw. unfold updateWithdrawalStatus. rewrite Hfind.
  assert (string_eqb (toUpperCase status) "REJECTED"
          || string_eqb (toUpperCase status) "CANCELLED" = true) as ->.
  { destruct Hstatus as [-> | ->]; done. }
  simpl. rewrite Hw. eexists. split; [reflexivity|]. simpl.
  split_and!; [done| |done].
  rewrite find_updated by done. by rewrite Hfind.
Qed.


(** X15 (updateWithdrawalStatus): the update does not look at the status
    the request already has: every REJECTED or CANCELLED update of a
    request adds the requested amount to the balance and to the
    withdrawable balance of its user, so that a second such update credits
    the amount a second time. *)
Theorem updateWithdrawalStatus_credits_again ps rid status notes txid r w :
  find (λ r, (wrId r =? rid)%nat) (withdrawalRequests ps) = Some r →
  toUpperCase status = "REJECTED" ∨ toUpperCase status = "CANCELLED" →
  wallets (store ps) !! wrUserId r = Some w →
  ∃ ps1 ps2,
    updateWithdrawalStatus ps rid status notes txid = Return ps1
    ∧ updateWithdrawalStatus ps1 rid status notes txid = Return ps2
    ∧ withdrawableBalance (walletOf (store ps1) (wrUserId r))
      == withdrawableBalance w + wrAmount r
    ∧ withdrawableBalance (walletOf (store ps2) (wrUserId r))
      == withdrawableBalance w + wrAmount r + wrAmount r
    ∧ balance (walletOf (store ps2) (wrUserId r)) == balance w + wrAmount r + wrAmount r
    ∧ gameBalance (walletOf (store ps2) (wrUserId r)) == gameBalance w.
Proof.
  intros Hfind Hstatus Hw.
  destruct (updateWithdrawalStatus_refund ps rid status notes txid r w Hfind Hstatus Hw)
    as (ps1 & Hrun1 & Hw1 & Hfind1 & _).
  assert (wallets (store ps1) !! wrUserId (withdrawalUpdate (toUpperCase status) notes txid r)
          = Some (mkWallet (balance w + wrAmount r) (gameBalance w)
                    (withdrawableBalance w + wrAmount r))) as Hl1.
  { rewrite Hw1. simpl. apply lookup_insert_eq. }
  destruct (updateWithdrawalStatus_refund ps1 rid status notes txid _ _ Hfind1 Hstatus Hl1)
    as (ps2 & Hrun2 & Hw2 & _ & _).
  exists ps1, ps2. simpl in Hw2.
  erewrite (walletOf_lookup (store ps1)) by (rewrite Hw1; apply lookup_insert_eq).
  erewrite !(walletOf_lookup (store ps2)) by (rewrite Hw2; apply lookup_insert_eq).
  simpl. split_and!; try done; lra.
Qed.

End Withdrawals.

Section WithdrawalSamples.
Import WalletService.


Lemma updateWithdrawalStatus_credits_again_witness :
  ∃ ps1 ps2,
    updateWithdrawalStatus withdrawalPending 0 "cancelled" None None = Return ps1
    ∧ updateWithdrawalStatus ps1 0 "cancelled" None None = Return ps2
    ∧ withdrawableBalance (walletOf (store ps2) "A") == 700.
Proof.
  destruct (updateWithdrawalStatus_credits_again withdrawalPending 0%nat "cancelled" None None
              (mkWithdrawalRequest 0 "A" 200 "UPI" "PENDING" None None None None
                 (Some "asha@upi") (Some "Asha") None None)
              (mkWallet 300 0 300))
    as (ps1 & ps2 & Hrun1 & Hrun2 & _ & Hwd & _).
  - vm_compute. reflexivity.
  - right. vm_compute. reflexivity.
  - vm_compute. reflexivity.
  - exists ps1, ps2. split; [exact Hrun1|]. split; [exact Hrun2|exact Hwd].
Defined.

End WithdrawalSamples.

Section ServiceBoard.
Import GameService.

Lemma insert_head_Permutation {A} (l : list A) j x y :
  l !! j = Some y → y :: <[j := x]> l ≡ₚ x :: l.
Proof.
  revert j. induction l as [|a l IH]; intros [|j]; simpl; try done.
  - intros [= ->]. apply perm_swap.
  - intros Hj. rewrite (perm_swap a y), (IH j Hj). apply perm_swap.
Qed.

Lemma swapAt_Permutation {A} (cards : list A) i j : swapAt cards i j ≡ₚ cards.
Proof.
  unfold swapAt.
  destruct (cards !! i) as [ci|] eqn:Hi; [|done].
  destruct (cards !! j) as [cj|] eqn:Hj; [|done].
  revert i j Hi Hj. induction cards as [|a l IH]; intros [|i] [|j]; simpl; try done.
  - intros [= ->] [= ->]. done.
  - intros [= ->] Hj. by apply insert_head_Permutation.
  - intros Hi [= ->]. rewrite (insert_head_Permutation l i cj ci Hi). done.
  - intros Hi Hj. by rewrite (IH i j Hi Hj).
Qed.

Lemma shuffleFrom_Permutation random i k cards :
  shuffleFrom random i k cards ≡ₚ cards.
Proof.
  revert k cards. induction i as [|i IH]; intros k cards; simpl; [done|].
  rewrite IH. apply swapAt_Permutation.
Qed.

Lemma symbols_of_board (l : list string) :
  map symbol (imap (λ index symbol, mkCard index index symbol false false) l) = l.
Proof.
  assert (∀ k, map symbol (imap (λ i s, mkCard (k + i) (k + i) s false false) l) = l) as H.
  { induction l as [|c l IH]; intros k; simpl; [done|]. f_equal.
    rewrite <- (IH (S k)) at 2. f_equal. apply imap_ext. intros i x _. simpl.
    by rewrite Nat.add_succ_r. }
  apply (H 0%nat).
Qed.

(** X16: whatever [Math.random] draws from [0, 1), the board of
    [initializeMemoryGameBoard] has 30 cards, each of the 15 distinct symbols
    is on exactly two of them, and every card carries its index as id and
    lies face down and unmatched. *)
Theorem initializeMemoryGameBoard_pairs (random : nat → Q) :
  (∀ k, (0 <= random k)%Q ∧ (random k < 1)%Q) →
  let gameBoard := initializeMemoryGameBoard random in
  length gameBoard = 30%nat
  ∧ length CARD_SYMBOLS = 15%nat ∧ NoDup CARD_SYMBOLS
  ∧ Forall (λ sym, MemoryGameService.symbolCount sym gameBoard = 2%nat) CARD_SYMBOLS
  ∧ (∀ i c, gameBoard !! i = Some c →
       cardId c = i ∧ symbol c ∈ CARD_SYMBOLS
       ∧ isFlipped c = false ∧ isMatched c = false).
Proof.
  intros _ gameBoard. unfold gameBoard, initializeMemoryGameBoard.
  set (cards := take 15 CARD_SYMBOLS ++ take 15 CARD_SYMBOLS).
  set (shuffled := shuffleFrom random (length cards - 1) 0 cards).
  assert (shuffled ≡ₚ cards) as Hperm by apply shuffleFrom_Permutation.
  assert (NoDup CARD_SYMBOLS) as Hnd by (apply (bool_decide_unpack _); by vm_compute).
  split_and!.
  - rewrite length_imap, Hperm. reflexivity.
  - reflexivity.
  - exact Hnd.
  - apply Forall_forall. intros sym Hsym.
    rewrite symbolCount_map, symbols_of_board, Hperm.
    revert sym Hsym. apply Forall_forall.
    apply (bool_decide_unpack _). by vm_compute.
  - intros i c. rewrite list_lookup_imap.
    destruct (shuffled !! i) as [s|] eqn:Hs; [|done]. simpl. intros [= <-]. simpl.
    split_and!; try reflexivity.
    assert (s ∈ cards) as Hin by (rewrite <- Hperm; by eapply list_elem_of_lookup_2).
    unfold cards in Hin. apply elem_of_app in Hin.
    assert (take 15 CARD_SYMBOLS = CARD_SYMBOLS) as Ht by reflexivity.
    rewrite Ht in Hin. tauto.
Qed.

End ServiceBoard.

Section ServiceBoardSamples.
Import GameService.

Lemma initializeMemoryGameBoard_pairs_witness :
  length (initializeMemoryGameBoard (λ _, 0%Q)) = 30%nat.
Proof.
  assert (∀ k : nat, (0 <= (λ _ : nat, 0%Q) k)%Q ∧ ((λ _ : nat, 0%Q) k < 1)%Q) as Hdraws
    by (intros k; split; [apply Qle_refl|reflexivity]).
  exact (proj1 (initializeMemoryGameBoard_pairs (λ _, 0%Q) Hdraws)).
Defined.

End ServiceBoardSamples.

Section Payouts.
Import WalletService GameService MemoryGameService.

Lemma getGameById_frame db db' g :
  gameTable db' = gameTable db → gameParticipations db' = gameParticipations db →
  users db' = users db → getGameById db' g = getGameById db g.
Proof.
  intros Hg Hp Hu. unfold getGameById, participantsOf, findUser. by rewrite Hg, Hp, Hu.
Qed.

Lemma find_app_new {A} (f : A → bool) (l : list A) (x : A) :
  f x = true → ∃ y, find f (l ++ [x]) = Some y.
Proof.
  intros Hx. induction l as [|a l IH]; simpl.
  - rewrite Hx. eauto.
  - destruct (f a); eauto.
Qed.

(** What a call does: nothing, or one credit of the prize pool to the
    winner of the row, booked as a GAME_WINNING entry of the game. *)
Lemma processGameWinnings_cases db g :
  processGameWinnings db g = db
  ∨ ∃ game w,
      getGameById db g = Some game
      ∧ winner (GameService.game game) = Some w
      ∧ gameStatus (GameService.game game) = "FINISHED"
      ∧ find (is_winning_of w g) (transactions db) = None
      ∧ (0 < prizePool (GameService.game game))%Q
      ∧ transactions (processGameWinnings db g) =
          transactions db
          ++ [mkTransaction (nextId db) w "GAME_WINNING" (prizePool (GameService.game game))
                "COMPLETED" (Some g)]
      ∧ wallets (processGameWinnings db g) =
          <[w := creditUpdate "GAME_WINNING" (prizePool (GameService.game game))
                   (walletOf db w)]> (wallets db)
      ∧ getGameById (processGameWinnings db g) g = Some game.
Proof.
  unfold processGameWinnings.
  destruct (getGameById db g) as [game|] eqn:Hg; [|by left].
  destruct (winner (GameService.game game)) as [w|] eqn:Hw; [|by left].
  destruct (string_eqb (gameStatus (GameService.game game)) "FINISHED") eqn:Hst;
    [|by left].
  destruct (truthy w) eqn:Htw; [|by left]. simpl.
  destruct (find (is_winning_of w g) (transactions db)) eqn:Hfind; [by left|].
  destruct (Qle_bool (prizePool (GameService.game game)) 0) eqn:E.
  - apply Qle_bool_iff in E. rewrite (creditWallet_throw _ _ _ _ _ E). by left.
  - apply Qle_bool_false in E.
    destruct (creditWallet_ok db w (prizePool (GameService.game game))
                "GAME_WINNING" (Some g) E)
      as (db' & r & -> & Ht & _ & Hwal & Hgt & Hgp & Hus & _).
    right. exists game, w. simpl. split_and!; try done.
    + by apply string_eqb_true.
    + rewrite <- Hg. by apply getGameById_frame.
Qed.

(** X17: [processGameWinnings] pays a game once: a second call leaves the
    store exactly as the first one left it. *)
Theorem processGameWinnings_once db g :
  processGameWinnings (processGameWinnings db g) g = processGameWinnings db g.
Proof.
  destruct (processGameWinnings_cases db g) as [Hsame|Hpaid].
  - by rewrite !Hsame.
  - destruct Hpaid as (game & w & Hg & Hw & Hst & _ & _ & Ht & _ & Hg').
    remember (processGameWinnings db g) as db1 eqn:Hdb1.
    unfold processGameWinnings at 1. rewrite Hg', Hw, Hst.
    destruct (truthy w); [|done]. simpl.
    destruct (find_app_new (is_winning_of w g) (transactions db)
                (mkTransaction (nextId db) w "GAME_WINNING"
                   (prizePool (GameService.game game)) "COMPLETED" (Some g)))
      as [y Hy].
    { unfold is_winning_of, string_eqb. simpl.
      by rewrite !bool_decide_eq_true_2. }
    by rewrite Ht, Hy.
Qed.

(** X18: once [safeProcessWinnings] has credited the winner that the row
    of the game names, [processGameWinnings] changes nothing. *)
Theorem processGameWinnings_after_settlement svc db g w reason row svc1 db1 r :
  gameTable db !! g = Some row → winner row = Some w →
  safeProcessWinnings svc db g (Some w) reason = (svc1, db1, r) →
  resultReason r = "winner_credited" →
  processGameWinnings db1 g = db1.
Proof.
  intros Hrow Hwin Hrun Hres.
  revert Hrun. unfold safeProcessWinnings.
  case_bool_decide; [intros [= <- <- <-]; simpl in Hres; discriminate|].
  destruct (getGameById db g) as [game|] eqn:Hg;
    [|intros [= <- <- <-]; simpl in Hres; discriminate].
  destruct (find _ _); [intros [= <- <- <-]; simpl in Hres; discriminate|].
  destruct (_ || _).
  { destruct (refundAll _ _ _ _) as [db' [[]|msg]];
      intros [= <- <- <-]; simpl in Hres; discriminate. }
  destruct (truthy w && winner_reason reason);
    [|intros [= <- <- <-]; simpl in Hres; discriminate].
  destruct (Qle_bool (prizePool (GameService.game game)) 0) eqn:E.
  { apply Qle_bool_iff in E. rewrite (creditWallet_throw _ _ _ _ _ E).
    intros [= <- <- <-]; simpl in Hres; discriminate. }
  apply Qle_bool_false in E.
  destruct (creditWallet_ok db w (prizePool (GameService.game game))
              "GAME_WINNING" (Some g) E)
    as (db' & r' & -> & Ht & _ & _ & Hgt & Hgp & Hus & _).
  intros [= <- <- <-].
  unfold processGameWinnings.
  rewrite (getGameById_frame db db' g Hgt Hgp Hus), Hg.
  assert (GameService.game game = row) as Hgame.
  { revert Hg. unfold getGameById. destruct (_ || _); [discriminate|].
    rewrite Hrow. by intros [= <-]. }
  rewrite Hgame in *. rewrite Hwin.
  destruct (negb _ || negb _); [done|].
  destruct (find_app_new (is_winning_of w g) (transactions db)
              (mkTransaction (nextId db) w "GAME_WINNING" (prizePool row)
                 "COMPLETED" (Some g))) as [y Hy].
  { unfold is_winning_of, string_eqb. simpl. by rewrite !bool_decide_eq_true_2. }
  by rewrite Ht, Hy.
Qed.

(** X19: once [processGameWinnings] has booked its credit,
    [safeProcessWinnings] refuses the game, for any winner and any reason,
    a refund included, and changes nothing in the store. *)
Theorem safeProcessWinnings_after_service svc db g winnerId reason :
  transactions (processGameWinnings db g) ≠ transactions db →
  ∃ svc1 r,
    safeProcessWinnings svc (processGameWinnings db g) g winnerId reason
    = (svc1, processGameWinnings db g, r)
    ∧ success r = false.
Proof.
  intros Hchanged.
  destruct (processGameWinnings_cases db g) as [Hsame|Hpaid];
    [by rewrite Hsame in Hchanged|].
  destruct Hpaid as (game & w' & Hg & Hw & Hst & _ & _ & Ht & _ & Hg').
  unfold safeProcessWinnings. case_bool_decide; [by eexists _, _|].
  rewrite Hg'.
  destruct (find_app_new (is_completed_winning g) (transactions db)
              (mkTransaction (nextId db) w' "GAME_WINNING"
                 (prizePool (GameService.game game)) "COMPLETED" (Some g)))
    as [y Hy].
  { unfold is_completed_winning, string_eqb. simpl. by rewrite !bool_decide_eq_true_2. }
  rewrite Ht, Hy. by eexists _, _.
Qed.

End Payouts.

Section PayoutSamples.
Import GameService MemoryGameService.

Lemma processGameWinnings_after_settlement_witness :
  processGameWinnings settled.1.2 "g1" = settled.1.2.
Proof.
  apply (processGameWinnings_after_settlement freshService finishedStore "g1" "A"
           "game_completed" (mkGame "MEMORY" 2 50 80 "FINISHED" [] 0 (Some "A"))
           settled.1.1 settled.1.2 settled.2).
  - vm_compute. reflexivity.
  - reflexivity.
  - unfold settled. by destruct (safeProcessWinnings _ _ _ _ _) as [[? ?] ?].
  - vm_compute. reflexivity.
Defined.

Lemma safeProcessWinnings_after_service_witness :
  ∃ svc1 r,
    safeProcessWinnings freshService (processGameWinnings finishedStore "g1") "g1" None
      "network_issue"
    = (svc1, processGameWinnings finishedStore "g1", r)
    ∧ success r = false.
Proof.
  apply (safeProcessWinnings_after_service freshService finishedStore "g1" None
           "network_issue").
  vm_compute. discriminate.
Defined.

End PayoutSamples.

Section QueueReport.
Import MatchmakingService.
Variable show : Q → string.





End QueueReport.

Section QueueSamples.
Import MatchmakingService.


End QueueSamples.

Section Rejoin.
Import GameService MemoryGameService.

(** X21: a game that [joinRoom] restores from the store carries the status
    of its row, which is never the status of a game in play; the restored
    game is in the registry, no turn timer is armed for it, every card
    selection for it is refused and a player who leaves it is ignored. *)
Theorem joinRoom_restored_is_inert svc db roomId joining game :
  games svc !! roomId = None →
  getGameById db roomId = Some game →
  gameStatus (GameService.game game) ≠ "playing" →
  let svc' := (joinRoom svc db roomId joining).1 in
  games svc' !! roomId = Some (stateFromDb game)
  ∧ turnTimers svc' = turnTimers svc
  ∧ (∀ socketUser data,
       jsOr (dataGameId data) (dataRoomId data) = Some roomId →
       ∃ msg, selectCard svc' socketUser data = (svc', SelectError msg))
  ∧ (∀ db' leaving reason,
       handlePlayerExit svc' db' roomId leaving reason = (svc', db')).
Proof.
  intros Hreg Hrow Hstatus svc'.
  assert (svc' = set_game svc roomId (stateFromDb game)) as ->.
  { unfold svc', joinRoom. rewrite Hreg, Hrow. cbv zeta.
    assert (string_eqb (status (stateFromDb game)) "playing" = false) as ->
      by (by apply string_eqb_false).
    by rewrite andb_false_r. }
  assert (games (set_game svc roomId (stateFromDb game)) !! roomId
          = Some (stateFromDb game)) as Hlook by apply lookup_insert_eq.
  assert (string_eqb (status (stateFromDb game)) "playing" = false) as Hst
    by (by apply string_eqb_false).
  split_and!.
  - exact Hlook.
  - reflexivity.
  - intros socketUser data Hid. unfold selectCard. rewrite Hid.
    destruct (jsOr (dataPlayerId data) socketUser); [|by eexists].
    destruct (dataPosition data) as [z|]; [|by eexists].
    destruct (z <? 0)%Z; [by eexists|].
    rewrite Hlook, Hst. by eexists.
  - intros db' leaving reason. unfold handlePlayerExit. by rewrite Hlook, Hst.
Qed.

End Rejoin.

Section RejoinSamples.
Import GameService MemoryGameService.

Lemma joinRoom_restored_is_inert_witness :
  ∃ msg,
    selectCard (joinRoom freshService afterStart.2 "room1" (Some "A")).1 (Some "A") inTurn
    = ((joinRoom freshService afterStart.2 "room1" (Some "A")).1, SelectError msg).
Proof.
  refine (proj1 (proj2 (proj2
            (joinRoom_restored_is_inert freshService afterStart.2 "room1" (Some "A")
               startedRecord _ _ _))) (Some "A") inTurn _).
  - reflexivity.
  - vm_compute. reflexivity.
  - vm_compute. discriminate.
  - reflexivity.
Defined.

End RejoinSamples.

Section Exits.
Import WalletService GameService MemoryGameService.

Lemma safeProcessWinnings_timers svc db g winnerId reason :
  turnTimers (safeProcessWinnings svc db g winnerId reason).1.1 = turnTimers svc.
Proof.
  unfold safeProcessWinnings.
  case_bool_decide; [done|].
  destruct (getGameById db g) as [game|]; [|done].
  destruct (find _ _); [done|].
  destruct (_ || _).
  - by destruct (refundAll _ _ _ _) as [db' [[]|msg]].
  - destruct winnerId as [w|]; [|done].
    destruct (_ && _); [|done].
    by destruct (creditWallet _ _ _ _ _) as [db' [r|msg]].
Qed.

Lemma updateGameState_finish db g game gs winnerId :
  getGameById db g = Some game →
  ∃ db1,
    updateGameState db g (board gs) (currentTurnIndex gs) "FINISHED" winnerId = Return db1
    ∧ transactions db1 = transactions db
    ∧ nextId db1 = nextId db
    ∧ wallets db1 = wallets db
    ∧ gameTable db1 !! g = Some (finishedRow (GameService.game game) gs winnerId)
    ∧ getGameById db1 g
      = Some (mkGWP (finishedRow (GameService.game game) gs winnerId)
                (GameService.participants game)).
Proof.
  unfold getGameById, updateGameState.
  destruct (negb (truthy g) || trim_is_empty g) eqn:Hid; [discriminate|].
  destruct (gameTable db !! g) as [row|] eqn:Hrow; [|discriminate].
  intros [= <-]. eexists. split; [reflexivity|].
  split_and!; try done.
  - apply lookup_insert_eq.
  - unfold set_games at 1. cbn [gameTable]. rewrite lookup_insert_eq. done.
Qed.

(** X22 (handlePlayerExit, endGame, safeProcessWinnings): when a player of
    a two-player game in play is lost to a disconnect or a network issue,
    the game ends without a winner: it leaves the registry with its turn
    timer cleared, its row is FINISHED and names no winner, and every
    participant is refunded the entry fee: one COMPLETED REFUND of the fee
    is booked per seat, the balance and the game balance of every user go
    up by the fee once for each seat the user holds while the withdrawable
    balance stays, and the wallet of a user without a seat is untouched
    (positive fee, game not settled before). *)
Theorem handlePlayerExit_disconnect_refunds svc db g gs a b leaving reason game :
  games svc !! g = Some gs → status gs = "playing" →
  players gs = [a; b] → (leaving = playerId a ∨ leaving = playerId b) →
  (reason = "disconnected" ∨ reason = "network_issue") →
  getGameById db g = Some game →
  g ∉ processedWinnings svc →
  find (is_completed_winning g) (transactions db) = None →
  (0 < entryFee (GameService.game game))%Q →
  ∃ svc' db' row',
    handlePlayerExit svc db g leaving reason = (svc', db')
    ∧ games svc' !! g = None ∧ (g ∉ turnTimers svc')
    ∧ gameTable db' !! g = Some row'
    ∧ gameStatus row' = "FINISHED" ∧ winner row' = None
    ∧ transactions db' =
        transactions db
        ++ refundEntries (nextId db) (entryFee (GameService.game game)) g
             (GameService.participants game)
    ∧ (∀ u,
         balance (walletOf db' u)
           == balance (walletOf db u)
              + entryFee (GameService.game game)
                * inject_Z (Z.of_nat (length (filter (λ p, partUserId p.1 = u)
                                                (GameService.participants game))))
         ∧ gameBalance (walletOf db' u)
           == gameBalance (walletOf db u)
              + entryFee (GameService.game game)
                * inject_Z (Z.of_nat (length (filter (λ p, partUserId p.1 = u)
                                                (GameService.participants game))))
         ∧ withdrawableBalance (walletOf db' u) == withdrawableBalance (walletOf db u))
    ∧ (∀ u, u ∉ map (λ p, partUserId p.1) (GameService.participants game) →
         walletOf db' u = walletOf db u).
Proof.
  intros Hgs Hst Hpl Hleaving Hreason Hgame Hproc Hfind Hfee.
  unfold handlePlayerExit. rewrite Hgs, Hst.
  change (negb (string_eqb "playing" "playing")) with false. cbv iota.
  assert (∃ p, findPlayer leaving (players gs) = Some p) as [p ->].
  { rewrite Hpl. unfold findPlayer. simpl.
    destruct Hleaving as [-> | ->].
    - rewrite (proj2 (string_eqb_true _ _) eq_refl). eauto.
    - destruct (string_eqb (playerId a) (playerId b)); [eauto|].
      rewrite (proj2 (string_eqb_true _ _) eq_refl). eauto. }
  rewrite Hpl. cbn [length Nat.eqb].
  assert (string_eqb reason "disconnected" || string_eqb reason "network_issue" = true)
    as ->.
  { destruct Hreason as [-> | ->]; [done|]. apply orb_true_r. }
  unfold endGame. cbn [games clearTurnTimer]. rewrite Hgs.
  set (svc0 := clearTurnTimer (clearTurnTimer svc g) g).
  assert (winnerOf gs "network_issue" = None) as -> by done.
  destruct (updateGameState_finish db g game gs None Hgame)
    as (db1 & -> & Ht1 & Hn1 & Hw1 & Hrow1 & Hgame1).
  change (string_eqb "network_issue" "network_issue") with true. cbv iota.
  destruct (settle_refund svc0 db1 g _ Hproc Hgame1)
    as (svc2 & db2 & r & Hrun & Hcases); [by rewrite Ht1|].
  pose proof (safeProcessWinnings_timers svc0 db1 g None "network_issue") as Htimers.
  pose proof (safeProcessWinnings_gameTable _ _ _ _ _ _ _ _ Hrun) as [Htable _].
  rewrite Hrun in Htimers |- *. simpl in Htimers.
  eexists _, _, _. split; [reflexivity|]. simpl.
  split_and!.
  - apply lookup_delete_eq.
  - rewrite Htimers. rewrite !elem_of_difference, elem_of_singleton. tauto.
  - rewrite Htable. exact Hrow1.
  - done.
  - done.
  - destruct Hcases as [[Hle _]|(_ & Ht2 & _)]; [simpl in Hle; lra|].
    simpl in Ht2. by rewrite Ht2, Ht1, Hn1.
  - destruct Hcases as [[Hle _]|(_ & _ & Hrefund)]; [simpl in Hle; lra|].
    simpl in Hrefund. intros u.
    destruct (refundAll_wallets _ _ _ _ _ Hfee Hrefund u) as (Hb & Hg & Hwd).
    by rewrite (walletOf_wallets db db1 u (f_equal (λ m, m !! u) Hw1)) in Hb, Hg, Hwd.
  - destruct Hcases as [[Hle _]|(_ & _ & Hrefund)]; [simpl in Hle; lra|].
    simpl in Hrefund. intros u Hu. apply walletOf_wallets.
    rewrite (refundAll_others _ _ _ _ _ _ _ Hrefund Hu). by rewrite Hw1.
Qed.

(** X23 (handlePlayerExit, endGame, safeProcessWinnings): when a player of
    a two-player game in play leaves for any other reason, the other player
    wins: the game leaves the registry with its turn timer cleared, its row
    is FINISHED and names the other player, and the other player is credited
    the prize pool: one COMPLETED GAME_WINNING of the prize pool is booked
    to that player, whose balance and withdrawable balance go up by the
    prize pool while the game balance stays, and no other wallet changes
    (positive pool, game not settled before). *)
Theorem handlePlayerExit_leave_pays_other svc db g gs a b leaving other reason game :
  games svc !! g = Some gs → status gs = "playing" →
  players gs = [a; b] →
  ((leaving = playerId a ∧ other = playerId b)
   ∨ (leaving = playerId b ∧ other = playerId a)) →
  leaving ≠ other → truthy other = true →
  reason ≠ "disconnected" → reason ≠ "network_issue" →
  getGameById db g = Some game →
  g ∉ processedWinnings svc →
  find (is_completed_winning g) (transactions db) = None →
  (0 < prizePool (GameService.game game))%Q →
  ∃ svc' db' row',
    handlePlayerExit svc db g leaving reason = (svc', db')
    ∧ games svc' !! g = None ∧ (g ∉ turnTimers svc')
    ∧ gameTable db' !! g = Some row'
    ∧ gameStatus row' = "FINISHED" ∧ winner row' = Some other
    ∧ transactions db' =
        transactions db
        ++ [mkTransaction (nextId db) other "GAME_WINNING"
              (prizePool (GameService.game game)) "COMPLETED" (Some g)]
    ∧ balance (walletOf db' other)
      == balance (walletOf db other) + prizePool (GameService.game game)
    ∧ withdrawableBalance (walletOf db' other)
      == withdrawableBalance (walletOf db other) + prizePool (GameService.game game)
    ∧ gameBalance (walletOf db' other) == gameBalance (walletOf db other)
    ∧ (∀ v, v ≠ other → walletOf db' v = walletOf db v).
Proof.
  intros Hgs Hst Hpl Hwho Hne Htruthy Hr1 Hr2 Hgame Hproc Hfind Hpool.
  unfold handlePlayerExit. rewrite Hgs, Hst.
  change (negb (string_eqb "playing" "playing")) with false. cbv iota.
  assert (∃ p, findPlayer leaving (players gs) = Some p) as [p ->].
  { rewrite Hpl. unfold findPlayer. simpl.
    destruct Hwho as [[-> _] | [-> _]].
    - rewrite (proj2 (string_eqb_true _ _) eq_refl). eauto.
    - destruct (string_eqb (playerId a) (playerId b)); [eauto|].
      rewrite (proj2 (string_eqb_true _ _) eq_refl). eauto. }
  rewrite Hpl. cbn [length Nat.eqb].
  rewrite (proj2 (string_eqb_false _ _) Hr1), (proj2 (string_eqb_false _ _) Hr2).
  cbn [orb]. cbv zeta.
  set (gs1 := removePlayer leaving gs).
  assert (∃ q, players gs1 = [q] ∧ playerId q = other) as (q & Hpl1 & Hq).
  { unfold gs1, removePlayer. simpl. rewrite Hpl.
    destruct Hwho as [[-> ->] | [-> ->]].
    - rewrite filter_cons_False by (intros H; by apply H).
      rewrite filter_cons_True by (intros H; by apply Hne).
      rewrite filter_nil. eauto.
    - rewrite filter_cons_True by (intros H; by apply Hne).
      rewrite filter_cons_False by (intros H; by apply H).
      rewrite filter_nil. eauto. }
  rewrite Hpl1.
  unfold endGame. cbn [games clearTurnTimer set_game]. rewrite lookup_insert_eq.
  assert (winnerOf gs1 "opponent_quit" = Some other) as ->.
  { assert (winnerOf gs1 "opponent_quit" = playerId <$> head (players gs1)) as ->
      by reflexivity.
    rewrite Hpl1. simpl. by rewrite Hq. }
  destruct (updateGameState_finish db g game gs1 (Some other) Hgame)
    as (db1 & -> & Ht1 & Hn1 & Hw1 & Hrow1 & Hgame1).
  change (string_eqb "opponent_quit" "network_issue") with false. cbv iota.
  rewrite Htruthy.
  set (svc0 := clearTurnTimer (set_game (clearTurnTimer svc g) g gs1) g).
  destruct (settle_winner svc0 db1 g other "opponent_quit" _ Hproc Hgame1)
    as (svc2 & db2 & r & Hrun & Hcases); [by rewrite Ht1|done|done|].
  pose proof (safeProcessWinnings_timers svc0 db1 g (Some other) "opponent_quit")
    as Htimers.
  pose proof (safeProcessWinnings_gameTable _ _ _ _ _ _ _ _ Hrun) as [Htable _].
  rewrite Hrun in Htimers |- *. simpl in Htimers.
  assert (Hcredit : transactions db2 =
            transactions db1
            ++ [mkTransaction (nextId db1) other "GAME_WINNING"
                  (prizePool (GameService.game game)) "COMPLETED" (Some g)]
            ∧ wallets db2 =
                <[other := creditUpdate "GAME_WINNING" (prizePool (GameService.game game))
                             (walletOf db other)]> (wallets db)).
  { destruct Hcases as [[Hle _]|(_ & Ht2 & Hw2)]; [simpl in Hle; lra|].
    simpl in Ht2, Hw2. split; [done|].
    by rewrite Hw2, Hw1, (walletOf_wallets db db1 other (f_equal (λ m, m !! other) Hw1)). }
  destruct Hcredit as [Ht2 Hw2].
  assert (Hpaid : walletOf db2 other
                  = creditUpdate "GAME_WINNING" (prizePool (GameService.game game))
                      (walletOf db other)).
  { apply walletOf_lookup. rewrite Hw2. apply lookup_insert_eq. }
  eexists _, _, _. split; [reflexivity|]. simpl.
  split_and!.
  - apply lookup_delete_eq.
  - rewrite Htimers. rewrite !elem_of_difference, elem_of_singleton. tauto.
  - rewrite Htable. exact Hrow1.
  - done.
  - done.
  - by rewrite Ht2, Ht1, Hn1.
  - rewrite Hpaid. simpl. reflexivity.
  - rewrite Hpaid. simpl. reflexivity.
  - rewrite Hpaid. simpl. reflexivity.
  - intros v Hv. apply walletOf_wallets. rewrite Hw2. by apply lookup_insert_ne.
Qed.

End Exits.

Section ExitSamples.
Import GameService MemoryGameService.

Lemma handlePlayerExit_disconnect_refunds_witness :
  ∃ svc' db',
    handlePlayerExit duel.1 duel.2 "g1" "A" "disconnected" = (svc', db')
    ∧ games svc' !! "g1" = None
    ∧ length (transactions db') = 4%nat
    ∧ balance (walletOf db' "A") == 100.
Proof.
  destruct (handlePlayerExit_disconnect_refunds duel.1 duel.2 "g1" duelState
              (mkPlayer "A" "Asha" 0 0) (mkPlayer "B" "Bala" 1 0) "A" "disconnected"
              duelRecord)
    as (svc' & db' & row' & Hrun & Hgone & _ & _ & _ & _ & Hledger & Hwallets & _).
  - vm_compute. reflexivity.
  - vm_compute. reflexivity.
  - vm_compute. reflexivity.
  - left. reflexivity.
  - left. reflexivity.
  - vm_compute. reflexivity.
  - apply (bool_decide_unpack _). vm_compute. reflexivity.
  - vm_compute. reflexivity.
  - vm_compute. reflexivity.
  - exists svc', db'. split; [exact Hrun|]. split; [exact Hgone|].
    split; [rewrite Hledger; vm_compute; reflexivity|].
    destruct (Hwallets "A") as (Hb & _). rewrite Hb. vm_compute. reflexivity.
Defined.

Lemma handlePlayerExit_leave_pays_other_witness :
  ∃ svc' db' row',
    handlePlayerExit duel.1 duel.2 "g1" "A" "left" = (svc', db')
    ∧ gameTable db' !! "g1" = Some row'
    ∧ winner row' = Some "B"
    ∧ balance (walletOf db' "B") == 130.
Proof.
  destruct (handlePlayerExit_leave_pays_other duel.1 duel.2 "g1" duelState
              (mkPlayer "A" "Asha" 0 0) (mkPlayer "B" "Bala" 1 0) "A" "B" "left"
              duelRecord)
    as (svc' & db' & row' & Hrun & _ & _ & Hrow & _ & Hwin & _ & Hpaid & _).
  - vm_compute. reflexivity.
  - vm_compute. reflexivity.
  - vm_compute. reflexivity.
  - left. split; reflexivity.
  - discriminate.
  - reflexivity.
  - discriminate.
  - discriminate.
  - vm_compute. reflexivity.
  - apply (bool_decide_unpack _). vm_compute. reflexivity.
  - vm_compute. reflexivity.
  - vm_compute. reflexivity.
  - exists svc', db', row'. split; [exact Hrun|]. split; [exact Hrow|].
    split; [exact Hwin|]. rewrite Hpaid. vm_compute. reflexivity.
Defined.

End ExitSamples.

Section Leaderboard.
Import MemoryGameService.

Lemma head_insertByScore x l :
  head (insertByScore x l)
  = match head l with
    | Some y => if (rowScore y <=? rowScore x)%Z then Some x else Some y
    | None => Some x
    end.
Proof. destruct l as [|y r]; simpl; [done|]. by destruct (_ <=? _)%Z. Qed.

(** The head of the sorted rows is the first row with the highest score. *)
Lemma head_sorted (l : list LeaderboardRow) :
  l ≠ [] →
  ∃ i x,
    l !! i = Some x ∧ head (foldr insertByScore [] l) = Some x
    ∧ (∀ y, y ∈ l → (rowScore y <= rowScore x)%Z)
    ∧ (∀ j y, l !! j = Some y → (j < i)%nat → (rowScore y < rowScore x)%Z).
Proof.
  induction l as [|a l IH]; [done|]. intros _. simpl.
  rewrite head_insertByScore.
  destruct l as [|b l'].
  - exists 0%nat, a. simpl. split_and!; try done.
    + intros y ->%list_elem_of_singleton. lia.
    + intros j y _ Hj. lia.
  - destruct IH as (i & x & Hi & Hhead & Hmax & Hfirst); [done|].
    rewrite Hhead. destruct (rowScore x <=? rowScore a)%Z eqn:Hcmp.
    + apply Z.leb_le in Hcmp. exists 0%nat, a. split_and!; try done.
      * intros y [->|Hy]%elem_of_cons; [lia|]. specialize (Hmax y Hy). lia.
      * intros j y _ Hj. lia.
    + apply Z.leb_gt in Hcmp. exists (S i), x. split_and!; try done.
      * intros y [->|Hy]%elem_of_cons; [lia|]. by apply Hmax.
      * intros [|j] y Hy Hj; simpl in Hy.
        -- injection Hy as <-. lia.
        -- apply (Hfirst j y Hy). lia.
Qed.

(** X24: when a game with seated players is completed, the winner [endGame]
    selects is the player with the highest score, and of several players
    with that score the one seated first. *)
Theorem winnerOf_top_score gs :
  players gs ≠ [] →
  ∃ i p,
    players gs !! i = Some p
    ∧ winnerOf gs "game_completed" = Some (playerId p)
    ∧ (∀ q, q ∈ players gs → (scoreOf gs q <= scoreOf gs p)%Z)
    ∧ (∀ j q, players gs !! j = Some q → (j < i)%nat → (scoreOf gs q < scoreOf gs p)%Z).
Proof.
  intros Hne.
  set (row := λ player, mkRow (playerId player) (playerName player)
                          (default 0%Z (scores gs !! playerId player))
                          (default 0%nat (lifelines gs !! playerId player))).
  destruct (head_sorted (map row (players gs))) as (i & x & Hi & Hhead & Hmax & Hfirst).
  { by destruct (players gs). }
  change (map row (players gs)) with (row <$> players gs) in Hi.
  rewrite list_lookup_fmap in Hi.
  destruct (players gs !! i) as [p|] eqn:Hp; [|done]. simpl in Hi. injection Hi as <-.
  exists i, p. split_and!.
  - done.
  - assert (winnerOf gs "game_completed" = rowId <$> head (leaderboardOf gs)) as ->
      by reflexivity.
    unfold leaderboardOf. fold row. by rewrite Hhead.
  - intros q Hq. apply (Hmax (row q)). apply list_elem_of_In, in_map.
    by apply list_elem_of_In.
  - intros j q Hq Hj. apply (Hfirst j (row q)); [|done].
    change (map row (players gs)) with (row <$> players gs).
    by rewrite list_lookup_fmap, Hq.
Qed.

End Leaderboard.

Section LeaderboardSamples.
Import MemoryGameService.

Lemma winnerOf_top_score_witness :
  ∃ i p,
    players startedGame !! i = Some p
    ∧ winnerOf startedGame "game_completed" = Some (playerId p)
    ∧ (∀ q, q ∈ players startedGame → (scoreOf startedGame q <= scoreOf startedGame p)%Z)
    ∧ (∀ j q, players startedGame !! j = Some q → (j < i)%nat →
              (scoreOf startedGame q < scoreOf startedGame p)%Z).
Proof.
  apply (winnerOf_top_score startedGame).
  vm_compute. discriminate.
Defined.

End LeaderboardSamples.

Section BoardCards.
Import MemoryGameService.











Lemma registryStep_gone m g0 P : registryStep m (delete g0 m) g0 P.
Proof. right; by left. Qed.












End BoardCards.

Section BoardCardsSamples.
Import MemoryGameService.


End BoardCardsSamples.

Section Turn.
Import MemoryGameService.

(** An accepted selection: the card is turned face up and recorded. *)
Lemma selectCard_opens svc g u gs p c :
  truthy g = true → truthy u = true →
  games svc !! g = Some gs → status gs = "playing" → currentTurnPlayerId gs = u →
  processingCards gs = false →
  board gs !! p = Some c → isFlipped c = false → isMatched c = false →
  (length (selectedCards gs) < 2)%nat →
  Forall (λ s, selPosition s ≠ p) (selectedCards gs) →
  let gs3 :=
    set_selectedCards (selectedCards gs ++ [mkSelected p (symbol c) (cardId c)])
      (set_board (<[p := setFlipped true c]> (board gs)) (set_processingCards true gs)) in
  (selectCard svc (Some u) (pick g u p)).1
  = if (length (selectedCards gs3) =? 2)%nat
    then clearTurnTimer (set_game svc g gs3) g
    else set_game svc g (set_processingCards false gs3).
Proof.
  intros Hg Hu Hgs Hst Hturn Hproc Hc Hf Hm Hlen Hsel gs3.
  unfold selectCard, pick. cbn [dataGameId dataRoomId dataPlayerId dataPosition].
  assert (jsOr (Some g) None = Some g) as -> by (simpl; by rewrite Hg).
  assert (jsOr (Some u) (Some u) = Some u) as -> by (simpl; by rewrite Hu).
  assert ((Z.of_nat p <? 0)%Z = false) as -> by (apply Z.ltb_ge; lia).
  rewrite Nat2Z.id, Hgs, Hst, Hturn, Hproc, Hc, Hf, Hm.
  rewrite (proj2 (string_eqb_true u u) eq_refl).
  change (string_eqb "playing" "playing") with true. cbn [negb orb].
  assert ((2 <=? length (selectedCards gs))%nat = false) as -> by (apply Nat.leb_gt; lia).
  assert (existsb (λ selected, (selPosition selected =? p)%nat) (selectedCards gs) = false)
    as ->.
  { apply not_true_is_false. intros (s & Hin & Heq)%existsb_exists.
    apply Nat.eqb_eq in Heq. rewrite Forall_forall in Hsel.
    by apply (Hsel s); [apply list_elem_of_In|]. }
  cbv zeta. fold gs3. by destruct (_ =? 2)%nat.
Qed.

Lemma setFlipped_back c : isFlipped c = false → setFlipped false (setFlipped true c) = c.
Proof. destruct c as [i p s f m]. simpl. by intros ->. Qed.

(** The resolution of a pair with two equal symbols, short of the last
    pair. *)
Lemma processMatch_pair svc db g gs sA sB cA cB cp :
  games svc !! g = Some gs → selectedCards gs = [sA; sB] →
  board gs !! selPosition sA = Some cA → board gs !! selPosition sB = Some cB →
  selPosition sA ≠ selPosition sB →
  findPlayer (currentTurnPlayerId gs) (players gs) = Some cp →
  selSymbol sA = selSymbol sB →
  (S (matchedPairs gs) < totalPairs gs)%nat →
  (processMatch svc db g).1
  = startTurnTimer
      (set_game svc g
         (processMatchCaught
            (set_players (bumpScore (currentTurnPlayerId gs) (players gs))
               (set_tables (addScore (currentTurnPlayerId gs) (scores gs))
                  (lifelines gs) (missedTurns gs)
                  (set_matchedPairs (S (matchedPairs gs))
                     (set_board
                        (<[selPosition sB := setMatched true cB]>
                           (<[selPosition sA := setMatched true cA]> (board gs)))
                        gs)))))) g.
Proof.
  intros Hg Hsel HA HB Hne Hcp Hsym Hpairs.
  unfold processMatch. rewrite Hg, Hsel, Hcp.
  rewrite (proj2 (string_eqb_true _ _) Hsym), HA.
  cbv zeta. cbn [board set_board].
  rewrite list_lookup_insert_ne by done. rewrite HB.
  cbn [totalPairs matchedPairs set_matchedPairs set_players set_tables set_board
       currentTurnPlayerId scores lifelines missedTurns players].
  assert ((totalPairs gs <=? S (matchedPairs gs))%nat = false) as ->
    by (apply Nat.leb_gt; lia).
  reflexivity.
Qed.

(** The resolution of the last pair of the board. *)
Lemma processMatch_last_pair svc db g gs sA sB cA cB cp row :
  games svc !! g = Some gs → selectedCards gs = [sA; sB] →
  board gs !! selPosition sA = Some cA → board gs !! selPosition sB = Some cB →
  selPosition sA ≠ selPosition sB →
  findPlayer (currentTurnPlayerId gs) (players gs) = Some cp →
  selSymbol sA = selSymbol sB →
  (totalPairs gs <= S (matchedPairs gs))%nat →
  gameTable db !! g = Some row →
  ∃ row',
    games (processMatch svc db g).1 !! g = None
    ∧ gameTable (processMatch svc db g).2 !! g = Some row'
    ∧ gameStatus row' = "FINISHED"
    ∧ winner row'
      = winnerOf
          (set_players (bumpScore (currentTurnPlayerId gs) (players gs))
             (set_tables (addScore (currentTurnPlayerId gs) (scores gs))
                (lifelines gs) (missedTurns gs)
                (set_matchedPairs (S (matchedPairs gs))
                   (set_board
                      (<[selPosition sB := setMatched true cB]>
                         (<[selPosition sA := setMatched true cA]> (board gs)))
                      gs))))
          "game_completed".
Proof.
  intros Hg Hsel HA HB Hne Hcp Hsym Hpairs Hrow.
  unfold processMatch. rewrite Hg, Hsel, Hcp.
  rewrite (proj2 (string_eqb_true _ _) Hsym), HA.
  cbv zeta. cbn [board set_board].
  rewrite list_lookup_insert_ne by done. rewrite HB.
  cbn [totalPairs matchedPairs set_matchedPairs set_players set_tables set_board
       currentTurnPlayerId scores lifelines missedTurns players].
  assert ((totalPairs gs <=? S (matchedPairs gs))%nat = true) as ->
    by (apply Nat.leb_le; lia).
  set (gs5 := set_players _ _).
  set (db1 := updatePlayerScore db g _ _).
  assert (gameTable db1 !! g = Some row) as Hrow1 by (by unfold db1, updatePlayerScore).
  destruct (endGame_finishes (set_game svc g gs5) db1 g "game_completed" gs5 row)
    as (svc' & db' & row' & -> & Hnone & Hrow' & Hst & Hwin);
    [apply lookup_insert_eq|done|].
  exists row'. by split_and!.
Qed.

(** The resolution of a pair with two different symbols. *)
Lemma processMatch_miss svc db g gs sA sB cA cB :
  games svc !! g = Some gs → selectedCards gs = [sA; sB] →
  board gs !! selPosition sA = Some cA → board gs !! selPosition sB = Some cB →
  selPosition sA ≠ selPosition sB →
  players gs ≠ [] →
  selSymbol sA ≠ selSymbol sB →
  ∃ p,
    players gs !! ((currentTurnIndex gs + 1) mod length (players gs))%nat = Some p
    ∧ (processMatch svc db g).1
      = startTurnTimer
          (set_game svc g
             (set_processingCards false
                (set_selectedCards []
                   (set_currentTurnPlayerId (playerId p)
                      (set_currentTurnIndex
                         ((currentTurnIndex gs + 1) mod length (players gs))%nat
                         (set_board
                            (<[selPosition sB := setFlipped false cB]>
                               (<[selPosition sA := setFlipped false cA]> (board gs)))
                            gs)))))) g.
Proof.
  intros Hg Hsel HA HB Hne Hpl Hsym.
  unfold processMatch. rewrite Hg, Hsel.
  rewrite (proj2 (string_eqb_false _ _) Hsym), HA.
  cbv zeta. cbn [board set_board].
  rewrite list_lookup_insert_ne by done. rewrite HB.
  set (gs2 := set_board _ (set_board _ gs)).
  destruct (nextTurnState_ok gs2 Hpl) as (p & Hp & ->).
  exists p. split; [exact Hp|]. reflexivity.
Qed.

(** X26 (selectCard, processMatch, nextTurn): a turn of play.  The player
    to move, who has a score, opens two cards that lie face down, and the
    pair is resolved.  If the symbols differ, the board is exactly what it
    was before the turn, nobody scores, and the turn passes to the next
    seated player.  If they agree and pairs remain to be found after this
    one, both cards stay face up and are matched, the player scores 10, the
    count of matched pairs goes up by one and the same player moves again.
    In both cases the selection is emptied and a turn timer is armed.  If
    the symbols agree and this was the last pair, the game ends instead: it
    leaves the registry and its row is FINISHED, with the winner chosen on
    the scores after the 10 points. *)
Theorem turn_of_play svc db g u gs p1 p2 c1 c2 cp z :
  truthy g = true → truthy u = true →
  games svc !! g = Some gs → status gs = "playing" → currentTurnPlayerId gs = u →
  processingCards gs = false → selectedCards gs = [] →
  board gs !! p1 = Some c1 → board gs !! p2 = Some c2 → p1 ≠ p2 →
  isFlipped c1 = false → isMatched c1 = false →
  isFlipped c2 = false → isMatched c2 = false →
  findPlayer u (players gs) = Some cp → scores gs !! u = Some z →
  let svc1 := (selectCard svc (Some u) (pick g u p1)).1 in
  let svc2 := (selectCard svc1 (Some u) (pick g u p2)).1 in
  ((symbol c1 ≠ symbol c2 ∨ (S (matchedPairs gs) < totalPairs gs)%nat) →
   ∃ gs',
     games (processMatch svc2 db g).1 !! g = Some gs'
     ∧ selectedCards gs' = [] ∧ processingCards gs' = false
     ∧ g ∈ turnTimers (processMatch svc2 db g).1
     ∧ (symbol c1 = symbol c2 →
        board gs' = <[p2 := faceUp c2 true]> (<[p1 := faceUp c1 true]> (board gs))
        ∧ currentTurnPlayerId gs' = u
        ∧ currentTurnIndex gs' = currentTurnIndex gs
        ∧ scores gs' = <[u := (z + 10)%Z]> (scores gs)
        ∧ matchedPairs gs' = S (matchedPairs gs))
     ∧ (symbol c1 ≠ symbol c2 →
        board gs' = board gs
        ∧ currentTurnIndex gs' = ((currentTurnIndex gs + 1) mod length (players gs))%nat
        ∧ playerId <$> players gs !! currentTurnIndex gs' = Some (currentTurnPlayerId gs')
        ∧ scores gs' = scores gs
        ∧ matchedPairs gs' = matchedPairs gs))
  ∧ (symbol c1 = symbol c2 → (totalPairs gs <= S (matchedPairs gs))%nat →
     ∀ row, gameTable db !! g = Some row →
     ∃ row' gsEnd,
       games (processMatch svc2 db g).1 !! g = None
       ∧ gameTable (processMatch svc2 db g).2 !! g = Some row'
       ∧ gameStatus row' = "FINISHED"
       ∧ winner row' = winnerOf gsEnd "game_completed"
       ∧ players gsEnd = bumpScore u (players gs)
       ∧ scores gsEnd = <[u := (z + 10)%Z]> (scores gs)
       ∧ lifelines gsEnd = lifelines gs).
Proof.
  intros Hg Hu Hgs Hst Hturn Hproc Hsel Hc1 Hc2 Hne Hf1 Hm1 Hf2 Hm2 Hcp Hz svc1 svc2.
  pose proof (selectCard_opens svc g u gs p1 c1 Hg Hu Hgs Hst Hturn Hproc Hc1 Hf1 Hm1) as H1.
  rewrite Hsel in H1. specialize (H1 ltac:(simpl; lia) ltac:(constructor)).
  cbv zeta in H1. cbn [app length Nat.eqb selectedCards set_selectedCards] in H1.
  fold svc1 in H1.
  set (b1 := <[p1 := setFlipped true c1]> (board gs)) in *.
  set (s1 := mkSelected p1 (symbol c1) (cardId c1)) in *.
  set (gsA := set_processingCards false _) in H1.
  assert (games svc1 !! g = Some gsA) as HgA by (rewrite H1; apply lookup_insert_eq).
  assert (board gsA !! p2 = Some c2) as Hc2A.
  { unfold gsA, b1. simpl. by rewrite list_lookup_insert_ne. }
  pose proof (selectCard_opens svc1 g u gsA p2 c2 Hg Hu HgA Hst Hturn eq_refl Hc2A Hf2 Hm2)
    as H2.
  specialize (H2 ltac:(simpl; lia)
                 ltac:(constructor; [simpl; congruence|constructor])).
  cbv zeta in H2. fold svc2 in H2.
  change (selectedCards gsA) with [s1] in H2.
  cbn [app length Nat.eqb selectedCards set_selectedCards] in H2.
  change (board gsA) with b1 in H2.
  set (b2 := <[p2 := setFlipped true c2]> b1) in *.
  set (s2 := mkSelected p2 (symbol c2) (cardId c2)) in *.
  set (gsB := set_selectedCards [s1; s2] _) in H2.
  assert (games svc2 !! g = Some gsB) as HgB by (rewrite H2; apply lookup_insert_eq).
  assert (b2 !! p1 = Some (setFlipped true c1)) as Hb21.
  { unfold b2, b1. rewrite list_lookup_insert_ne by done.
    apply list_lookup_insert_eq. by eapply lookup_lt_Some. }
  assert (b2 !! p2 = Some (setFlipped true c2)) as Hb22.
  { unfold b2. apply list_lookup_insert_eq. unfold b1. rewrite length_insert.
    by eapply lookup_lt_Some. }
  assert (Hinserts : ∀ x1 x2, <[p2 := x2]> (<[p1 := x1]> b2)
                              = <[p2 := x2]> (<[p1 := x1]> (board gs))).
  { intros x1 x2. unfold b2, b1.
    rewrite (list_insert_insert_ne _ p1 p2) by done.
    by rewrite (list_insert_insert_eq _ p2), (list_insert_insert_eq _ p1). }
  assert (Htimer : ∀ x, g ∈ turnTimers (startTurnTimer (set_game svc2 g x) g)).
  { intros x. unfold startTurnTimer. cbn [games set_game]. rewrite lookup_insert_eq.
    cbn [turnTimers]. apply elem_of_union_r. by apply elem_of_singleton. }
  assert (Hscore : addScore u (scores gs) = <[u := (z + 10)%Z]> (scores gs)).
  { unfold addScore. apply map_eq. intros v. destruct (decide (v = u)) as [->|Hv].
    - by rewrite lookup_alter_eq, lookup_insert_eq, Hz, Z.add_comm.
    - by rewrite lookup_alter_ne, lookup_insert_ne. }
  split.
  2:{ intros Hsym Hlast row Hrow.
      destruct (processMatch_last_pair svc2 db g gsB s1 s2 _ _ cp row HgB eq_refl Hb21 Hb22
                  Hne ltac:(simpl; by rewrite Hturn) Hsym Hlast Hrow)
        as (row' & Hnone & Hrow' & Hfin & Hwin).
      eexists row', _. split_and!; [done|done|done|exact Hwin| | |done].
      - cbn. by rewrite Hturn.
      - cbn. by rewrite Hturn. }
  intros Hcase.
  destruct (decide (symbol c1 = symbol c2)) as [Hsym|Hsym].
  - assert (Hpairs : (S (matchedPairs gs) < totalPairs gs)%nat) by (by destruct Hcase).
    rewrite (processMatch_pair svc2 db g gsB s1 s2 _ _ cp HgB eq_refl Hb21 Hb22 Hne
               ltac:(simpl; by rewrite Hturn) Hsym Hpairs).
    eexists. rewrite games_startTurnTimer. cbn [games set_game].
    split; [apply lookup_insert_eq|].
    split_and!; try reflexivity; [apply Htimer| |done].
    intros _. cbn. split_and!; try done. by rewrite Hturn.
  - destruct (processMatch_miss svc2 db g gsB s1 s2 _ _ HgB eq_refl Hb21 Hb22 Hne)
      as (p & Hp & ->); [|exact Hsym|].
    { change (players gsB) with (players gs). intros Hnil. rewrite Hnil in Hcp.
      discriminate. }
    eexists. rewrite games_startTurnTimer. cbn [games set_game].
    split; [apply lookup_insert_eq|].
    split_and!; try reflexivity; [apply Htimer|done|].
    intros _. cbn. split_and!; try done.
    + change (board gsB) with b2. rewrite Hinserts.
      rewrite !setFlipped_back by done.
      rewrite (list_insert_id _ p1 c1) by done. by apply list_insert_id.
    + change (players gsB) with (players gs) in Hp.
      change (currentTurnIndex gsB) with (currentTurnIndex gs) in Hp.
      by rewrite Hp.
Qed.

End Turn.

Section TurnSamples.
Import MemoryGameService.

Lemma turn_of_play_witness :
  ∃ gs',
    games (processMatch
             (selectCard (selectCard duel.1 (Some "A") (pick "g1" "A" 0)).1 (Some "A")
                (pick "g1" "A" 1)).1 duel.2 "g1").1 !! "g1" = Some gs'
    ∧ selectedCards gs' = [] ∧ processingCards gs' = false.
Proof.
  destruct (turn_of_play duel.1 duel.2 "g1" "A" duelState 0 1 (duelCard 0) (duelCard 1)
              (mkPlayer "A" "Asha" 0 0) 0%Z)
    as [Hturn _].
  - reflexivity.
  - reflexivity.
  - vm_compute. reflexivity.
  - vm_compute. reflexivity.
  - vm_compute. reflexivity.
  - vm_compute. reflexivity.
  - vm_compute. reflexivity.
  - vm_compute. reflexivity.
  - vm_compute. reflexivity.
  - discriminate.
  - vm_compute. reflexivity.
  - vm_compute. reflexivity.
  - vm_compute. reflexivity.
  - vm_compute. reflexivity.
  - vm_compute. reflexivity.
  - vm_compute. reflexivity.
  - destruct Hturn as (gs' & Hrun & Hsel & Hproc & _).
    + right. vm_compute. lia.
    + exists gs'. split; [exact Hrun|]. split; [exact Hsel|exact Hproc].
Defined.

End TurnSamples.
